(** * Standing Orders backend (src/server.js): a shallow embedding

    The development follows the layout of [src/server.js]: the retrying call
    wrapper [fetchWithRetry], the Admin client [shopify], the signature
    check [verifyProxy], the customer generator [iterateCustomers], the
    preference lookup [getStanding], the draft-order creation
    [createDraftOrder], and the handlers of [GET /proxy/standing-orders],
    [POST /proxy/standing-orders] and [POST /jobs/standing-orders/run].  The second source file
    ([src/unnamed/part_000]) is a copy of the same program without
    [fetchWithRetry]: its [verifyProxy], [getStanding], [createDraftOrder]
    and handlers read the same, line for line.

    Conventions.
    - JavaScript numbers are IEEE-754 doubles: Rocq's primitive [float].
      HTTP status codes, the number of retries (a count) and the loop counter
      of [fetchWithRetry] are integers and are kept in [Z].
    - JavaScript strings are modelled by [string], which holds the UTF-8
      encoding of the text.  The texts the program builds (URLs, hex digits,
      weekday keys, header values) are ASCII, one character per UTF-16 code
      unit.  The query of a proxied request comes from outside: where
      [verifyProxy] works on code units ([Buffer.from(signature, 'hex')],
      [keys.sort()]), [Unicode.code_units] recovers them from the text.
      [toUpperCase] and the iteration over a string are given for ASCII
      text, to which the program applies them.
    - A response is taken with its body: the reads [res.text()] and
      [res.json()] are not steps that fail or stall on their own, so what is
      stated of a call that reads a body is stated for a remote side whose
      answers arrive whole.
    - A JSON object is an association list, in insertion order.
    - Every remote call goes through [fetch]; the remote side is a function
      from the history of the run and the request to what [fetch] produces, and
      the history (requests sent, delays asked from [setTimeout], values
      yielded by the generator) is threaded through every asynchronous
      function.
    - Definitions come first; the theorems start at the section on the test
      vectors of SHA-256. *)

From Stdlib Require Import ZArith String Ascii Bool Lia Floats Uint63 DecimalString.
From Stdlib.Strings Require Import Byte.
From Stdlib Require Import List Permutation.
Import ListNotations.

Set Warnings "-register-all".

Local Open Scope string_scope.
Local Open Scope list_scope.
Local Open Scope Z_scope.

(** String concatenation (JavaScript's [+] on strings and template literals). *)
Infix "+++" := String.append (right associativity, at level 60).

(* ================================================================== *)
(** * JavaScript text                                                  *)
(* ================================================================== *)

(** A JavaScript string is a sequence of UTF-16 code units.  A [string] of
    the model holds the UTF-8 encoding of the text, so that ASCII text has
    one character per code unit and the bytes that Node hashes
    ([update(text)] encodes in UTF-8) are the characters of the [string].
    Where the program works on the code units themselves, [code_units]
    recovers them.  A [string] that is not well-formed UTF-8 stands for no
    JavaScript text; the reader gives U+FFFD for a byte it cannot read. *)
Module Unicode.

Definition byte_code (c : ascii) : Z := Z.of_N (N_of_ascii c).

(** A continuation byte, [10xxxxxx]. *)
Definition is_cont (b : Z) : bool := (128 <=? b) && (b <=? 191).

(** The first bytes of a well-formed sequence of two, three and four bytes
    (no overlong form, no surrogate, nothing above U+10FFFF). *)
Definition lead2 (b0 : Z) : bool := (194 <=? b0) && (b0 <=? 223).

Definition lead3 (b0 b1 : Z) : bool :=
  ((b0 =? 224) && (160 <=? b1))
  || ((225 <=? b0) && (b0 <=? 236))
  || ((b0 =? 237) && (b1 <=? 159))
  || ((238 <=? b0) && (b0 <=? 239)).

Definition lead4 (b0 b1 : Z) : bool :=
  ((b0 =? 240) && (144 <=? b1))
  || ((241 <=? b0) && (b0 <=? 243))
  || ((b0 =? 244) && (b1 <=? 143)).

(** The code points of the text. *)
Fixpoint code_points (s : string) : list Z :=
  match s with
  | EmptyString => []
  | String c0 s1 =>
      let b0 := byte_code c0 in
      if b0 <? 128 then b0 :: code_points s1
      else
        match s1 with
        | EmptyString => [65533]
        | String c1 s2 =>
            let b1 := byte_code c1 in
            if is_cont b1 && lead2 b0 then
              ((b0 - 192) * 64 + (b1 - 128)) :: code_points s2
            else
              match s2 with
              | EmptyString => 65533 :: code_points s1
              | String c2 s3 =>
                  let b2 := byte_code c2 in
                  if is_cont b1 && is_cont b2 && lead3 b0 b1 then
                    ((b0 - 224) * 4096 + (b1 - 128) * 64 + (b2 - 128)) :: code_points s3
                  else
                    match s3 with
                    | EmptyString => 65533 :: code_points s1
                    | String c3 s4 =>
                        let b3 := byte_code c3 in
                        if is_cont b1 && is_cont b2 && is_cont b3 && lead4 b0 b1 then
                          ((b0 - 240) * 262144 + (b1 - 128) * 4096 + (b2 - 128) * 64
                           + (b3 - 128)) :: code_points s4
                        else 65533 :: code_points s1
                    end
              end
        end
  end.

(** A code point above U+FFFF is a pair of surrogates. *)
Definition units_of_point (p : Z) : list Z :=
  if p <? 65536 then [p]
  else [55296 + (p - 65536) / 1024; 56320 + (p - 65536) mod 1024].

(** The UTF-16 code units of the text: what [s.length], [s.charCodeAt(i)],
    the comparison of strings and [Buffer.from(s, enc)] work on. *)
Definition code_units (s : string) : list Z := flat_map units_of_point (code_points s).

(** The low byte of a code unit. *)
Definition low_byte (u : Z) : ascii := ascii_of_N (Z.to_N (u mod 256)).

(** Every character of the text is an ASCII character. *)
Definition is_ascii (s : string) : bool :=
  forallb (fun c => byte_code c <? 128) (list_ascii_of_string s).

(** The order of two sequences of code units: the first unit that differs
    decides, and a proper prefix comes first. *)
Fixpoint compare_units (a b : list Z) : comparison :=
  match a, b with
  | [], [] => Eq
  | [], _ :: _ => Lt
  | _ :: _, [] => Gt
  | x :: a', y :: b' =>
      match Z.compare x y with
      | Eq => compare_units a' b'
      | c => c
      end
  end.

(** The list [l] with its element at index [i] replaced by [x]. *)
Fixpoint replace_nth {A} (i : nat) (x : A) (l : list A) : list A :=
  match l with
  | [] => []
  | a :: rest =>
      match i with
      | O => x :: rest
      | S i' => a :: replace_nth i' x rest
      end
  end.

End Unicode.

(* ================================================================== *)
(** * Node's [crypto] and [Buffer]: SHA-256, HMAC, hexadecimal          *)
(* ================================================================== *)

Module Crypto.

(** 32-bit words are integers reduced modulo 2^32. *)
Definition wrap32 (x : Z) : Z := x mod 4294967296.

Definition rotr32 (n x : Z) : Z :=
  Z.lor (Z.shiftr x n) (wrap32 (Z.shiftl x (32 - n))).

Definition not32 (x : Z) : Z := Z.lxor x 4294967295.

Definition choose (e f g : Z) : Z := Z.lxor (Z.land e f) (Z.land (not32 e) g).

Definition majority (a b c : Z) : Z :=
  Z.lxor (Z.lxor (Z.land a b) (Z.land a c)) (Z.land b c).

Definition big_sigma0 (a : Z) : Z :=
  Z.lxor (Z.lxor (rotr32 2 a) (rotr32 13 a)) (rotr32 22 a).

Definition big_sigma1 (e : Z) : Z :=
  Z.lxor (Z.lxor (rotr32 6 e) (rotr32 11 e)) (rotr32 25 e).

Definition small_sigma0 (x : Z) : Z :=
  Z.lxor (Z.lxor (rotr32 7 x) (rotr32 18 x)) (Z.shiftr x 3).

Definition small_sigma1 (x : Z) : Z :=
  Z.lxor (Z.lxor (rotr32 17 x) (rotr32 19 x)) (Z.shiftr x 10).

(** The constants of FIPS 180-4 are defined from the first 64 primes: the
    round constants (section 4.2.2) are the first 32 bits of the fractional
    parts of their cube roots, the initial chaining value (section 5.3.3) the
    first 32 bits of the fractional parts of the square roots of the first
    eight. *)
Definition is_prime (n : Z) : bool :=
  (1 <? n) && forallb (fun d => negb (n mod d =? 0)) (map Z.of_nat (seq 2 (Z.to_nat n - 2))).

Definition first_primes (count : nat) : list Z :=
  firstn count (filter is_prime (map Z.of_nat (seq 2 310))).

(** The integer cube root, found bit by bit from the top. *)
Fixpoint cube_root_bits (bits : nat) (n acc : Z) : Z :=
  match bits with
  | O => acc
  | S b =>
      let candidate := acc + 2 ^ Z.of_nat b in
      if candidate * candidate * candidate <=? n
      then cube_root_bits b n candidate
      else cube_root_bits b n acc
  end.

Definition cube_root (n : Z) : Z := cube_root_bits 40 n 0.

Definition round_constants : list Z :=
  Eval vm_compute in map (fun q => wrap32 (cube_root (q * 2 ^ 96))) (first_primes 64).

(** The chaining value: eight 32-bit words. *)
Record chain := Chain { ha : Z; hb : Z; hc : Z; hd : Z; he : Z; hf : Z; hg : Z; hh : Z }.

Definition chain_of_list (ws : list Z) : chain :=
  Chain (nth 0 ws 0) (nth 1 ws 0) (nth 2 ws 0) (nth 3 ws 0)
        (nth 4 ws 0) (nth 5 ws 0) (nth 6 ws 0) (nth 7 ws 0).

Definition initial_chain : chain :=
  Eval vm_compute in
    chain_of_list (map (fun q => wrap32 (Z.sqrt (q * 2 ^ 64))) (first_primes 8)).

Definition byte_val (b : byte) : Z := Z.of_N (Byte.to_N b).

Definition byte_of_Z (z : Z) : byte :=
  match Byte.of_N (Z.to_N (z mod 256)) with
  | Some b => b
  | None => x00
  end.

(** Message padding: a [0x80] byte, zeros up to 56 modulo 64, then the bit
    length on eight bytes, most significant first. *)
Definition be_bytes (width : nat) (x : Z) : list Z :=
  map (fun i => (Z.shiftr x (8 * Z.of_nat (width - 1 - i))) mod 256) (seq 0 width).

Definition pad_message (msg : list Z) : list Z :=
  let len := Z.of_nat (List.length msg) in
  let zeros := Z.to_nat ((55 - len) mod 64) in
  msg ++ [128] ++ repeat 0 zeros ++ be_bytes 8 (8 * len).

Fixpoint words_of (fuel : nat) (bs : list Z) : list Z :=
  match fuel, bs with
  | S k, b0 :: b1 :: b2 :: b3 :: rest =>
      (b0 * 16777216 + b1 * 65536 + b2 * 256 + b3) :: words_of k rest
  | _, _ => []
  end.

(** The message schedule, extended from 16 to 64 words. *)
Fixpoint extend_schedule (n : nat) (w : list Z) : list Z :=
  match n with
  | O => w
  | S k =>
      let t := List.length w in
      let at_ i := nth (t - i) w 0 in
      extend_schedule k
        (w ++ [wrap32 (small_sigma1 (at_ 2%nat) + at_ 7%nat + small_sigma0 (at_ 15%nat) + at_ 16%nat)])
  end.

Definition round (c : chain) (kw : Z * Z) : chain :=
  let t1 := wrap32 (hh c + big_sigma1 (he c) + choose (he c) (hf c) (hg c) + fst kw + snd kw) in
  let t2 := wrap32 (big_sigma0 (ha c) + majority (ha c) (hb c) (hc c)) in
  Chain (wrap32 (t1 + t2)) (ha c) (hb c) (hc c) (wrap32 (hd c + t1)) (he c) (hf c) (hg c).

Definition compress (c : chain) (block : list Z) : chain :=
  let w := extend_schedule 48 (words_of 16 block) in
  let r := fold_left round (combine round_constants w) c in
  Chain (wrap32 (ha c + ha r)) (wrap32 (hb c + hb r)) (wrap32 (hc c + hc r)) (wrap32 (hd c + hd r))
        (wrap32 (he c + he r)) (wrap32 (hf c + hf r)) (wrap32 (hg c + hg r)) (wrap32 (hh c + hh r)).

Fixpoint absorb (fuel : nat) (c : chain) (bs : list Z) : chain :=
  match fuel, bs with
  | S k, _ :: _ => absorb k (compress c (firstn 64 bs)) (skipn 64 bs)
  | _, _ => c
  end.

Definition chain_bytes (c : chain) : list byte :=
  map byte_of_Z
    (concat (map (be_bytes 4) [ha c; hb c; hc c; hd c; he c; hf c; hg c; hh c])).

Definition sha256 (msg : list byte) : list byte :=
  let padded := pad_message (map byte_val msg) in
  chain_bytes (absorb (List.length padded) initial_chain padded).

(** HMAC (RFC 2104) over SHA-256, block size 64. *)
Definition xor_pad (pad : Z) (key : list byte) : list byte :=
  map (fun b => byte_of_Z (Z.lxor (byte_val b) pad)) key.

Definition hmac_key_block (key : list byte) : list byte :=
  let k := if (64 <? Z.of_nat (List.length key)) then sha256 key else key in
  k ++ repeat x00 (64 - List.length k).

Definition hmac_sha256 (key msg : list byte) : list byte :=
  let kb := hmac_key_block key in
  sha256 (xor_pad 0x5c kb ++ sha256 (xor_pad 0x36 kb ++ msg)).

(** ** Hexadecimal

    [digest('hex')] writes two lower-case digits per byte.  [Buffer.from(s,
    'hex')] reads the string two characters at a time, accepts both letter
    cases, and stops at the first pair that is not two hexadecimal digits; a
    trailing single character is dropped. *)

Definition hex_digit (n : Z) : ascii :=
  if n <? 10 then ascii_of_N (Z.to_N (48 + n)) else ascii_of_N (Z.to_N (87 + n)).

Definition hex_value (c : ascii) : option Z :=
  let n := Z.of_N (N_of_ascii c) in
  if (48 <=? n) && (n <=? 57) then Some (n - 48)
  else if (97 <=? n) && (n <=? 102) then Some (n - 87)
  else if (65 <=? n) && (n <=? 70) then Some (n - 55)
  else None.

Fixpoint hex_encode (bs : list byte) : string :=
  match bs with
  | [] => EmptyString
  | b :: rest =>
      String (hex_digit (byte_val b / 16))
        (String (hex_digit (byte_val b mod 16)) (hex_encode rest))
  end.

(** The bytes of the leading pairs of hexadecimal digits, up to the first
    pair that is not one; a last character without a partner is left out. *)
Fixpoint hex_pairs (cs : list ascii) : list byte :=
  match cs with
  | hi :: lo :: rest =>
      match hex_value hi, hex_value lo with
      | Some h, Some l => byte_of_Z (16 * h + l) :: hex_pairs rest
      | _, _ => []
      end
  | _ => []
  end.

(** [Buffer.from(s, 'hex')].  Node reads the string by UTF-16 code units and
    keeps the low byte of each unit before it looks the digit up, so that a
    unit such as U+0131 is read as [1] (0x31). *)
Definition hex_decode (s : string) : list byte :=
  hex_pairs (map Unicode.low_byte (Unicode.code_units s)).

Fixpoint bytes_eqb (a b : list byte) : bool :=
  match a, b with
  | [], [] => true
  | x :: a', y :: b' => Byte.eqb x y && bytes_eqb a' b'
  | _, _ => false
  end.

End Crypto.

(* ================================================================== *)
(** * JavaScript values                                                *)
(* ================================================================== *)

Inductive value : Type :=
| VUndefined
| VNull
| VBool (b : bool)
| VNum (n : float)
| VStr (s : string)
| VArr (items : list value)
| VObj (fields : list (string * value)).

(** A thrown exception: its [name] and its [message] (the handlers report
    [e.message]). *)
Record error := Error_ { err_name : string; err_message : string }.

Definition Error (msg : string) : error := Error_ "Error" msg.
Definition TypeError (msg : string) : error := Error_ "TypeError" msg.
Definition ReferenceError (msg : string) : error := Error_ "ReferenceError" msg.
Definition RangeError (msg : string) : error := Error_ "RangeError" msg.
Definition SyntaxError (msg : string) : error := Error_ "SyntaxError" msg.

(** What evaluating a piece of code produces: a value, a thrown exception, or
    [Diverge] when the model's step budget ran out before the code finished. *)
Inductive outcome (A : Type) : Type :=
| Ok (a : A)
| Throw (e : error)
| Diverge.
Arguments Ok {A} a.
Arguments Throw {A} e.
Arguments Diverge {A}.

Definition obind {A B} (c : outcome A) (k : A -> outcome B) : outcome B :=
  match c with
  | Ok a => k a
  | Throw e => Throw e
  | Diverge => Diverge
  end.

Notation "'let?' x ':=' c 'in' k" := (obind c (fun x => k))
  (at level 10, x name, c at level 100, k at level 200).

Fixpoint assoc {A} (k : string) (l : list (string * A)) : option A :=
  match l with
  | [] => None
  | (k', v) :: rest => if String.eqb k k' then Some v else assoc k rest
  end.

(** The built-ins of the JavaScript runtime that the program calls and whose
    result depends on number formatting or on a grammar: they are an interface
    here, and every theorem below holds for all its implementations. *)
Class Runtime := {
  (** [JSON.parse]: the value, or the message of the [SyntaxError]. *)
  JSON_parse : string -> value + string;
  JSON_stringify : value -> string;
  (** [Number(s)] on a string. *)
  StringToNumber : string -> float;
  (** [String(n)] on a number. *)
  NumberToString : float -> string
}.

Section Values.
Context {rt : Runtime}.

(** [!!v] *)
Definition truthy (v : value) : bool :=
  match v with
  | VUndefined | VNull => false
  | VBool b => b
  | VNum n => negb (PrimFloat.is_nan n || PrimFloat.is_zero n)
  | VStr s => negb (String.eqb s "")
  | VArr _ | VObj _ => true
  end.

(** [a || b] *)
Definition or_else (a b : value) : value := if truthy a then a else b.

(** [v.k] and [v[k]].  Reading a property of [undefined] or [null] throws; an
    object answers with its own property; every other value answers
    [undefined] (none of the names the program reads is defined on the
    prototypes of booleans, numbers, strings or arrays). *)
Definition get_prop (v : value) (k : string) : outcome value :=
  match v with
  | VUndefined =>
      Throw (TypeError ("Cannot read properties of undefined (reading '" +++ k +++ "')"))
  | VNull =>
      Throw (TypeError ("Cannot read properties of null (reading '" +++ k +++ "')"))
  | VObj fields =>
      Ok (match assoc k fields with Some x => x | None => VUndefined end)
  | _ => Ok VUndefined
  end.

(** [String(v)], as template literals and [Array.prototype.join] apply it. *)
Fixpoint ToString (v : value) : string :=
  match v with
  | VUndefined => "undefined"
  | VNull => "null"
  | VBool b => if b then "true" else "false"
  | VNum n => NumberToString n
  | VStr s => s
  | VArr items =>
      String.concat ","
        (map (fun x => match x with VUndefined | VNull => "" | _ => ToString x end) items)
  | VObj _ => "[object Object]"
  end.

(** [Number(v)] *)
Definition ToNumber (v : value) : float :=
  match v with
  | VUndefined => PrimFloat.nan
  | VNull => 0%float
  | VBool b => if b then 1%float else 0%float
  | VNum n => n
  | VStr s => StringToNumber s
  | VArr _ | VObj _ => StringToNumber (ToString v)
  end.

(** [v === s] for a string literal [s]. *)
Definition is_string (v : value) (s : string) : bool :=
  match v with
  | VStr s' => String.eqb s' s
  | _ => false
  end.

(** [JSON.parse(v)]: the argument is converted to a string first. *)
Definition JSON_parse_value (v : value) : outcome value :=
  match JSON_parse (ToString v) with
  | inl parsed => Ok parsed
  | inr msg => Throw (SyntaxError msg)
  end.

(** What [for (const c of v)] iterates over; a string is iterated by its
    characters (ASCII text). *)
Definition iterate (v : value) : outcome (list value) :=
  match v with
  | VArr items => Ok items
  | VStr s => Ok (map (fun c => VStr (String c EmptyString)) (list_ascii_of_string s))
  | _ => Throw (TypeError (ToString v +++ " is not iterable"))
  end.

(** [xs.find(p)] on an array. *)
Fixpoint array_find (p : value -> outcome bool) (xs : list value) : outcome value :=
  match xs with
  | [] => Ok VUndefined
  | x :: rest =>
      let? hit := p x in
      if hit then Ok x else array_find p rest
  end.

(** [v.find(p)], where [callee] is the text of the expression [v.find] in
    the source: only arrays have a [find] method, and the error for another
    value names the expression. *)
Definition find_in (callee : string) (v : value) (p : value -> outcome bool) : outcome value :=
  match v with
  | VArr items => array_find p items
  | VUndefined | VNull => Throw (TypeError "Cannot read properties of undefined (reading 'find')")
  | _ => Throw (TypeError (callee +++ " is not a function"))
  end.

End Values.

(* ================================================================== *)
(** * The remote side and the history of a run                         *)
(* ================================================================== *)

(** The [init] argument of [fetch]. *)
Record fetch_init := {
  init_method : option string;
  init_headers : list (string * string);
  init_body : option string
}.

Definition no_init : fetch_init :=
  {| init_method := None; init_headers := []; init_body := None |}.

(** A call of [fetch]: the URL, the [init], and the delay after which the
    [AbortController] of the attempt aborts it. *)
Record request := {
  rq_url : string;
  rq_init : fetch_init;
  rq_abort_after : float
}.

(** A response: [status], the headers (names in lower case, as
    [headers.get] looks them up) and the body text. *)
Record response := {
  status : Z;
  res_headers : list (string * string);
  res_body : string
}.

(** What [await fetch(...)] produces: a response, or a rejection
    ([AbortError] after the time-out, or a network error). *)
Inductive fetch_result :=
| Responded (r : response)
| Failed (e : error).

(** What a run does, in order: calls of [fetch], delays asked from
    [setTimeout], and values the generator [iterateCustomers] hands to its
    consumer at a [yield]. *)
Inductive event :=
| Fetched (rq : request)
| Slept (ms : float)
| Yielded (v : value).

Definition history := list event.

(** The remote side: what a request gets, given everything that happened
    before it in the run. *)
Definition remote := history -> request -> fetch_result.

(** Asynchronous code: from the history so far to an outcome and the history
    extended by what the code did. *)
Definition M (A : Type) : Type := history -> outcome A * history.

Definition ret {A} (a : A) : M A := fun h => (Ok a, h).
Definition throw {A} (e : error) : M A := fun h => (Throw e, h).
Definition diverge {A} : M A := fun h => (Diverge, h).
Definition lift {A} (o : outcome A) : M A := fun h => (o, h).

Definition bind {A B} (c : M A) (k : A -> M B) : M B :=
  fun h =>
    match c h with
    | (Ok a, h') => k a h'
    | (Throw e, h') => (Throw e, h')
    | (Diverge, h') => (Diverge, h')
    end.

Notation "x <- c ;; k" := (bind c (fun x => k))
  (at level 61, c at next level, right associativity).

Definition record {A} (e : event) (a : A) : M A := fun h => (Ok a, h ++ [e]).

(** The calls of [fetch] in a history, and the delays in it. *)
Definition fetches (h : history) : list request :=
  flat_map (fun e => match e with Fetched rq => [rq] | _ => [] end) h.

Definition sleeps (h : history) : list float :=
  flat_map (fun e => match e with Slept ms => [ms] | _ => [] end) h.

(* ================================================================== *)
(** * ENV + helpers (server.js, lines 27-111)                          *)
(* ================================================================== *)

(** [const { SHOP, ADMIN_ACCESS_TOKEN, APP_PROXY_SHARED_SECRET } = process.env]:
    a variable that is not set is [undefined]. *)
Record config := {
  SHOP : option string;
  ADMIN_ACCESS_TOKEN : option string;
  APP_PROXY_SHARED_SECRET : option string
}.

(** An environment variable inside a template literal or as a header value. *)
Definition env_text (v : option string) : string :=
  match v with
  | Some s => s
  | None => "undefined"
  end.

Definition decimal (z : Z) : string := NilZero.string_of_int (Z.to_int z).

(** The third argument of [fetchWithRetry]. *)
Record retry_options := {
  retries : Z;
  timeoutMs : float;
  backoffMs : float
}.

Definition default_options : retry_options :=
  {| retries := 2; timeoutMs := 8000; backoffMs := 800 |}.

(** [{ retries: 3, timeoutMs: 10000, backoffMs: 1000 }] *)
Definition admin_options : retry_options :=
  {| retries := 3; timeoutMs := 10000; backoffMs := 1000 |}.

(** [res.ok] *)
Definition res_ok (r : response) : bool := (200 <=? status r) && (status r <=? 299).

(** [res.status === 429 || (res.status >= 500 && res.status <= 599)] *)
Definition retryable (r : response) : bool :=
  (status r =? 429) || ((500 <=? status r) && (status r <=? 599)).

(** [res.headers.get(name)]: the value, or [null]. *)
Definition header_get (name : string) (r : response) : value :=
  match assoc name (res_headers r) with
  | Some s => VStr s
  | None => VNull
  end.

(** [Math.pow(2, attempt)] for the integer loop counter. *)
Definition pow2 (attempt : Z) : float := Z.ldexp 1%float attempt.

(** How one turn of the [for] loop of [fetchWithRetry] ends. *)
Inductive iter_result :=
| IterReturn (r : response)
| IterThrow (e : error)
| IterContinue.

(** How the whole [for] loop ends; [LoopFellThrough] is the loop condition
    [attempt <= retries] failing, which leads to the [throw] of line 73. *)
Inductive loop_exit :=
| LoopReturn (r : response)
| LoopThrow (e : error)
| LoopFellThrough.

Section Calls.
Context {rt : Runtime}.
Variable world : remote.

Definition request_of (url : string) (init : fetch_init) (opts : retry_options) : request :=
  {| rq_url := url; rq_init := init; rq_abort_after := timeoutMs opts |}.

(** The delay of lines 51-55. *)
Definition retry_after_wait (opts : retry_options) (attempt : Z) (res : response) : float :=
  let ra := ToNumber (header_get "retry-after" res) in
  if PrimFloat.is_finite ra && PrimFloat.ltb 0%float ra
  then PrimFloat.mul ra 1000%float
  else PrimFloat.mul (backoffMs opts) (pow2 attempt).

(** The delay of line 66. *)
Definition backoff_wait (opts : retry_options) (attempt : Z) : float :=
  PrimFloat.mul (backoffMs opts) (pow2 attempt).

(** The body of the [for] loop (lines 40-70) for one value of [attempt]. *)
Definition attempt_once (url : string) (init : fetch_init) (opts : retry_options)
    (attempt : Z) (h : history) : iter_result * history :=
  let rq := request_of url init opts in
  let h1 := h ++ [Fetched rq] in
  match world h rq with
  | Responded res =>
      if negb (res_ok res) && retryable res && (attempt <? retries opts) then
        (IterContinue, h1 ++ [Slept (retry_after_wait opts attempt res)])
      else
        (IterReturn res, h1)
  | Failed err =>
      if attempt >=? retries opts then (IterThrow err, h1)
      else (IterContinue, h1 ++ [Slept (backoff_wait opts attempt)])
  end.

(** [for (let attempt = ...; attempt <= retries; attempt++)], with [turns] the
    number of values of [attempt] that are still at most [retries]. *)
Fixpoint retry_loop (url : string) (init : fetch_init) (opts : retry_options)
    (turns : nat) (attempt : Z) (h : history) : loop_exit * history :=
  match turns with
  | O => (LoopFellThrough, h)
  | S turns' =>
      match attempt_once url init opts attempt h with
      | (IterReturn res, h') => (LoopReturn res, h')
      | (IterThrow err, h') => (LoopThrow err, h')
      | (IterContinue, h') => retry_loop url init opts turns' (attempt + 1) h'
      end
  end.

Definition fetchWithRetry (url : string) (init : fetch_init) (opts : retry_options)
  : M response :=
  fun h =>
    match retry_loop url init opts (Z.to_nat (retries opts + 1)) 0 h with
    | (LoopReturn res, h') => (Ok res, h')
    | (LoopThrow err, h') => (Throw err, h')
    | (LoopFellThrough, h') => (Throw (Error "fetchWithRetry exhausted attempts"), h')
    end.

(** The delays [ws] are those of consecutive retries, the first of them after
    the attempt numbered [attempt]: each is the exponential delay of its
    attempt, or the delay that the [retry-after] rule of lines 51-55 gives
    for a retryable response. *)
Fixpoint delays_follow_policy (opts : retry_options) (attempt : Z) (ws : list float) : Prop :=
  match ws with
  | [] => True
  | w :: rest =>
      (w = backoff_wait opts attempt
       \/ exists res, res_ok res = false /\ retryable res = true
                       /\ w = retry_after_wait opts attempt res)
      /\ delays_follow_policy opts (attempt + 1) rest
  end.

(** [{ ...base, ...extra }] on header objects: a key of [extra] replaces the
    value of the same key in place, a new key goes to the end. *)
Fixpoint obj_set {A} (k : string) (v : A) (o : list (string * A)) : list (string * A) :=
  match o with
  | [] => [(k, v)]
  | (k', v') :: rest => if String.eqb k k' then (k, v) :: rest else (k', v') :: obj_set k v rest
  end.

Definition obj_spread {A} (base extra : list (string * A)) : list (string * A) :=
  fold_left (fun o kv => obj_set (fst kv) (snd kv) o) extra base.

(** [res.json()], for a response whose body has arrived: the parse of the
    body text. *)
Definition res_json (res : response) : outcome value :=
  match JSON_parse (res_body res) with
  | inl v => Ok v
  | inr msg => Throw (SyntaxError msg)
  end.

Variable cfg : config.

Definition admin_url (path : string) : string :=
  "https://" +++ env_text (SHOP cfg) +++ "/admin/api/2024-10" +++ path.

(** [{ ...init, headers: { "X-Shopify-Access-Token": ..., "Content-Type":
    ..., ...(init.headers || {}) } }] *)
Definition admin_init (init : fetch_init) : fetch_init :=
  {| init_method := init_method init;
     init_headers :=
       obj_spread
         [("X-Shopify-Access-Token", env_text (ADMIN_ACCESS_TOKEN cfg));
          ("Content-Type", "application/json")]
         (init_headers init);
     init_body := init_body init |}.

(** The call of [fetch] that [shopify(path, init)] makes at each attempt. *)
Definition admin_request (path : string) (init : fetch_init) : request :=
  request_of (admin_url path) (admin_init init) admin_options.

(** [shopify(path, init)] (lines 77-98). *)
Definition shopify (path : string) (init : fetch_init) : M value :=
  res <- fetchWithRetry (admin_url path) (admin_init init) admin_options ;;
  if negb (res_ok res) then
    throw (Error ("Shopify " +++ decimal (status res) +++ " " +++ path +++ ": " +++ res_body res))
  else
    lift (res_json res).

End Calls.

(* ================================================================== *)
(** * verifyProxy (lines 101-111)                                      *)
(* ================================================================== *)

(** [req.query]: the parsed query string, an object from parameter names to
    their (string) values. *)
Definition query := list (string * string).

(** The order of [sort()] without a comparator: strings are compared by
    their UTF-16 code units.  Two texts with the same code units are the same
    text; the comparison of the characters only settles the order of
    [string]s that are not well-formed. *)
Definition key_leb (a b : string) : bool :=
  match Unicode.compare_units (Unicode.code_units a) (Unicode.code_units b) with
  | Lt => true
  | Gt => false
  | Eq => String.leb a b
  end.

Fixpoint insert_sorted (k : string) (l : list string) : list string :=
  match l with
  | [] => [k]
  | x :: rest => if key_leb k x then k :: l else x :: insert_sorted k rest
  end.

(** [keys.sort()]: ascending, by code units. *)
Definition sort_keys (l : list string) : list string := fold_right insert_sorted [] l.

(** [`${k}=${params[k]}`] *)
Definition key_value (params : query) (k : string) : string :=
  k +++ "=" +++ match assoc k params with Some v => v | None => "undefined" end.

(** [Object.keys(params).sort().map(k => `${k}=${params[k]}`).join('')] *)
Definition canonical (params : query) : string :=
  String.concat "" (map (key_value params) (sort_keys (map fst params))).

(** The double quote character. *)
Definition dquote : ascii := "034"%char.

(** The message of Node's [ERR_INVALID_ARG_TYPE] for the key of
    [createHmac]; the name of the argument is written in double quotes. *)
Definition invalid_key_message : string :=
  "The " +++ String dquote ("key" +++ String dquote
    " argument must be of type string or an instance of ArrayBuffer, Buffer, TypedArray, DataView, KeyObject, or CryptoKey. Received undefined").

(** [crypto.createHmac('sha256', key).update(data).digest('hex')]: a key that
    is [undefined] is refused with a [TypeError]. *)
Definition hmac_hex (key : option string) (data : string) : outcome string :=
  match key with
  | None =>
      Throw (TypeError invalid_key_message)
  | Some k =>
      Ok (Crypto.hex_encode
            (Crypto.hmac_sha256 (list_byte_of_string k) (list_byte_of_string data)))
  end.

(** [crypto.timingSafeEqual(a, b)] *)
Definition timingSafeEqual (a b : list byte) : outcome bool :=
  if Nat.eqb (length a) (length b) then Ok (Crypto.bytes_eqb a b)
  else Throw (RangeError "Input buffers must have the same byte length").

(** [const { signature, ...params } = req.query] *)
Definition signature_of (q : query) : option string := assoc "signature" q.
Definition params_of (q : query) : query :=
  filter (fun kv => negb (String.eqb (fst kv) "signature")) q.

Definition verifyProxy (cfg : config) (q : query) : outcome bool :=
  match signature_of q with
  | None => Ok false
  | Some signature =>
      if String.eqb signature "" then Ok false
      else
        let sorted := canonical (params_of q) in
        let? digest := hmac_hex (APP_PROXY_SHARED_SECRET cfg) sorted in
        match timingSafeEqual (Crypto.hex_decode signature) (Crypto.hex_decode digest) with
        | Ok b => Ok b
        | _ => Ok false
        end
  end.

(** The digest [verifyProxy] computes for a query, and its hex text. *)
Definition digest_bytes (secret : string) (params : query) : list byte :=
  Crypto.hmac_sha256 (list_byte_of_string secret) (list_byte_of_string (canonical params)).

Definition sign (secret : string) (params : query) : string :=
  Crypto.hex_encode (digest_bytes secret params).

(** The text [s] with its character at index [i] replaced by [c]. *)
Fixpoint alter (i : nat) (c : ascii) (s : string) : string :=
  match s with
  | EmptyString => EmptyString
  | String a rest =>
      match i with
      | O => String c rest
      | S i' => String a (alter i' c rest)
      end
  end.

(** The character of [s] at index [i]. *)
Definition char_at (i : nat) (s : string) : option ascii := String.get i s.

(* ================================================================== *)
(** * The daily job (lines 171-236)                                    *)
(* ================================================================== *)

Definition DAY_KEYS : list string := ["sun"; "mon"; "tue"; "wed"; "thu"; "fri"; "sat"].

(** The day of the week of the run's clock. *)
Inductive weekday := Sunday | Monday | Tuesday | Wednesday | Thursday | Friday | Saturday.

(** [new Date().getDay()] *)
Definition getDay (d : weekday) : nat :=
  match d with
  | Sunday => 0 | Monday => 1 | Tuesday => 2 | Wednesday => 3
  | Thursday => 4 | Friday => 5 | Saturday => 6
  end%nat.

(** [DAY_KEYS[new Date().getDay()]] *)
Definition dayKey_of (d : weekday) : string := nth (getDay d) DAY_KEYS "undefined".

Definition upper_char (c : ascii) : ascii :=
  let n := N_of_ascii c in
  if (N.leb 97 n && N.leb n 122)%bool then ascii_of_N (n - 32) else c.

(** [s.toUpperCase()] on ASCII text: the letters [a]-[z] become [A]-[Z] and
    every other character is kept.  The program applies it to the weekday
    keys. *)
Fixpoint toUpperCase (s : string) : string :=
  match s with
  | EmptyString => EmptyString
  | String c rest => String (upper_char c) (toUpperCase rest)
  end.

(** ** The regular expression of line 189

    [/<[^>]+page_info=([^>]+)>; rel="next"/]: a [<], one or more characters
    other than [>], the text [page_info=], one or more characters other than
    [>] (the captured group), then [>; rel="next"]. *)

Definition rel_next : string := "; rel=" +++ String dquote ("next" +++ String dquote "").

Fixpoint strip_prefix (p s : string) : option string :=
  match p with
  | EmptyString => Some s
  | String a p' =>
      match s with
      | String b s' => if Ascii.eqb a b then strip_prefix p' s' else None
      | EmptyString => None
      end
  end.

(** The text up to the first [>], and the text after it. *)
Fixpoint until_gt (s : string) : option (string * string) :=
  match s with
  | EmptyString => None
  | String c rest =>
      if Ascii.eqb c ">" then Some (EmptyString, rest)
      else
        match until_gt rest with
        | Some (seg, after) => Some (String c seg, after)
        | None => None
        end
  end.

(** The captured group inside the text between [<] and [>], its first
    character (which [[^>]+] must take) removed: the first [[^>]+] is greedy,
    so the last [page_info=] that leaves a non-empty group wins. *)
Fixpoint capture_page_info (seg : string) : option string :=
  match seg with
  | EmptyString => None
  | String _ rest =>
      match capture_page_info rest with
      | Some tok => Some tok
      | None =>
          match strip_prefix "page_info=" seg with
          | Some tok => if String.eqb tok "" then None else Some tok
          | None => None
          end
      end
  end.

(** A match that starts at a [<]; [s] is the text after it. *)
Definition match_from (s : string) : option string :=
  match until_gt s with
  | Some (String _ seg, after) =>
      match strip_prefix rel_next after with
      | Some _ => capture_page_info seg
      | None => None
      end
  | _ => None
  end.

(** [link.match(...)], reduced to [next ? next[1] : null]: the leftmost match. *)
Fixpoint match_next_link (link : string) : option string :=
  match link with
  | EmptyString => None
  | String c rest =>
      match (if Ascii.eqb c "<" then match_from rest else None) with
      | Some tok => Some tok
      | None => match_next_link rest
      end
  end.

(** The truth value of [page_info] ([null] or a string). *)
Definition cursor_set (page_info : option string) : bool :=
  match page_info with
  | Some tok => negb (String.eqb tok "")
  | None => false
  end.

(** Where the generator [iterateCustomers] is suspended. *)
Inductive gen_state :=
| GenStart
    (** created, body not entered yet: [page_info = null] *)
| GenInPage (pending : list value) (link : string)
    (** inside [for (const c of ...)], with the elements not handed out yet
        and the [link] header of the page *)
| GenDone.

(** An order line and a job result, as the handler builds them. *)
Record item := { variantId : value; quantity : float }.
Record job_record := { customerId : value; draftId : value }.

(** The answer of a route handler: status code and JSON body. *)
Record reply := { code : Z; payload : value }.

(** [v.k] when the read cannot throw. *)
Definition prop_of {rt : Runtime} (v : value) (k : string) : value :=
  match get_prop v k with
  | Ok x => x
  | _ => VUndefined
  end.

Definition not_nullish (v : value) : Prop := v <> VUndefined /\ v <> VNull.

(** [({ variantId: p.variantId, quantity: Number(p[dayKey] || 0) })] *)
Definition item_of {rt : Runtime} (dayKey : string) (p : value) : item :=
  {| variantId := prop_of p "variantId";
     quantity := ToNumber (or_else (prop_of p dayKey) (VNum 0%float)) |}.

(** The document of the end-to-end scenario, with the quantities under
    [quantityPerWeekday], and a document with the quantities at the weekday
    keys of the product entry itself. *)
Definition nested_products : list value :=
  [VObj [("variantId", VNum 111%float);
         ("quantityPerWeekday", VObj [("mon", VNum 2%float); ("tue", VNum 0%float)])]].

Definition nested_document : value := VObj [("products", VArr nested_products)].

Definition flat_products : list value :=
  [VObj [("variantId", VNum 111%float); ("mon", VNum 2%float); ("tue", VNum 0%float)]].

Definition flat_document : value := VObj [("products", VArr flat_products)].

Section Job.
Context {rt : Runtime}.
Variable world : remote.
Variable cfg : config.

Definition customers_url (page_info : option string) : string :=
  if cursor_set page_info then
    "https://" +++ env_text (SHOP cfg) +++ "/admin/api/2024-10/customers.json?limit=250&page_info="
      +++ env_text page_info +++ "&fields=id"
  else
    "https://" +++ env_text (SHOP cfg) +++ "/admin/api/2024-10/customers.json?limit=250&fields=id".

Definition customers_init : fetch_init :=
  {| init_method := None;
     init_headers := [("X-Shopify-Access-Token", env_text (ADMIN_ACCESS_TOKEN cfg))];
     init_body := None |}.

(** The call of [fetch] for the page after the cursor [page_info]. *)
Definition page_request (page_info : option string) : request :=
  request_of (customers_url page_info) customers_init admin_options.

(** [resp.headers.get('link') || ''] *)
Definition link_of (resp : response) : string :=
  ToString (or_else (header_get "link" resp) (VStr "")).

(** Lines 176-188, up to the first [yield]: the page's elements and its
    [link] header. *)
Definition load_page (page_info : option string) : M (list value * string) :=
  resp <- fetchWithRetry world (customers_url page_info) customers_init admin_options ;;
  if negb (res_ok resp) then
    throw (Error ("List customers failed: " +++ decimal (status resp)))
  else
    let link := link_of resp in
    body <- lift (res_json resp) ;;
    customers <- lift (get_prop body "customers") ;;
    elements <- lift (iterate (or_else customers (VArr []))) ;;
    ret (elements, link).

(** One [next()] of the generator: runs the body up to the next [yield]
    ([Some id]) or to its end ([None]).  [fuel] bounds the number of pages
    loaded without a [yield] in between. *)
Fixpoint gen_next (fuel : nat) (st : gen_state) : M (option value * gen_state) :=
  match fuel with
  | O => diverge
  | S fuel' =>
      match st with
      | GenDone => ret (None, GenDone)
      | GenStart =>
          p <- load_page None ;;
          gen_next fuel' (GenInPage (fst p) (snd p))
      | GenInPage (c :: rest) link =>
          id <- lift (get_prop c "id") ;;
          record (Yielded id) (Some id, GenInPage rest link)
      | GenInPage [] link =>
          let page_info := match_next_link link in
          if cursor_set page_info then
            p <- load_page page_info ;;
            gen_next fuel' (GenInPage (fst p) (snd p))
          else ret (None, GenDone)
      end
  end.

(** A consumer that takes every value of the generator:
    [for await (const id of iterateCustomers()) seen.push(id)]. *)
Fixpoint drain (fuel : nat) (g : gen_state) (seen : list value) : M (list value) :=
  match fuel with
  | O => diverge
  | S fuel' =>
      r <- gen_next fuel g ;;
      match fst r with
      | None => ret seen
      | Some id => drain fuel' (snd r) (seen ++ [id])
      end
  end.

(** One [next()] with the gen fuel [n], followed by [drain] with the fuel
    [m]: what [drain (S m)] unfolds to when [n = S m]. *)
Definition drain_from (n m : nat) (g : gen_state) (seen : list value) : M (list value) :=
  r <- gen_next n g ;;
  match fst r with
  | None => ret seen
  | Some id => drain m (snd r) (seen ++ [id])
  end.

(** The response [res] is an OK page whose elements have the ids [ids]. *)
Definition page_holds (res : response) (ids : list value) : Prop :=
  res_ok res = true
  /\ exists body customers elements,
       res_json res = Ok body
       /\ get_prop body "customers" = Ok customers
       /\ iterate (or_else customers (VArr [])) = Ok elements
       /\ Forall2 (fun c id => get_prop c "id" = Ok id) elements ids.

(** The remote side serves the pages [pages], the first one at the cursor
    [page_info]: each page but the last carries a [rel="next"] link whose
    cursor leads to the following page, and the last one carries none. *)
Fixpoint serves (page_info : option string) (pages : list (response * list value)) : Prop :=
  match pages with
  | [] => False
  | (res, ids) :: rest =>
      (forall h, world h (page_request page_info) = Responded res)
      /\ page_holds res ids
      /\ match rest with
         | [] => match_next_link (link_of res) = None
         | _ :: _ =>
             exists tok, match_next_link (link_of res) = Some tok /\ serves (Some tok) rest
         end
  end.

(** The events of a full traversal: for each page its call, then its ids. *)
Fixpoint expected_events (page_info : option string) (pages : list (response * list value))
  : history :=
  match pages with
  | [] => []
  | (res, ids) :: rest =>
      Fetched (page_request page_info) :: map Yielded ids
        ++ expected_events (match_next_link (link_of res)) rest
  end.

Definition all_ids (pages : list (response * list value)) : list value :=
  concat (map snd pages).

(** [m => m.namespace === "standing" && m.key === "weekly"] *)
Definition is_standing_weekly (m : value) : outcome bool :=
  let? ns := get_prop m "namespace" in
  if is_string ns "standing" then
    let? k := get_prop m "key" in Ok (is_string k "weekly")
  else Ok false.

(** An identifier read in a function body: the bindings in scope there, or a
    [ReferenceError]. *)
Definition lookup_identifier (scope : list (string * value)) (x : string) : outcome value :=
  match assoc x scope with
  | Some v => Ok v
  | None => Throw (ReferenceError (x +++ " is not defined"))
  end.

(** [mf ? JSON.parse(m.value) : null] (lines 124 and 197), evaluated with the
    local bindings [scope] of the enclosing function.  The expression reads
    the identifier [m]; [m] is the parameter of the arrow function passed to
    [find] on the line before and is bound nowhere else in the module. *)
Definition stored_document (scope : list (string * value)) (mf : value) : outcome value :=
  if truthy mf then
    let? m := lookup_identifier scope "m" in
    let? text := get_prop m "value" in
    JSON_parse_value text
  else Ok VNull.

(** [(json.metafields || []).find(...)], for the variable named [name] in
    the source ([json] on lines 123 and 196, [existing] on line 140). *)
Definition find_standing_of (name : string) (json : value) : outcome value :=
  let? metafields := get_prop json "metafields" in
  find_in ("(" +++ name +++ ".metafields || []).find")
    (or_else metafields (VArr [])) is_standing_weekly.

Definition find_standing (json : value) : outcome value := find_standing_of "json" json.

Definition metafields_path (customerId : value) : string :=
  "/customers/" +++ ToString customerId +++ "/metafields.json".

(** [getStanding(customerId)] (lines 194-198) *)
Definition getStanding (customerId : value) : M value :=
  json <- shopify world cfg (metafields_path customerId) no_init ;;
  lift (let? mf := find_standing json in
        stored_document [("customerId", customerId); ("json", json); ("mf", mf)] mf).

Definition line_item (i : item) : value :=
  VObj [("variant_id", VNum (ToNumber (variantId i))); ("quantity", VNum (quantity i))].

Definition draft_order_payload (customerId : value) (items : list item) (note : string) : value :=
  VObj [("draft_order",
         VObj [("customer", VObj [("id", VNum (ToNumber customerId))]);
               ("line_items", VArr (map line_item items));
               ("note", VStr note);
               ("use_customer_default_address", VBool true)])].

Definition post (body : value) : fetch_init :=
  {| init_method := Some "POST"; init_headers := []; init_body := Some (JSON_stringify body) |}.

(** [createDraftOrder(customerId, items, note)] (lines 200-211) *)
Definition createDraftOrder (customerId : value) (items : list item) (note : string) : M value :=
  res <- shopify world cfg "/draft_orders.json" (post (draft_order_payload customerId items note)) ;;
  lift (get_prop res "draft_order").

(** [.map(p => ({ variantId: p.variantId, quantity: Number(p[dayKey] || 0) }))] *)
Fixpoint map_items (dayKey : string) (products : list value) : outcome (list item) :=
  match products with
  | [] => Ok []
  | p :: rest =>
      let? vid := get_prop p "variantId" in
      let? q := get_prop p dayKey in
      let? others := map_items dayKey rest in
      Ok ({| variantId := vid; quantity := ToNumber (or_else q (VNum 0%float)) |} :: others)
  end.

(** [.filter(i => i.quantity > 0)] *)
Definition keep_ordered (items : list item) : list item :=
  filter (fun i => PrimFloat.ltb 0%float (quantity i)) items.

Definition send_invoice_path (draft_id : value) : string :=
  "/draft_orders/" +++ ToString draft_id +++ "/send_invoice.json".

(** [{ method: "POST", body: JSON.stringify({ draft_order_invoice: {} }) }] *)
Definition invoice_init : fetch_init :=
  post (VObj [("draft_order_invoice", VObj [])]).

(** [`Standing order for ${dayKey.toUpperCase()}`] *)
Definition note_for (dayKey : string) : string :=
  "Standing order for " +++ toUpperCase dayKey.

(** Lines 219-230: the loop body after [getStanding] has answered [data];
    the result is the [created] array after the turn. *)
Definition place_order (dayKey : string) (customer : value) (data : value)
    (created : list job_record) : M (list job_record) :=
  if negb (truthy data) then ret created
  else
    products <- lift (get_prop data "products") ;;
    match or_else products (VArr []) with
    | VArr ps =>
        mapped <- lift (map_items dayKey ps) ;;
        let items := keep_ordered mapped in
        if Nat.eqb (length items) 0 then ret created
        else
          draft <- createDraftOrder customer items (note_for dayKey) ;;
          draft_id <- lift (get_prop draft "id") ;;
          _ <- shopify world cfg (send_invoice_path draft_id) invoice_init ;;
          ret (created ++ [{| customerId := customer; draftId := draft_id |}])
    | _ => throw (TypeError "(data.products || []).map is not a function")
    end.

(** The two calls of the step: the creation of the draft order, and the
    invoice for the draft [draft_id]. *)
Definition create_request (customer : value) (items : list item) (dayKey : string) : request :=
  admin_request cfg "/draft_orders.json"
    (post (draft_order_payload customer items (note_for dayKey))).

Definition invoice_request (draft_id : value) : request :=
  admin_request cfg (send_invoice_path draft_id) invoice_init.

(** One turn of [for await (const customerId of iterateCustomers())]. *)
Definition loop_body (dayKey : string) (customer : value) (created : list job_record)
  : M (list job_record) :=
  data <- getStanding customer ;;
  place_order dayKey customer data created.

(** The [for await] loop (lines 217-231); [fuel] bounds the number of turns. *)
Fixpoint run_loop (dayKey : string) (fuel : nat) (g : gen_state) (created : list job_record)
  : M (list job_record) :=
  match fuel with
  | O => diverge
  | S fuel' =>
      r <- gen_next fuel g ;;
      match fst r with
      | None => ret created
      | Some customer =>
          created' <- loop_body dayKey customer created ;;
          run_loop dayKey fuel' (snd r) created'
      end
  end.

(** The states the [for await] loop goes through when it starts with the
    budget [fuel0] and the history [h0]: each turn takes a customer from the
    generator and completes its body. *)
Inductive run_reaches (dayKey : string) (fuel0 : nat) (h0 : history)
  : nat -> gen_state -> list job_record -> history -> Prop :=
| reach_start : run_reaches dayKey fuel0 h0 fuel0 GenStart [] h0
| reach_turn (fuel : nat) (g : gen_state) (created : list job_record) (h : history)
    (customer : value) (g' : gen_state) (h1 : history)
    (created' : list job_record) (h2 : history) :
    run_reaches dayKey fuel0 h0 (S fuel) g created h ->
    gen_next (S fuel) g h = (Ok (Some customer, g'), h1) ->
    loop_body dayKey customer created h1 = (Ok created', h2) ->
    run_reaches dayKey fuel0 h0 fuel g' created' h2.

(** The next turn fails with [e], leaving the history [h_fail]: either the
    generator throws (a page cannot be listed), or the body of the turn
    throws. *)
Definition turn_fails (dayKey : string) (fuel : nat) (g : gen_state)
    (created : list job_record) (h : history) (e : error) (h_fail : history) : Prop :=
  gen_next fuel g h = (Throw e, h_fail)
  \/ exists customer g' h1,
       gen_next fuel g h = (Ok (Some customer, g'), h1)
       /\ loop_body dayKey customer created h1 = (Throw e, h_fail).

Definition record_value (r : job_record) : value :=
  VObj [("customerId", customerId r); ("draftId", draftId r)].

Definition ok_reply (created : list job_record) : reply :=
  {| code := 200;
     payload := VObj [("ok", VBool true); ("created", VArr (map record_value created))] |}.

(** [res.status(c).json({ error: msg })] *)
Definition error_reply (c : Z) (msg : string) : reply :=
  {| code := c; payload := VObj [("error", VStr msg)] |}.

(** [POST /jobs/standing-orders/run] (lines 213-236); [None] when the model's
    budget [fuel] ran out before the handler answered. *)
Definition run_standing_orders (today : weekday) (fuel : nat) (h : history)
  : option reply * history :=
  match run_loop (dayKey_of today) fuel GenStart [] h with
  | (Ok created, h') => (Some (ok_reply created), h')
  | (Throw e, h') => (Some (error_reply 500 (err_message e)), h')
  | (Diverge, h') => (None, h')
  end.

(** [GET /proxy/standing-orders] (lines 116-128) *)
Definition proxy_get (q : query) (h : history) : option reply * history :=
  match verifyProxy cfg q with
  | Ok false => (Some (error_reply 401 "invalid signature"), h)
  | Throw e => (Some (error_reply 500 (err_message e)), h)
  | Diverge => (None, h)
  | Ok true =>
      match assoc "customer_id" q with
      | None => (Some (error_reply 400 "missing customer_id"), h)
      | Some customer =>
          if String.eqb customer "" then (Some (error_reply 400 "missing customer_id"), h)
          else
            match shopify world cfg (metafields_path (VStr customer)) no_init h with
            | (Ok json, h') =>
                match (let? mf := find_standing json in
                       stored_document [("customerId", VStr customer); ("json", json); ("mf", mf)] mf)
                with
                | Ok data => (Some {| code := 200; payload := VObj [("data", data)] |}, h')
                | Throw e => (Some (error_reply 500 (err_message e)), h')
                | Diverge => (None, h')
                end
            | (Throw e, h') => (Some (error_reply 500 (err_message e)), h')
            | (Diverge, h') => (None, h')
            end
      end
  end.

End Job.

(* ================================================================== *)
(** * The other routes: health check and save (lines 20-22, 133-166)   *)
(* ================================================================== *)

(** [GET /health]:
    [res.json({ ok: true, shop: process.env.SHOP || "(missing SHOP env var)" })] *)
Definition health (cfg : config) : reply :=
  {| code := 200;
     payload :=
       VObj [("ok", VBool true);
             ("shop",
              VStr (match SHOP cfg with
                    | Some s => if String.eqb s "" then "(missing SHOP env var)" else s
                    | None => "(missing SHOP env var)"
                    end))] |}.

Section Save.
Context {rt : Runtime}.
Variable world : remote.
Variable cfg : config.

(** [JSON.stringify(v)] as a value: it is [undefined] for [undefined], a
    string for the values a JSON body can hold. *)
Definition stringify_value (v : value) : value :=
  match v with
  | VUndefined => VUndefined
  | _ => VStr (JSON_stringify v)
  end.

(** [{ method: "PUT", body: JSON.stringify(body) }] *)
Definition put (body : value) : fetch_init :=
  {| init_method := Some "PUT"; init_headers := []; init_body := Some (JSON_stringify body) |}.

(** [{ metafield: { id: mf.id, type: "json", value: JSON.stringify(data) } }] *)
Definition update_payload (mf_id data : value) : value :=
  VObj [("metafield",
         VObj [("id", mf_id); ("type", VStr "json"); ("value", stringify_value data)])].

(** The body of the creation call (lines 150-159). *)
Definition create_payload (customer_id data : value) : value :=
  VObj [("metafield",
         VObj [("namespace", VStr "standing");
               ("key", VStr "weekly");
               ("owner_resource", VStr "customer");
               ("owner_id", VNum (ToNumber customer_id));
               ("type", VStr "json");
               ("value", stringify_value data)])].

(** [`/metafields/${mf.id}.json`] *)
Definition metafield_path (mf_id : value) : string :=
  "/metafields/" +++ ToString mf_id +++ ".json".

(** Lines 139-161: the lookup, then the update of the entry found or the
    creation of a new one. *)
Definition save_standing (customer_id data : value) : M value :=
  existing <- shopify world cfg (metafields_path customer_id) no_init ;;
  mf <- lift (find_standing_of "existing" existing) ;;
  if truthy mf then
    mf_id <- lift (get_prop mf "id") ;;
    shopify world cfg (metafield_path mf_id) (put (update_payload mf_id data))
  else
    shopify world cfg "/metafields.json" (post (create_payload customer_id data)).

(** [const { customer_id, data } = req.body || {}] *)
Definition body_customer_id (body : value) : value :=
  prop_of (or_else body (VObj [])) "customer_id".

Definition body_data (body : value) : value :=
  prop_of (or_else body (VObj [])) "data".

(** The three calls the handler can make: the lookup, the update of the
    entry [mf_id], the creation. *)
Definition lookup_request (customer_id : value) : request :=
  admin_request cfg (metafields_path customer_id) no_init.

Definition update_request (mf_id data : value) : request :=
  admin_request cfg (metafield_path mf_id) (put (update_payload mf_id data)).

Definition creation_request (customer_id data : value) : request :=
  admin_request cfg "/metafields.json" (post (create_payload customer_id data)).

(** [POST /proxy/standing-orders] (lines 133-166), for the query [q] and the
    parsed JSON body [body] ([req.body]). *)
Definition proxy_post (q : query) (body : value) (h : history) : option reply * history :=
  match verifyProxy cfg q with
  | Ok false => (Some (error_reply 401 "invalid signature"), h)
  | Throw e => (Some (error_reply 500 (err_message e)), h)
  | Diverge => (None, h)
  | Ok true =>
      let customer_id := body_customer_id body in
      let data := body_data body in
      if negb (truthy customer_id) then (Some (error_reply 400 "missing customer_id"), h)
      else
        match save_standing customer_id data h with
        | (Ok _, h') => (Some {| code := 200; payload := VObj [("ok", VBool true)] |}, h')
        | (Throw e, h') => (Some (error_reply 500 (err_message e)), h')
        | (Diverge, h') => (None, h')
        end
  end.

End Save.

(* ================================================================== *)
(** * Kinds of failed attempts                                         *)
(* ================================================================== *)

(** An attempt that fails and calls for the exponential delay: [fetch]
    throws, or the response is retryable and has no [retry-after] header. *)
Definition plain_failure (r : fetch_result) : Prop :=
  (exists e, r = Failed e)
  \/ (exists res, r = Responded res /\ res_ok res = false /\ retryable res = true
                  /\ assoc "retry-after" (res_headers res) = None).

(** An attempt that fails and may be retried. *)
Definition transient (r : fetch_result) : Prop :=
  (exists e, r = Failed e)
  \/ (exists res, r = Responded res /\ res_ok res = false /\ retryable res = true).

(** The events of a call of [fetchWithRetry] that ends by a response or by
    an error: its attempts in order, each but the last followed by the delay
    waited before the next. *)
Fixpoint attempts (rq : request) (delays : list float) : history :=
  match delays with
  | [] => [Fetched rq]
  | w :: rest => Fetched rq :: Slept w :: attempts rq rest
  end.

(** The exponential delays [backoffMs * 2 ** k] of the attempts [attempt],
    [attempt + 1], ... (line 66 when there is no [retry-after], line 58). *)
Definition exponential_delays (opts : retry_options) (attempt : Z) (count : nat) : list float :=
  map (fun k => PrimFloat.mul (backoffMs opts) (pow2 (attempt + Z.of_nat k))) (seq 0 count).

(* ================================================================== *)
(** * Runs of the daily job, link headers                              *)
(* ================================================================== *)

(** A call of [fetch] without a [method] is a GET. *)
Definition is_get (rq : request) : Prop := init_method (rq_init rq) = None.

(** The character [c] does not occur in [s]. *)
Fixpoint lacks (c : ascii) (s : string) : bool :=
  match s with
  | EmptyString => true
  | String a rest => negb (Ascii.eqb a c) && lacks c rest
  end.

(** One entry of a [link] header: [<url>; rel="rel"]. *)
Definition link_entry (url rel : string) : string :=
  "<" +++ url +++ ">; rel=" +++ String dquote (rel +++ String dquote "").

Section JobRuns.
Context {rt : Runtime}.
Variable world : remote.
Variable cfg : config.

(** One [next()] of the generator with the budget [n], the turn for the
    customer it hands out, then the loop with the budget [m]: what
    [run_loop (S m)] unfolds to when [n = S m]. *)
Definition run_from (dayKey : string) (n m : nat) (g : gen_state) (created : list job_record)
  : M (list job_record) :=
  r <- gen_next world cfg n g ;;
  match fst r with
  | None => ret created
  | Some customer =>
      created' <- loop_body world cfg dayKey customer created ;;
      run_loop world cfg dayKey m (snd r) created'
  end.

(** The remote side answers the lookup of the customer's metadata entries
    with an OK list that holds no entry under [standing]/[weekly]. *)
Definition without_entry (customer : value) : Prop :=
  exists res json mf,
    (forall h, world h (lookup_request cfg customer) = Responded res)
    /\ res_ok res = true
    /\ res_json res = Ok json
    /\ find_standing json = Ok mf
    /\ truthy mf = false.

(** The events of the turns for the customers [ids]: each id is handed out,
    then its metadata entries are looked up. *)
Definition visits (ids : list value) : history :=
  flat_map (fun id => [Yielded id; Fetched (lookup_request cfg id)]) ids.

(** The events of a whole run over [pages] when no customer has an entry. *)
Fixpoint job_events (page_info : option string) (pages : list (response * list value))
  : history :=
  match pages with
  | [] => []
  | (res, ids) :: rest =>
      Fetched (page_request cfg page_info) :: visits ids
        ++ job_events (match_next_link (link_of res)) rest
  end.

End JobRuns.

(* ================================================================== *)
(** * A reference runtime, for running the model on concrete inputs     *)
(* ================================================================== *)

Module Reference.

(** [String(n)]: exact on the integers of magnitude below 2^53 (and on [NaN]
    and the infinities), which are the numbers of the examples below; a
    number with a fractional part is not handled. *)
Definition number_text (f : float) : string :=
  match Prim2SF f with
  | S754_zero _ => "0"
  | S754_nan => "NaN"
  | S754_infinity s => if s then "-Infinity" else "Infinity"
  | S754_finite s m e =>
      let sign := if s then "-" else "" in
      if 0 <=? e then sign +++ decimal (Zpos m * 2 ^ e)
      else if (Zpos m) mod 2 ^ (- e) =? 0 then sign +++ decimal (Zpos m / 2 ^ (- e))
      else "NaN"
  end.

Definition is_digit (c : ascii) : bool :=
  let n := N_of_ascii c in (N.leb 48 n && N.leb n 57)%bool.

Fixpoint digits_value (acc : Z) (s : string) : option Z :=
  match s with
  | EmptyString => Some acc
  | String c rest =>
      if is_digit c then digits_value (10 * acc + (Z.of_N (N_of_ascii c) - 48)) rest
      else None
  end.

Definition float_of_Z (z : Z) : float :=
  if z <? 0 then PrimFloat.opp (PrimFloat.of_uint63 (Uint63.of_Z (- z)))
  else PrimFloat.of_uint63 (Uint63.of_Z z).

(** [Number(s)]: exact on the empty text and on decimal integers of
    magnitude below 2^53 with an optional [-]; any text with another
    character is answered [NaN], as JavaScript does for a text that is not a
    numeric literal. *)
Definition text_number (s : string) : float :=
  match s with
  | EmptyString => 0%float
  | String "-" (String c rest) =>
      match digits_value 0 (String c rest) with
      | Some n => float_of_Z (- n)
      | None => PrimFloat.nan
      end
  | _ =>
      match digits_value 0 s with
      | Some n => float_of_Z n
      | None => PrimFloat.nan
      end
  end.

Definition backslash : ascii := "092"%char.

Fixpoint escape (s : string) : string :=
  match s with
  | EmptyString => EmptyString
  | String c rest =>
      if (Ascii.eqb c dquote || Ascii.eqb c backslash)%bool
      then String backslash (String c (escape rest))
      else String c (escape rest)
  end.

Definition quoted (s : string) : string := String dquote (escape s +++ String dquote "").

(** [JSON.stringify(v)] on values whose strings need no escape other than
    for the quote and the backslash. *)
Fixpoint json_text (v : value) : string :=
  match v with
  | VUndefined | VNull => "null"
  | VBool b => if b then "true" else "false"
  | VNum n => if PrimFloat.is_finite n then number_text n else "null"
  | VStr s => quoted s
  | VArr items => "[" +++ String.concat "," (map json_text items) +++ "]"
  | VObj fields =>
      "{" +++ String.concat ","
                (flat_map (fun kv =>
                             match kv with
                             | (_, VUndefined) => []
                             | (k, x) => [quoted k +++ ":" +++ json_text x]
                             end) fields) +++ "}"
  end.

Definition is_space (c : ascii) : bool :=
  let n := N_of_ascii c in (N.eqb n 32 || N.eqb n 9 || N.eqb n 10 || N.eqb n 13)%bool.

Fixpoint skip_space (s : string) : string :=
  match s with
  | String c rest => if is_space c then skip_space rest else s
  | EmptyString => s
  end.

(** The text of a string literal after its opening quote, and what follows
    the closing quote. *)
Fixpoint read_string (s : string) : option (string * string) :=
  match s with
  | EmptyString => None
  | String c rest =>
      if Ascii.eqb c dquote then Some (EmptyString, rest)
      else if Ascii.eqb c backslash then
        match rest with
        | String e rest' =>
            if (Ascii.eqb e dquote || Ascii.eqb e backslash)%bool then
              match read_string rest' with
              | Some (t, after) => Some (String e t, after)
              | None => None
              end
            else None
        | EmptyString => None
        end
      else
        match read_string rest with
        | Some (t, after) => Some (String c t, after)
        | None => None
        end
  end.

Fixpoint read_digits (s : string) : string * string :=
  match s with
  | String c rest =>
      if is_digit c then let (d, after) := read_digits rest in (String c d, after)
      else (EmptyString, s)
  | EmptyString => (EmptyString, s)
  end.

Definition read_number (s : string) : option (value * string) :=
  let (d, after) := read_digits s in
  match d, digits_value 0 d with
  | String _ _, Some n => Some (VNum (float_of_Z n), after)
  | _, _ => None
  end.

Definition read_literal (s : string) : option (value * string) :=
  match strip_prefix "true" s, strip_prefix "false" s, strip_prefix "null" s with
  | Some after, _, _ => Some (VBool true, after)
  | _, Some after, _ => Some (VBool false, after)
  | _, _, Some after => Some (VNull, after)
  | _, _, _ => None
  end.

(** A recursive-descent reader for JSON texts made of objects, arrays,
    strings (escapes: quote and backslash), non-negative integers, [true],
    [false] and [null]. *)
Fixpoint read_value (fuel : nat) (s : string) : option (value * string) :=
  match fuel with
  | O => None
  | S k =>
      match skip_space s with
      | EmptyString => None
      | String c rest =>
          if Ascii.eqb c "{" then
            match skip_space rest with
            | String c' rest' =>
                if Ascii.eqb c' "}" then Some (VObj [], rest')
                else
                  match read_members k rest with
                  | Some (fields, after) => Some (VObj fields, after)
                  | None => None
                  end
            | EmptyString => None
            end
          else if Ascii.eqb c "[" then
            match skip_space rest with
            | String c' rest' =>
                if Ascii.eqb c' "]" then Some (VArr [], rest')
                else
                  match read_elements k rest with
                  | Some (items, after) => Some (VArr items, after)
                  | None => None
                  end
            | EmptyString => None
            end
          else if Ascii.eqb c dquote then
            match read_string rest with
            | Some (t, after) => Some (VStr t, after)
            | None => None
            end
          else if is_digit c then read_number (String c rest)
          else read_literal (String c rest)
      end
  end
with read_members (fuel : nat) (s : string) : option (list (string * value) * string) :=
  match fuel with
  | O => None
  | S k =>
      match skip_space s with
      | String c rest =>
          if Ascii.eqb c dquote then
            match read_string rest with
            | Some (key, after_key) =>
                match skip_space after_key with
                | String colon after_colon =>
                    if Ascii.eqb colon ":" then
                      match read_value k after_colon with
                      | Some (v, after_value) =>
                          match skip_space after_value with
                          | String sep after_sep =>
                              if Ascii.eqb sep "," then
                                match read_members k after_sep with
                                | Some (fields, after) => Some ((key, v) :: fields, after)
                                | None => None
                                end
                              else if Ascii.eqb sep "}" then Some ([(key, v)], after_sep)
                              else None
                          | EmptyString => None
                          end
                      | None => None
                      end
                    else None
                | EmptyString => None
                end
            | None => None
            end
          else None
      | EmptyString => None
      end
  end
with read_elements (fuel : nat) (s : string) : option (list value * string) :=
  match fuel with
  | O => None
  | S k =>
      match read_value k s with
      | Some (v, after_value) =>
          match skip_space after_value with
          | String sep after_sep =>
              if Ascii.eqb sep "," then
                match read_elements k after_sep with
                | Some (items, after) => Some (v :: items, after)
                | None => None
                end
              else if Ascii.eqb sep "]" then Some ([v], after_sep)
              else None
          | EmptyString => None
          end
      | None => None
      end
  end.

Definition parse_text (s : string) : value + string :=
  match read_value (S (String.length s)) s with
  | Some (v, after) =>
      match skip_space after with
      | EmptyString => inl v
      | _ => inr "Unexpected non-whitespace character after JSON"
      end
  | None => inr "Unexpected token in JSON"
  end.

#[export] Instance runtime : Runtime := {|
  JSON_parse := parse_text;
  JSON_stringify := json_text;
  StringToNumber := text_number;
  NumberToString := number_text
|}.

End Reference.

(* ================================================================== *)
(** * Concrete remote sides and inputs                                 *)
(* ================================================================== *)

Module Examples.
Import Reference.

Definition cfg : config :=
  {| SHOP := Some "shop.example";
     ADMIN_ACCESS_TOKEN := Some "token";
     APP_PROXY_SHARED_SECRET := Some "hush" |}.

Definition cfg_without_secret : config :=
  {| SHOP := Some "shop.example";
     ADMIN_ACCESS_TOKEN := Some "token";
     APP_PROXY_SHARED_SECRET := None |}.

Definition answer (code : Z) (headers : list (string * string)) (body : value) : fetch_result :=
  Responded {| status := code; res_headers := headers; res_body := json_text body |}.

Definition refusal (code : Z) (headers : list (string * string)) (text : string) : fetch_result :=
  Responded {| status := code; res_headers := headers; res_body := text |}.

(** A remote side that answers every call the same way. *)
Definition always (r : fetch_result) : remote := fun _ _ => r.

Definition unavailable : fetch_result := refusal 503 [] "Service Unavailable".

Definition rate_limited (retry_after : string) : fetch_result :=
  refusal 429 [("retry-after", retry_after)] "Too Many Requests".

Definition some_url : string := "https://shop.example/admin/api/2024-10/shop.json".

(** The metadata entry under namespace [standing] and key [weekly], with the
    stored text [text]. *)
Definition standing_entry (text : string) : value :=
  VObj [("id", VNum 1%float); ("namespace", VStr "standing"); ("key", VStr "weekly");
        ("value", VStr text)].

Definition invoice_sent : fetch_result :=
  answer 200 [] (VObj [("draft_order_invoice", VObj [])]).

(** A shop with one customer, 7, whose metadata entries are [entries]; a
    draft order gets the id 9001, and its invoice call is answered by
    [invoice]. *)
Definition shop (entries : list value) (invoice : fetch_result) : remote :=
  fun _ rq =>
    let url := rq_url rq in
    if String.eqb url (customers_url cfg None) then
      answer 200 [] (VObj [("customers", VArr [VObj [("id", VNum 7%float)]])])
    else if String.eqb url (admin_url cfg "/customers/7/metafields.json") then
      answer 200 [] (VObj [("metafields", VArr entries)])
    else if String.eqb url (admin_url cfg "/draft_orders.json") then
      answer 201 [] (VObj [("draft_order", VObj [("id", VNum 9001%float)])])
    else if String.eqb url (admin_url cfg "/draft_orders/9001/send_invoice.json") then
      invoice
    else refusal 404 [] "Not Found".

(** A shop with the customers 7 and 8: 7 has no metadata entry, and the
    entries of 8 cannot be listed. *)
Definition two_customers : remote :=
  fun _ rq =>
    let url := rq_url rq in
    if String.eqb url (customers_url cfg None) then
      answer 200 []
        (VObj [("customers", VArr [VObj [("id", VNum 7%float)]; VObj [("id", VNum 8%float)]])])
    else if String.eqb url (admin_url cfg "/customers/7/metafields.json") then
      answer 200 [] (VObj [("metafields", VArr [])])
    else refusal 404 [] "Not Found".

(** Three pages of customers; the [link] header of each gives the cursor of
    its neighbours. *)
Definition link_to (cursor rel : string) : string :=
  "<https://shop.example/admin/api/2024-10/customers.json?limit=250&page_info=" +++ cursor
    +++ ">; rel=" +++ String dquote (rel +++ String dquote "").

Definition customers_page (link : string) (ids : list float) : response :=
  {| status := 200;
     res_headers := [("link", link)];
     res_body :=
       json_text (VObj [("customers", VArr (map (fun n => VObj [("id", VNum n)]) ids))]) |}.

Definition page_1 : response := customers_page (link_to "p2" "next") [1; 2]%float.
Definition page_2 : response :=
  customers_page (link_to "p1" "previous" +++ ", " +++ link_to "p3" "next") [3]%float.
Definition page_3 : response := customers_page (link_to "p2" "previous") [4; 5]%float.

Definition three_pages : remote :=
  fun _ rq =>
    let url := rq_url rq in
    if String.eqb url (customers_url cfg None) then Responded page_1
    else if String.eqb url (customers_url cfg (Some "p2")) then Responded page_2
    else if String.eqb url (customers_url cfg (Some "p3")) then Responded page_3
    else refusal 404 [] "Not Found".

(** The text [s] with its first character replaced by U+0131 (LATIN SMALL
    LETTER DOTLESS I), whose UTF-8 encoding is the two bytes C4 B1. *)
Definition with_dotless_i (s : string) : string :=
  match s with
  | EmptyString => EmptyString
  | String _ rest => String "196" (String "177" rest)
  end.

(** A signed query of the storefront proxy. *)
Definition proxy_params : query := [("shop", "shop.example"); ("customer_id", "7")].

Definition signed (signature : string) : query := ("signature", signature) :: proxy_params.

End Examples.

Module Scenarios.
Import Reference Examples.

(** A remote side that rejects every call ([fetch] throws). *)
Definition unreachable : remote :=
  always (Failed (Error_ "FetchError" "connect ECONNREFUSED")).

(** A remote side that answers 503 to the first [k] calls of a run and 200
    afterwards. *)
Definition flaky (k : nat) : remote :=
  fun h _ =>
    if Nat.ltb (length (fetches h)) k then unavailable
    else answer 200 [] (VObj [("ok", VBool true)]).

(** A shop that keeps metadata entries: the entries of customer 7 are
    [entries]; the entry 1 can be updated, and a new entry can be created. *)
Definition metafield_store (entries : list value) : remote :=
  fun _ rq =>
    let url := rq_url rq in
    if String.eqb url (admin_url cfg "/customers/7/metafields.json") then
      answer 200 [] (VObj [("metafields", VArr entries)])
    else if String.eqb url (admin_url cfg "/metafields/1.json") then
      answer 200 [] (VObj [("metafield", VObj [("id", VNum 1%float)])])
    else if String.eqb url (admin_url cfg "/metafields.json") then
      answer 201 [] (VObj [("metafield", VObj [("id", VNum 2%float)])])
    else refusal 404 [] "Not Found".

(** The three pages of customers of [three_pages]; no customer has a
    metadata entry. *)
Definition three_pages_no_entries : remote :=
  fun _ rq =>
    let url := rq_url rq in
    if String.eqb url (customers_url cfg None) then Responded page_1
    else if String.eqb url (customers_url cfg (Some "p2")) then Responded page_2
    else if String.eqb url (customers_url cfg (Some "p3")) then Responded page_3
    else answer 200 [] (VObj [("metafields", VArr [])]).

(** A request of the save route: the signed query and the body. *)
Definition save_query : query := signed (sign "hush" proxy_params).

Definition save_body : value := VObj [("customer_id", VStr "7"); ("data", flat_document)].

Definition customers_base : string :=
  "https://shop.example/admin/api/2024-10/customers.json?limit=250&".

End Scenarios.

(* ================================================================== *)
(** * SHA-256 and HMAC: test vectors                                   *)
(* ================================================================== *)

(** Test vectors: FIPS 180-4 ("abc", the empty message, a message of two
    blocks) and RFC 4231, test case 2. *)
Example sha256_abc :
  Crypto.hex_encode (Crypto.sha256 (list_byte_of_string "abc"))
  = "ba7816bf8f01cfea414140de5dae2223b00361a396177a9cb410ff61f20015ad".
Proof. vm_compute. reflexivity. Qed.

Example sha256_empty :
  Crypto.hex_encode (Crypto.sha256 [])
  = "e3b0c44298fc1c149afbf4c8996fb92427ae41e4649b934ca495991b7852b855".
Proof. vm_compute. reflexivity. Qed.

Example sha256_two_blocks :
  Crypto.hex_encode
    (Crypto.sha256
       (list_byte_of_string "abcdbcdecdefdefgefghfghighijhijkijkljklmklmnlmnomnopnopq"))
  = "248d6a61d20638b8e5c026930c3e6039a33ce45964ff2167f6ecedd419db06c1".
Proof. vm_compute. reflexivity. Qed.

Example hmac_sha256_rfc4231_case2 :
  Crypto.hex_encode
    (Crypto.hmac_sha256 (list_byte_of_string "Jefe")
       (list_byte_of_string "what do ya want for nothing?"))
  = "5bdcc146bf60754e6a042426089575c75a003f089d2739839dec58b964ec3843".
Proof. vm_compute. reflexivity. Qed.

(* ================================================================== *)
(** * fetchWithRetry: the attempt loop                                 *)
(* ================================================================== *)

Section RetryLoop.
Context {rt : Runtime}.
Variable world : remote.
Variables (url : string) (init : fetch_init) (opts : retry_options).

Local Abbreviation rq := (request_of url init opts).

Lemma fetches_app (h1 h2 : history) : fetches (h1 ++ h2) = fetches h1 ++ fetches h2.
Proof. unfold fetches. apply flat_map_app. Qed.

Lemma sleeps_app (h1 h2 : history) : sleeps (h1 ++ h2) = sleeps h1 ++ sleeps h2.
Proof. unfold sleeps. apply flat_map_app. Qed.

(** A turn asks for another one only while [attempt < retries]. *)
Lemma continue_only_below_retries (attempt : Z) (h h' : history) :
  attempt_once world url init opts attempt h = (IterContinue, h') ->
  attempt < retries opts.
Proof.
  unfold attempt_once.
  destruct (world h (request_of url init opts)) as [res | err].
  - destruct (negb (res_ok res) && retryable res) eqn:E1; simpl.
    + destruct (attempt <? retries opts) eqn:E2; [ | discriminate ].
      intros _. now apply Z.ltb_lt.
    + discriminate.
  - destruct (attempt >=? retries opts) eqn:E; [ discriminate | ].
    intros _. rewrite Z.geb_leb in E. apply Z.leb_gt in E. exact E.
Qed.

(** With as many turns left as there are values of [attempt] up to
    [retries], the loop never reaches its end. *)
Lemma retry_loop_never_falls_through (turns : nat) :
  forall (attempt : Z) (h : history),
    attempt + Z.of_nat turns = retries opts + 1 ->
    (0 < turns)%nat ->
    fst (retry_loop world url init opts turns attempt h) <> LoopFellThrough.
Proof.
  induction turns as [ | turns IH ]; intros attempt h Hsum Hpos.
  - lia.
  - simpl.
    destruct (attempt_once world url init opts attempt h) as [[res | err | ] h'] eqn:E;
      simpl; try discriminate.
    apply continue_only_below_retries in E.
    apply IH; lia.
Qed.

(** What the loop throws is what [fetch] threw. *)
Lemma retry_loop_throws_fetch_error (turns : nat) :
  forall (attempt : Z) (h h' : history) (e : error),
    retry_loop world url init opts turns attempt h = (LoopThrow e, h') ->
    exists h0, world h0 rq = Failed e.
Proof.
  induction turns as [ | turns IH ]; intros attempt h h' e; simpl.
  - discriminate.
  - destruct (attempt_once world url init opts attempt h) as [[res | err | ] h1] eqn:E.
    + discriminate.
    + intros H. inversion H; subst. clear H.
      unfold attempt_once in E.
      destruct (world h rq) as [res | err'] eqn:W.
      * destruct (negb (res_ok res) && retryable res && (attempt <? retries opts)); discriminate.
      * destruct (attempt >=? retries opts); [ | discriminate ].
        inversion E; subst. now exists h.
    + apply IH.
Qed.

(** When the remote side answers 503 every time, the loop makes one call per
    turn, sleeps between two calls, and returns the last response. *)
Lemma retry_loop_always_503 (turns : nat) :
  (forall h0, exists res, world h0 rq = Responded res /\ status res = 503) ->
  forall (attempt : Z) (h : history),
    attempt + Z.of_nat (S turns) = retries opts + 1 ->
    exists res h_last,
      retry_loop world url init opts (S turns) attempt h = (LoopReturn res, h_last ++ [Fetched rq])
      /\ world h_last rq = Responded res
      /\ status res = 503
      /\ fetches (h_last ++ [Fetched rq]) = fetches h ++ repeat rq (S turns)
      /\ length (sleeps (h_last ++ [Fetched rq])) = (length (sleeps h) + turns)%nat.
Proof.
  intros Hworld.
  induction turns as [ | turns IH ]; intros attempt h Hsum.
  - destruct (Hworld h) as [res [W St]].
    exists res, h.
    cbn [retry_loop]. unfold attempt_once. rewrite W.
    unfold res_ok, retryable. rewrite St.
    replace (attempt <? retries opts) with false by (symmetry; apply Z.ltb_ge; lia).
    cbn. repeat split; try assumption.
    + now rewrite fetches_app.
    + rewrite sleeps_app. cbn. rewrite length_app. reflexivity.
  - destruct (Hworld h) as [res [W St]].
    cbn [retry_loop]. unfold attempt_once at 1. rewrite W.
    unfold res_ok, retryable. rewrite St.
    replace (attempt <? retries opts) with true by (symmetry; apply Z.ltb_lt; lia).
    cbn [negb andb orb Z.leb Z.eqb Z.compare Pos.compare Pos.compare_cont Pos.eqb].
    set (h1 := (h ++ [Fetched rq]) ++ [Slept (retry_after_wait opts attempt res)]).
    destruct (IH (attempt + 1) h1 ltac:(lia)) as [res' [h_last [R [W' [St' [F S]]]]]].
    exists res', h_last. repeat split; try assumption.
    + rewrite F. unfold h1. rewrite !fetches_app. cbn. rewrite <- !app_assoc. reflexivity.
    + rewrite S. unfold h1. rewrite !sleeps_app. cbn. rewrite !length_app. cbn. lia.
Qed.

(** C5.  For a policy with [retries + 1 = N >= 1] attempts and a remote side
    that answers status 503 to every attempt, [fetchWithRetry] calls [fetch]
    exactly [N] times (with [N - 1] delays in between) and returns the
    response of the last attempt, whose status is 503: the last retryable
    result is handed back, not retried. *)
Theorem fetchWithRetry_always_503_exhausts (h : history) :
  0 <= retries opts ->
  (forall h0, exists res, world h0 rq = Responded res /\ status res = 503) ->
  exists res h_last,
    fetchWithRetry world url init opts h = (Ok res, h_last ++ [Fetched rq])
    /\ world h_last rq = Responded res
    /\ status res = 503
    /\ fetches (h_last ++ [Fetched rq]) = fetches h ++ repeat rq (Z.to_nat (retries opts + 1))
    /\ length (sleeps (h_last ++ [Fetched rq])) = (length (sleeps h) + Z.to_nat (retries opts))%nat.
Proof.
  intros Hretries Hworld.
  unfold fetchWithRetry.
  replace (Z.to_nat (retries opts + 1)) with (S (Z.to_nat (retries opts))) by lia.
  destruct (retry_loop_always_503 (Z.to_nat (retries opts)) Hworld 0 h ltac:(lia))
    as [res [h_last [R [W [St [F S]]]]]].
  exists res, h_last. rewrite R. repeat split; assumption.
Qed.

(** C9.  For [retries >= 0]: a turn of the loop asks for another turn only
    while [attempt < retries], so the turn with [attempt = retries] returns
    or throws; the loop therefore never ends by its condition, and anything
    [fetchWithRetry] throws was thrown by [fetch], never by line 73. *)
Theorem fetchWithRetry_trailing_throw_unreachable (h : history) :
  0 <= retries opts ->
  (forall attempt h0 h1,
      attempt_once world url init opts attempt h0 = (IterContinue, h1) ->
      attempt < retries opts)
  /\ (forall h0, fst (attempt_once world url init opts (retries opts) h0) <> IterContinue)
  /\ fst (retry_loop world url init opts (Z.to_nat (retries opts + 1)) 0 h) <> LoopFellThrough
  /\ (forall e h', fetchWithRetry world url init opts h = (Throw e, h') ->
        exists h0, world h0 rq = Failed e).
Proof.
  intros Hretries. repeat split.
  - intros attempt h0 h1. apply continue_only_below_retries.
  - intros h0 Hc.
    destruct (attempt_once world url init opts (retries opts) h0) as [r h1] eqn:E.
    simpl in Hc. subst r.
    apply continue_only_below_retries in E. lia.
  - apply retry_loop_never_falls_through; lia.
  - intros e h'. unfold fetchWithRetry.
    destruct (retry_loop world url init opts (Z.to_nat (retries opts + 1)) 0 h)
      as [[res | err | ] h1] eqn:E.
    + discriminate.
    + intros H. inversion H; subst.
      eapply retry_loop_throws_fetch_error. exact E.
    + exfalso.
      apply (retry_loop_never_falls_through (Z.to_nat (retries opts + 1)) 0 h); [ lia | lia | ].
      now rewrite E.
Qed.

(** Every delay of a run of the loop is the one its attempt calls for. *)
Lemma retry_loop_delays (turns : nat) :
  forall (attempt : Z) (h : history) (r : loop_exit) (h' : history),
    retry_loop world url init opts turns attempt h = (r, h') ->
    exists ws, sleeps h' = sleeps h ++ ws /\ delays_follow_policy opts attempt ws.
Proof.
  induction turns as [ | turns IH ]; intros attempt h r h'; cbn [retry_loop].
  - intros H. inversion H; subst. exists []. now rewrite app_nil_r.
  - unfold attempt_once.
    destruct (world h rq) as [res | err].
    + destruct (negb (res_ok res)) eqn:Hok; cbn [andb].
      * destruct (retryable res) eqn:Hre; cbn [andb].
        -- destruct (attempt <? retries opts).
           ++ intros H. apply IH in H. destruct H as [ws [E Hws]].
              exists (retry_after_wait opts attempt res :: ws). split.
              ** rewrite E, !sleeps_app. cbn. now rewrite app_nil_r, <- app_assoc.
              ** split; [ right; exists res; repeat split; auto | exact Hws ].
                 now apply negb_true_iff.
           ++ intros H. inversion H; subst. exists []. split; [ | exact I ].
              rewrite sleeps_app. reflexivity.
        -- intros H. inversion H; subst. exists []. split; [ | exact I ].
           rewrite sleeps_app. reflexivity.
      * intros H. inversion H; subst. exists []. split; [ | exact I ].
        rewrite sleeps_app. reflexivity.
    + destruct (attempt >=? retries opts).
      * intros H. inversion H; subst. exists []. split; [ | exact I ].
        rewrite sleeps_app. reflexivity.
      * intros H. apply IH in H. destruct H as [ws [E Hws]].
        exists (backoff_wait opts attempt :: ws). split.
        -- rewrite E, !sleeps_app. cbn. now rewrite app_nil_r, <- app_assoc.
        -- split; [ now left | exact Hws ].
Qed.

(** C6, as the code has it.  After a response that is not OK, is retryable
    (429 or 5xx) and is not the last attempt, the turn records the call,
    then one delay, and asks for another turn.  The delay is
    [Number(header) * 1000] when the [retry-after] header converts to a
    finite number greater than 0, and [backoffMs * 2^attempt] otherwise (no
    header, or a value that converts to 0, to a negative number or to
    [NaN]); no option switches the header off.  After a rejected [fetch]
    that is not the last attempt the delay is [backoffMs * 2^attempt].
    Over a whole call, the delays are exactly these, one before each retry,
    the delay before retry N being the one of attempt N - 1. *)
Theorem retry_delay (attempt : Z) (h : history) :
  attempt < retries opts ->
  (forall res,
      world h rq = Responded res ->
      res_ok res = false ->
      retryable res = true ->
      let ra := ToNumber (header_get "retry-after" res) in
      exists wait,
        attempt_once world url init opts attempt h
          = (IterContinue, h ++ [Fetched rq; Slept wait])
        /\ (PrimFloat.is_finite ra = true -> PrimFloat.ltb 0 ra = true ->
            wait = PrimFloat.mul ra 1000)
        /\ (PrimFloat.is_finite ra && PrimFloat.ltb 0 ra = false ->
            wait = PrimFloat.mul (backoffMs opts) (pow2 attempt))
        /\ (assoc "retry-after" (res_headers res) = None ->
            wait = PrimFloat.mul (backoffMs opts) (pow2 attempt)))
  /\ (forall err,
        world h rq = Failed err ->
        attempt_once world url init opts attempt h
          = (IterContinue, h ++ [Fetched rq; Slept (PrimFloat.mul (backoffMs opts) (pow2 attempt))]))
  /\ (forall r h',
        fetchWithRetry world url init opts h = (r, h') ->
        exists ws, sleeps h' = sleeps h ++ ws /\ delays_follow_policy opts 0 ws).
Proof.
  intros Hlt. split; [ | split ]; cycle 2.
  { intros r h'. unfold fetchWithRetry.
    destruct (retry_loop world url init opts (Z.to_nat (retries opts + 1)) 0 h)
      as [x h1] eqn:E.
    apply retry_loop_delays in E.
    destruct x; intros H; inversion H; subst; exact E. }
  - intros res W Hok Hre ra.
    exists (retry_after_wait opts attempt res).
    unfold attempt_once. rewrite W, Hok, Hre.
    replace (attempt <? retries opts) with true by (symmetry; apply Z.ltb_lt; lia).
    cbn [negb andb]. rewrite <- app_assoc. cbn [app].
    repeat split.
    + intros Hfin Hpos. unfold retry_after_wait. fold ra. now rewrite Hfin, Hpos.
    + intros Hno. unfold retry_after_wait. fold ra. now rewrite Hno.
    + intros Habsent. unfold retry_after_wait, header_get. rewrite Habsent.
      reflexivity.
  - intros err W.
    unfold attempt_once. rewrite W.
    replace (attempt >=? retries opts) with false
      by (symmetry; rewrite Z.geb_leb; apply Z.leb_gt; lia).
    rewrite <- app_assoc. reflexivity.
Qed.

End RetryLoop.

(* ================================================================== *)
(** * verifyProxy: which signatures are accepted                       *)
(* ================================================================== *)

Section Hex.
Import Crypto.

Lemma byte_val_range (b : byte) : 0 <= byte_val b < 256.
Proof. destruct b; vm_compute; split; congruence. Qed.

Lemma byte_of_Z_val (b : byte) : byte_of_Z (byte_val b) = b.
Proof. destruct b; reflexivity. Qed.

Lemma byte_val_of_Z (z : Z) : 0 <= z < 256 -> byte_val (byte_of_Z z) = z.
Proof.
  intros Hz. unfold byte_of_Z, byte_val.
  rewrite Z.mod_small by lia.
  destruct (Byte.of_N (Z.to_N z)) as [b | ] eqn:E.
  - apply Byte.to_of_N in E. rewrite E. lia.
  - apply Byte.of_N_None_iff in E. lia.
Qed.

Lemma hex_value_digit (n : Z) : 0 <= n < 16 -> hex_value (hex_digit n) = Some n.
Proof.
  intros Hn.
  rewrite <- (Z2Nat.id n) by lia.
  assert (Hk : (Z.to_nat n < 16)%nat) by lia.
  revert Hk. generalize (Z.to_nat n). intros k Hk.
  do 16 (destruct k as [ | k ]; [ reflexivity | ]).
  lia.
Qed.

Lemma hex_value_range (c : ascii) (n : Z) : hex_value c = Some n -> 0 <= n < 16.
Proof.
  unfold hex_value.
  set (m := Z.of_N (N_of_ascii c)).
  destruct ((48 <=? m) && (m <=? 57)) eqn:A.
  - intros H. inversion H. apply andb_prop in A. lia.
  - destruct ((97 <=? m) && (m <=? 102)) eqn:B.
    + intros H. inversion H. apply andb_prop in B. lia.
    + destruct ((65 <=? m) && (m <=? 70)) eqn:C; [ | discriminate ].
      intros H. inversion H. apply andb_prop in C. lia.
Qed.

Lemma nibbles_range (b : byte) : 0 <= byte_val b / 16 < 16 /\ 0 <= byte_val b mod 16 < 16.
Proof.
  pose proof (byte_val_range b) as R. split.
  - split; [ apply Z.div_pos; lia | apply Z.div_lt_upper_bound; lia ].
  - apply Z.mod_pos_bound. lia.
Qed.

Lemma low_byte_code (c : ascii) : Unicode.low_byte (Unicode.byte_code c) = c.
Proof.
  unfold Unicode.low_byte, Unicode.byte_code.
  pose proof (N_ascii_bounded c) as Hc.
  rewrite Z.mod_small by lia.
  rewrite N2Z.id. apply ascii_N_embedding.
Qed.

(** Test vectors of the reader: U+0131 (C4 B1), U+20AC (E2 82 AC) and
    U+1F600 (F0 9F 98 80, a pair of surrogates); a byte that starts no
    sequence reads as U+FFFD. *)
Lemma code_units_samples :
  Unicode.code_units (String "196" (String "177" "")) = [305]
  /\ Unicode.code_units (String "226" (String "130" (String "172" ""))) = [8364]
  /\ Unicode.code_units (String "240" (String "159" (String "152" (String "128" ""))))
     = [55357; 56832]
  /\ Unicode.code_units (String "177" "a") = [65533; 97]
  /\ Unicode.low_byte 305 = "1"%char.
Proof. repeat split; vm_compute; reflexivity. Qed.

(** ASCII text has one code unit per character. *)
Lemma code_units_ascii (s : string) :
  Unicode.is_ascii s = true ->
  Unicode.code_units s = map Unicode.byte_code (list_ascii_of_string s).
Proof.
  unfold Unicode.code_units, Unicode.is_ascii.
  induction s as [ | c s IH ]; [ reflexivity | ].
  cbn [list_ascii_of_string forallb map Unicode.code_points].
  intros H. apply andb_prop in H. destruct H as [Hc Hs].
  rewrite Hc. cbn [flat_map]. rewrite (IH Hs).
  unfold Unicode.units_of_point.
  replace (Unicode.byte_code c <? 65536) with true
    by (symmetry; apply Z.ltb_lt; apply Z.ltb_lt in Hc; lia).
  reflexivity.
Qed.

Lemma low_bytes_ascii (s : string) :
  Unicode.is_ascii s = true ->
  map Unicode.low_byte (Unicode.code_units s) = list_ascii_of_string s.
Proof.
  intros H. rewrite (code_units_ascii s H), map_map.
  rewrite <- (map_id (list_ascii_of_string s)) at 2.
  apply map_ext. apply low_byte_code.
Qed.

(** On ASCII text the hex reader works on the characters themselves. *)
Lemma hex_decode_ascii (s : string) :
  Unicode.is_ascii s = true -> hex_decode s = hex_pairs (list_ascii_of_string s).
Proof. intros H. unfold hex_decode. now rewrite low_bytes_ascii. Qed.

Lemma hex_digit_ascii (n : Z) :
  0 <= n < 16 -> (Unicode.byte_code (hex_digit n) <? 128) = true.
Proof.
  intros Hn.
  rewrite <- (Z2Nat.id n) by lia.
  assert (Hk : (Z.to_nat n < 16)%nat) by lia.
  revert Hk. generalize (Z.to_nat n). intros k Hk.
  do 16 (destruct k as [ | k ]; [ reflexivity | ]).
  lia.
Qed.

Lemma hex_encode_ascii (bs : list byte) : Unicode.is_ascii (hex_encode bs) = true.
Proof.
  unfold Unicode.is_ascii.
  induction bs as [ | b bs IH ]; [ reflexivity | ].
  destruct (nibbles_range b) as [Hh Hl].
  cbn [hex_encode list_ascii_of_string forallb].
  now rewrite !hex_digit_ascii, IH by assumption.
Qed.

Lemma hex_pairs_encode (bs : list byte) :
  hex_pairs (list_ascii_of_string (hex_encode bs)) = bs.
Proof.
  induction bs as [ | b bs IH ]; [ reflexivity | ].
  destruct (nibbles_range b) as [Hh Hl].
  cbn [hex_encode list_ascii_of_string hex_pairs].
  rewrite !hex_value_digit by assumption.
  rewrite IH. f_equal.
  rewrite <- (byte_of_Z_val b) at 3. f_equal.
  pose proof (Z.div_mod (byte_val b) 16). lia.
Qed.

(** Reading back what [digest('hex')] wrote gives the bytes. *)
Lemma hex_decode_encode (bs : list byte) : hex_decode (hex_encode bs) = bs.
Proof. rewrite hex_decode_ascii by apply hex_encode_ascii. apply hex_pairs_encode. Qed.

Lemma bytes_eqb_eq (a b : list byte) : bytes_eqb a b = true <-> a = b.
Proof.
  revert b. induction a as [ | x a IH ]; intros [ | y b ]; simpl; split;
    try discriminate; try reflexivity.
  - intros H. apply andb_prop in H. destruct H as [H1 H2].
    apply Byte.byte_dec_bl in H1. apply IH in H2. now subst.
  - intros H. inversion H; subst.
    rewrite Byte.byte_dec_lb by reflexivity. simpl. now apply IH.
Qed.

Lemma sha256_length (msg : list byte) : length (sha256 msg) = 32%nat.
Proof. unfold sha256, chain_bytes. rewrite length_map. reflexivity. Qed.

Lemma hmac_sha256_length (key msg : list byte) : length (hmac_sha256 key msg) = 32%nat.
Proof. unfold hmac_sha256. apply sha256_length. Qed.

Lemma hex_encode_nonempty (bs : list byte) : bs <> [] -> hex_encode bs <> EmptyString.
Proof. destruct bs; [ congruence | discriminate ]. Qed.

Lemma byte_of_Z_inj (x y : Z) :
  0 <= x < 256 -> 0 <= y < 256 -> byte_of_Z x = byte_of_Z y -> x = y.
Proof.
  intros Hx Hy E. rewrite <- (byte_val_of_Z x Hx), <- (byte_val_of_Z y Hy). now rewrite E.
Qed.

Lemma byte_of_nibbles (b : byte) : byte_of_Z (16 * (byte_val b / 16) + byte_val b mod 16) = b.
Proof.
  rewrite <- (byte_of_Z_val b) at 3. f_equal.
  pose proof (Z.div_mod (byte_val b) 16). lia.
Qed.

(** One character of the hex text of [bs] replaced by [c]: the bytes read
    back are [bs] exactly when [c] stands for the same hexadecimal digit as
    the character it replaces. *)
Lemma hex_pairs_replace (bs : list byte) :
  forall (i : nat) (c a : ascii),
    char_at i (hex_encode bs) = Some a ->
    (hex_pairs (Unicode.replace_nth i c (list_ascii_of_string (hex_encode bs))) = bs
     <-> hex_value c = hex_value a).
Proof.
  induction bs as [ | b bs IH ]; intros i c a Hat.
  - destruct i; discriminate.
  - destruct (nibbles_range b) as [Hh Hl].
    pose proof (byte_val_range b) as Hb.
    cbn [hex_encode] in Hat.
    cbn [hex_encode list_ascii_of_string].
    destruct i as [ | [ | i ] ].
    + cbn in Hat. assert (Ea : a = hex_digit (byte_val b / 16)) by congruence. subst a.
      clear Hat. rewrite hex_value_digit by assumption.
      cbn [Unicode.replace_nth hex_pairs].
      rewrite hex_value_digit by assumption.
      destruct (hex_value c) as [h | ] eqn:Hc.
      * apply hex_value_range in Hc. rewrite hex_pairs_encode. split.
        -- intros H.
           assert (Hbyte : byte_of_Z (16 * h + byte_val b mod 16)
                           = byte_of_Z (16 * (byte_val b / 16) + byte_val b mod 16)).
           { rewrite byte_of_nibbles. congruence. }
           apply byte_of_Z_inj in Hbyte; [ | lia | lia ].
           f_equal. lia.
        -- intros H. assert (Eh : h = byte_val b / 16) by congruence. subst h.
           now rewrite byte_of_nibbles.
      * split; discriminate.
    + cbn in Hat. assert (Ea : a = hex_digit (byte_val b mod 16)) by congruence. subst a.
      clear Hat. rewrite hex_value_digit by assumption.
      cbn [Unicode.replace_nth hex_pairs].
      rewrite hex_value_digit by assumption.
      destruct (hex_value c) as [l | ] eqn:Hc.
      * apply hex_value_range in Hc. rewrite hex_pairs_encode. split.
        -- intros H.
           assert (Hbyte : byte_of_Z (16 * (byte_val b / 16) + l)
                           = byte_of_Z (16 * (byte_val b / 16) + byte_val b mod 16)).
           { rewrite byte_of_nibbles. congruence. }
           apply byte_of_Z_inj in Hbyte; [ | lia | lia ].
           f_equal. lia.
        -- intros H. assert (El : l = byte_val b mod 16) by congruence. subst l.
           now rewrite byte_of_nibbles.
      * split; discriminate.
    + cbn in Hat.
      cbn [Unicode.replace_nth hex_pairs].
      rewrite !hex_value_digit by assumption.
      rewrite byte_of_nibbles.
      rewrite <- (IH i c a Hat).
      split; intros H; congruence.
Qed.

Lemma map_replace_nth {A B} (f : A -> B) (i : nat) (x : A) (l : list A) :
  map f (Unicode.replace_nth i x l) = Unicode.replace_nth i (f x) (map f l).
Proof.
  revert i. induction l as [ | a l IH ]; intros [ | i ]; cbn; try reflexivity.
  now rewrite IH.
Qed.

End Hex.

Section Signature.
Import Crypto.

Lemma sign_nonempty (secret : string) (params : query) : sign secret params <> EmptyString.
Proof.
  unfold sign. apply hex_encode_nonempty.
  intros H. apply (f_equal (@length byte)) in H.
  unfold digest_bytes in H. rewrite hmac_sha256_length in H. discriminate.
Qed.

Lemma alter_nonempty (i : nat) (c : ascii) (s : string) :
  s <> EmptyString -> alter i c s <> EmptyString.
Proof. destruct s; [ congruence | destruct i; discriminate ]. Qed.

Lemma eqb_empty_false (s : string) : s <> EmptyString -> String.eqb s "" = false.
Proof. intros H. now apply String.eqb_neq. Qed.

(** With the secret set and a non-empty signature, the answer is decided by
    comparing the bytes read from the signature with the digest. *)
Lemma verifyProxy_with_secret (cfg : config) (secret : string) (q : query) (sig : string) :
  APP_PROXY_SHARED_SECRET cfg = Some secret ->
  signature_of q = Some sig ->
  sig <> EmptyString ->
  (hex_decode sig = digest_bytes secret (params_of q) -> verifyProxy cfg q = Ok true)
  /\ (hex_decode sig <> digest_bytes secret (params_of q) -> verifyProxy cfg q = Ok false).
Proof.
  intros Hsecret Hsig Hne.
  unfold verifyProxy. rewrite Hsig, (eqb_empty_false sig Hne), Hsecret.
  unfold hmac_hex. cbn [obind].
  fold (digest_bytes secret (params_of q)).
  rewrite hex_decode_encode.
  unfold timingSafeEqual.
  split; intros H.
  - rewrite H, Nat.eqb_refl.
    replace (bytes_eqb _ _) with true; [ reflexivity | ].
    symmetry. now apply bytes_eqb_eq.
  - destruct (Nat.eqb _ _); [ | reflexivity ].
    destruct (bytes_eqb _ _) eqn:E; [ | reflexivity ].
    apply bytes_eqb_eq in E. contradiction.
Qed.

Lemma verifyProxy_without_signature (cfg : config) (q : query) :
  signature_of q = None \/ signature_of q = Some EmptyString ->
  verifyProxy cfg q = Ok false.
Proof.
  intros [H | H]; unfold verifyProxy; rewrite H; reflexivity.
Qed.

Lemma verifyProxy_without_secret (cfg : config) (q : query) (sig : string) :
  APP_PROXY_SHARED_SECRET cfg = None ->
  signature_of q = Some sig ->
  sig <> EmptyString ->
  exists msg, verifyProxy cfg q = Throw (TypeError msg).
Proof.
  intros Hsecret Hsig Hne.
  unfold verifyProxy. rewrite Hsig, (eqb_empty_false sig Hne), Hsecret.
  unfold hmac_hex. cbn [obind]. eexists. reflexivity.
Qed.

(** C3, as the code has it.  With the secret set to [secret] and a query
    that carries the signature [sig]:
    - the signature computed by the procedure (keys other than [signature]
      sorted, [key=value] joined without separator, HMAC-SHA-256 under the
      secret, lower-case hex) is accepted;
    - [verifyProxy] answers [true] exactly when [sig] is not empty and the
      bytes read from it as hex are the digest, and [false] otherwise;
    - so the computed signature with one of its UTF-16 code units replaced
      by the unit [u] is accepted exactly when the low byte of [u] stands for
      the same hexadecimal digit as the character replaced: another digit,
      or a character that is no digit, is rejected; a letter in its other
      case, or a unit such as U+0131 in the place of [1], is accepted;
    - and the computed signature presented with other parameters or under
      another secret is accepted exactly when the digest is the same. *)
Theorem verifyProxy_accepts_the_digest
    (cfg : config) (secret : string) (q : query) (sig : string) :
  APP_PROXY_SHARED_SECRET cfg = Some secret ->
  signature_of q = Some sig ->
  (sig = sign secret (params_of q) -> verifyProxy cfg q = Ok true)
  /\ (verifyProxy cfg q = Ok true <->
      sig <> EmptyString /\ hex_decode sig = digest_bytes secret (params_of q))
  /\ (verifyProxy cfg q <> Ok true -> verifyProxy cfg q = Ok false)
  /\ (forall i u a,
        char_at i (sign secret (params_of q)) = Some a ->
        Unicode.code_units sig
        = Unicode.replace_nth i u (Unicode.code_units (sign secret (params_of q))) ->
        (verifyProxy cfg q = Ok true <-> hex_value (Unicode.low_byte u) = hex_value a))
  /\ (forall cfg' secret' q',
        APP_PROXY_SHARED_SECRET cfg' = Some secret' ->
        signature_of q' = Some (sign secret (params_of q)) ->
        (verifyProxy cfg' q' = Ok true <->
         digest_bytes secret' (params_of q') = digest_bytes secret (params_of q))).
Proof.
  intros Hsecret Hsig.
  assert (Hnone : sig = EmptyString -> verifyProxy cfg q = Ok false).
  { intros E. apply verifyProxy_without_signature. right. now rewrite Hsig, E. }
  assert (Hiff : verifyProxy cfg q = Ok true <->
                 sig <> EmptyString /\ hex_decode sig = digest_bytes secret (params_of q)).
  { split.
    - intros Htrue.
      destruct (string_dec sig EmptyString) as [E | Hne].
      + rewrite (Hnone E) in Htrue. discriminate.
      + split; [ exact Hne | ].
        destruct (verifyProxy_with_secret cfg secret q sig Hsecret Hsig Hne) as [_ Hfalse].
        destruct (list_eq_dec Byte.byte_eq_dec (hex_decode sig)
                    (digest_bytes secret (params_of q))) as [E | N]; [ exact E | ].
        rewrite (Hfalse N) in Htrue. discriminate.
    - intros [Hne E].
      now apply (verifyProxy_with_secret cfg secret q sig Hsecret Hsig Hne). }
  split; [ | split; [ exact Hiff | split; [ | split ] ] ].
  - intros E. apply Hiff. split.
    + rewrite E. apply sign_nonempty.
    + rewrite E. unfold sign. apply hex_decode_encode.
  - intros Hnot.
    destruct (string_dec sig EmptyString) as [E | Hne]; [ now apply Hnone | ].
    destruct (verifyProxy_with_secret cfg secret q sig Hsecret Hsig Hne) as [Ht Hf].
    destruct (list_eq_dec Byte.byte_eq_dec (hex_decode sig)
                (digest_bytes secret (params_of q))) as [E | N].
    + elim Hnot. now apply Ht.
    + now apply Hf.
  - intros i u a Hat Hunits.
    assert (Hdec : hex_decode sig = digest_bytes secret (params_of q)
                   <-> hex_value (Unicode.low_byte u) = hex_value a).
    { unfold hex_decode. rewrite Hunits, map_replace_nth.
      unfold sign in *. rewrite low_bytes_ascii by apply hex_encode_ascii.
      now apply hex_pairs_replace. }
    assert (Hne : sig <> EmptyString).
    { intros E. rewrite E in Hunits. unfold sign in Hunits, Hat.
      rewrite (code_units_ascii (hex_encode _)) in Hunits by apply hex_encode_ascii.
      destruct (digest_bytes secret (params_of q)) as [ | b bs ];
        [ destruct i; discriminate Hat | ].
      cbn [hex_encode list_ascii_of_string map] in Hunits.
      destruct i; discriminate Hunits. }
    rewrite Hiff, <- Hdec. tauto.
  - intros cfg' secret' q' Hsecret' Hsig'.
    pose proof (sign_nonempty secret (params_of q)) as Hne.
    destruct (verifyProxy_with_secret cfg' secret' q' _ Hsecret' Hsig' Hne) as [Ht Hf].
    assert (Hdec : hex_decode (sign secret (params_of q)) = digest_bytes secret (params_of q))
      by (unfold sign; apply hex_decode_encode).
    rewrite Hdec in Ht, Hf.
    split.
    + intros Htrue.
      destruct (list_eq_dec Byte.byte_eq_dec (digest_bytes secret' (params_of q'))
                  (digest_bytes secret (params_of q))) as [E | N]; [ exact E | ].
      rewrite Hf in Htrue; [ discriminate | congruence ].
    + intros E. apply Ht. now rewrite E.
Qed.

(** C4, as the code has it.
    - Without a signature, or with an empty one, the answer is [false],
      whatever the secret.
    - With the secret set, [verifyProxy] never throws: it answers [false]
      when the bytes read from the signature (the leading pairs of
      hexadecimal digits) are not the 32 bytes of the digest, in particular
      when they are not 32 bytes; what follows the last pair read is ignored.
    - With the secret unset and a non-empty signature, [createHmac] throws a
      [TypeError] before the [try] block, and the handler answers 500 with
      its message. *)
Theorem verifyProxy_failure_modes (world : remote) (cfg : config) (q : query) (h : history)
    {rt : Runtime} :
  (signature_of q = None \/ signature_of q = Some EmptyString ->
   verifyProxy cfg q = Ok false)
  /\ (forall secret,
        APP_PROXY_SHARED_SECRET cfg = Some secret ->
        (exists b, verifyProxy cfg q = Ok b)
        /\ (forall sig, signature_of q = Some sig ->
              length (hex_decode sig) <> 32%nat -> verifyProxy cfg q = Ok false)
        /\ (forall sig, signature_of q = Some sig ->
              hex_decode sig <> digest_bytes secret (params_of q) ->
              verifyProxy cfg q = Ok false))
  /\ (APP_PROXY_SHARED_SECRET cfg = None ->
      forall sig, signature_of q = Some sig -> sig <> EmptyString ->
        exists msg,
          verifyProxy cfg q = Throw (TypeError msg)
          /\ proxy_get world cfg q h = (Some (error_reply 500 msg), h)).
Proof.
  split; [ apply verifyProxy_without_signature | split ].
  - intros secret Hsecret.
    assert (Hrej : forall sig, signature_of q = Some sig ->
              hex_decode sig <> digest_bytes secret (params_of q) ->
              verifyProxy cfg q = Ok false).
    { intros sig Hsig Hneq.
      destruct (string_dec sig EmptyString) as [E | Hne].
      - apply verifyProxy_without_signature. right. now rewrite Hsig, E.
      - now apply (verifyProxy_with_secret cfg secret q sig Hsecret Hsig Hne). }
    split; [ | split; [ | exact Hrej ] ].
    + destruct (signature_of q) as [sig | ] eqn:Hsig.
      * destruct (list_eq_dec Byte.byte_eq_dec (hex_decode sig)
                    (digest_bytes secret (params_of q))) as [E | N].
        -- destruct (string_dec sig EmptyString) as [E0 | Hne].
           ++ exists false. apply verifyProxy_without_signature. right. now rewrite Hsig, E0.
           ++ exists true. now apply (verifyProxy_with_secret cfg secret q sig Hsecret Hsig Hne).
        -- exists false. now apply (Hrej sig).
      * exists false. apply verifyProxy_without_signature. now left.
    + intros sig Hsig Hlen. apply (Hrej sig Hsig).
      intros E. apply Hlen. rewrite E. unfold digest_bytes. apply hmac_sha256_length.
  - intros Hsecret sig Hsig Hne.
    destruct (verifyProxy_without_secret cfg q sig Hsecret Hsig Hne) as [msg Hthrow].
    exists msg. split; [ exact Hthrow | ].
    unfold proxy_get. rewrite Hthrow. reflexivity.
Qed.

End Signature.

(* ================================================================== *)
(** * Calls that are answered at the first attempt                     *)
(* ================================================================== *)

Section FirstAttempt.
Context {rt : Runtime}.
Variable world : remote.
Variable cfg : config.

(** A response that is OK, or that is not retryable (a 4xx other than 429),
    is returned at once: one call, no delay. *)
Lemma fetchWithRetry_first_answer (url : string) (init : fetch_init) (opts : retry_options)
    (h : history) (res : response) :
  0 <= retries opts ->
  world h (request_of url init opts) = Responded res ->
  res_ok res = true \/ retryable res = false ->
  fetchWithRetry world url init opts h = (Ok res, h ++ [Fetched (request_of url init opts)]).
Proof.
  intros Hretries W Hres.
  unfold fetchWithRetry.
  replace (Z.to_nat (retries opts + 1)) with (S (Z.to_nat (retries opts))) by lia.
  cbn [retry_loop]. unfold attempt_once. rewrite W.
  replace (negb (res_ok res) && retryable res && (0 <? retries opts)) with false.
  - reflexivity.
  - destruct Hres as [H | H]; rewrite H; [ reflexivity | ].
    now rewrite andb_false_r.
Qed.

Lemma shopify_ok (path : string) (init : fetch_init) (h : history) (res : response) (v : value) :
  world h (admin_request cfg path init) = Responded res ->
  res_ok res = true ->
  res_json res = Ok v ->
  shopify world cfg path init h = (Ok v, h ++ [Fetched (admin_request cfg path init)]).
Proof.
  intros W Hok Hjson.
  unfold shopify, bind.
  rewrite (fetchWithRetry_first_answer _ _ admin_options h res) by (cbn; auto; lia).
  rewrite Hok. cbn [negb]. unfold lift. now rewrite Hjson.
Qed.

(** A refusal that is not retryable becomes the error
    [Shopify <status> <path>: <body>]. *)
Lemma shopify_refused (path : string) (init : fetch_init) (h : history) (res : response) :
  world h (admin_request cfg path init) = Responded res ->
  res_ok res = false ->
  retryable res = false ->
  shopify world cfg path init h
  = (Throw (Error ("Shopify " +++ decimal (status res) +++ " " +++ path +++ ": " +++ res_body res)),
     h ++ [Fetched (admin_request cfg path init)]).
Proof.
  intros W Hok Hre.
  unfold shopify, bind.
  rewrite (fetchWithRetry_first_answer _ _ admin_options h res) by (cbn; auto; lia).
  rewrite Hok. reflexivity.
Qed.

(** X1.  A 404 is returned by [fetchWithRetry] at once, whatever the number
    of attempts left: one call, no delay, no retry; [shopify] turns it into
    the error [Shopify 404 <path>: <body>]. *)
Theorem not_found_is_not_retried (url : string) (init : fetch_init) (opts : retry_options)
    (path : string) (h : history) (res : response) :
  0 <= retries opts ->
  status res = 404 ->
  (world h (request_of url init opts) = Responded res ->
   fetchWithRetry world url init opts h = (Ok res, h ++ [Fetched (request_of url init opts)]))
  /\ (world h (admin_request cfg path init) = Responded res ->
      shopify world cfg path init h
      = (Throw (Error ("Shopify 404 " +++ path +++ ": " +++ res_body res)),
         h ++ [Fetched (admin_request cfg path init)])).
Proof.
  intros Hretries Hstatus.
  assert (Hre : retryable res = false) by (unfold retryable; now rewrite Hstatus).
  assert (Hok : res_ok res = false) by (unfold res_ok; now rewrite Hstatus).
  split; intros W.
  - apply fetchWithRetry_first_answer; auto.
  - rewrite (shopify_refused path init h res W Hok Hre). now rewrite Hstatus.
Qed.

End FirstAttempt.

(* ================================================================== *)
(** * iterateCustomers: the pages and the order of events              *)
(* ================================================================== *)

Lemma capture_page_info_nonempty (seg tok : string) :
  capture_page_info seg = Some tok -> tok <> EmptyString.
Proof.
  induction seg as [ | c seg IH ]; [ discriminate | ].
  cbn [capture_page_info].
  destruct (capture_page_info seg) as [t | ].
  - intros H. inversion H; subst. now apply IH.
  - destruct (strip_prefix "page_info=" (String c seg)) as [t | ]; [ | discriminate ].
    destruct (String.eqb t "") eqn:E; [ discriminate | ].
    intros H. inversion H; subst. now apply String.eqb_neq.
Qed.

(** The captured group is never empty, so a matched cursor is truthy. *)
Lemma match_next_link_nonempty (link tok : string) :
  match_next_link link = Some tok -> tok <> EmptyString.
Proof.
  induction link as [ | c link IH ]; [ discriminate | ].
  cbn [match_next_link].
  destruct (if Ascii.eqb c "<" then match_from link else None) as [t | ] eqn:E.
  - intros H. inversion H; subst.
    destruct (Ascii.eqb c "<"); [ | discriminate ].
    unfold match_from in E.
    destruct (until_gt link) as [[[ | c0 seg] after] | ]; try discriminate.
    destruct (strip_prefix rel_next after); [ | discriminate ].
    now apply capture_page_info_nonempty in E.
  - exact IH.
Qed.

Lemma cursor_set_match (link tok : string) :
  match_next_link link = Some tok -> cursor_set (match_next_link link) = true.
Proof.
  intros H. rewrite H. cbn.
  apply match_next_link_nonempty in H.
  apply String.eqb_neq in H. now rewrite H.
Qed.

Section Pages.
Context {rt : Runtime}.
Variable world : remote.
Variable cfg : config.

Lemma load_page_ok (page_info : option string) (h : history) (res : response)
    (body customers : value) (elements : list value) :
  world h (page_request cfg page_info) = Responded res ->
  res_ok res = true ->
  res_json res = Ok body ->
  get_prop body "customers" = Ok customers ->
  iterate (or_else customers (VArr [])) = Ok elements ->
  load_page world cfg page_info h
  = (Ok (elements, link_of res), h ++ [Fetched (page_request cfg page_info)]).
Proof.
  intros W Hok Hbody Hcust Hiter.
  unfold load_page, bind.
  rewrite (fetchWithRetry_first_answer world _ _ admin_options h res) by (cbn; auto; lia).
  rewrite Hok. cbn [negb]. unfold lift. rewrite Hbody, Hcust, Hiter. reflexivity.
Qed.

Lemma drain_unfold (m : nat) (g : gen_state) (seen : list value) (h : history) :
  drain world cfg (S m) g seen h = drain_from world cfg (S m) m g seen h.
Proof. reflexivity. Qed.

Lemma drain_in_page (rest : list (response * list value)) :
  forall (elements ids : list value) (link : string) (seen : list value) (h : history)
         (n m : nat),
    Forall2 (fun c id => get_prop c "id" = Ok id) elements ids ->
    match rest with
    | [] => match_next_link link = None
    | _ :: _ => exists tok, match_next_link link = Some tok /\ serves world cfg (Some tok) rest
    end ->
    (length rest < n)%nat ->
    (length rest + length ids + length (all_ids rest) <= m)%nat ->
    drain_from world cfg n m (GenInPage elements link) seen h
    = (Ok (seen ++ ids ++ all_ids rest),
       h ++ map Yielded ids ++ expected_events cfg (match_next_link link) rest).
Proof.
  induction rest as [ | [res ids2] rest IH ];
    intros elements ids link seen h n m Hids; revert seen h n m;
    induction Hids as [ | c id elements ids Hc Hrest IHin ]; intros seen h n m Hlink Hn Hm.
  - (* last page, nothing pending: the generator ends *)
    destruct n as [ | n ]; [ lia | ].
    unfold drain_from, bind. cbn [gen_next]. rewrite Hlink. cbn.
    now rewrite !app_nil_r.
  - (* last page, an element pending: it is yielded without any call *)
    destruct n as [ | n ]; [ lia | ].
    cbn [length] in Hm.
    destruct m as [ | m ]; [ lia | ].
    unfold drain_from, bind. cbn [gen_next]. unfold lift, bind. rewrite Hc.
    unfold record. cbn [fst snd].
    rewrite drain_unfold.
    rewrite (IHin (seen ++ [id]) (h ++ [Yielded id]) (S m) m Hlink) by (cbn in *; lia).
    cbn [map app]. rewrite <- !app_assoc. reflexivity.
  - (* a page follows, nothing pending: it is loaded now *)
    destruct Hlink as [tok [Hmatch [Hworld [[Hok [body [customers [elements2 [Hb [Hcu [Hit Hids2]]]]]]] Hnext]]]].
    destruct n as [ | n ]; [ cbn in Hn; lia | ].
    unfold drain_from, bind. cbn [gen_next].
    rewrite (cursor_set_match link tok Hmatch).
    unfold bind.
    rewrite Hmatch at 1.
    rewrite (load_page_ok (Some tok) h res body customers elements2 (Hworld h) Hok Hb Hcu Hit).
    cbn [fst snd].
    pose proof (IH elements2 ids2 (link_of res) seen
                  (h ++ [Fetched (page_request cfg (Some tok))]) n m Hids2 Hnext) as Hrec.
    unfold drain_from, bind in Hrec.
    rewrite Hrec.
    + rewrite Hmatch. cbn [expected_events map app all_ids concat snd].
      rewrite <- !app_assoc. reflexivity.
    + cbn in Hn. lia.
    + cbn [length all_ids map concat snd] in Hm. rewrite length_app in Hm.
      unfold all_ids. lia.
  - (* a page follows, an element pending *)
    destruct n as [ | n ]; [ lia | ].
    cbn [length] in Hm.
    destruct m as [ | m ]; [ lia | ].
    unfold drain_from, bind. cbn [gen_next]. unfold lift, bind. rewrite Hc.
    unfold record. cbn [fst snd].
    rewrite drain_unfold.
    rewrite (IHin (seen ++ [id]) (h ++ [Yielded id]) (S m) m Hlink) by (cbn in *; lia).
    cbn [map app]. rewrite <- !app_assoc. reflexivity.
Qed.

(** C7.  When the remote side serves a sequence of pages in which every page
    but the last carries a [rel="next"] link, a consumer that takes every
    value gets exactly the ids of all the pages, in order, and the generator
    then ends; in the run, each page is requested once, after all the ids of
    the page before it were handed out and before any of its own. *)
Theorem iterateCustomers_yields_every_page
    (pages : list (response * list value)) (h : history) (fuel : nat) :
  serves world cfg None pages ->
  (length pages + length (all_ids pages) < fuel)%nat ->
  drain world cfg fuel GenStart [] h
  = (Ok (all_ids pages), h ++ expected_events cfg None pages).
Proof.
  intros Hserves Hfuel.
  destruct pages as [ | [res ids] rest ]; [ contradiction | ].
  destruct Hserves as [Hworld [[Hok [body [customers [elements [Hb [Hcu [Hit Hids]]]]]]] Hnext]].
  destruct fuel as [ | m ]; [ lia | ].
  rewrite drain_unfold. unfold drain_from, bind. cbn [gen_next]. unfold bind.
  rewrite (load_page_ok None h res body customers elements (Hworld h) Hok Hb Hcu Hit).
  cbn [fst snd].
  cbn [length all_ids map concat snd] in Hfuel. rewrite length_app in Hfuel.
  destruct m as [ | m' ]; [ lia | ].
  pose proof (drain_in_page rest elements ids (link_of res) []
                (h ++ [Fetched (page_request cfg None)]) (S m') (S m') Hids Hnext) as Hrec.
  unfold drain_from, bind in Hrec.
  rewrite Hrec.
  - cbn [expected_events all_ids map concat snd app]. rewrite <- !app_assoc. reflexivity.
  - lia.
  - unfold all_ids. lia.
Qed.

End Pages.

(* ================================================================== *)
(** * The daily job: getStanding, the order step, the loop             *)
(* ================================================================== *)

Section JobSteps.
Context {rt : Runtime}.
Variable world : remote.
Variable cfg : config.

Lemma get_prop_not_nullish (v : value) (k : string) :
  not_nullish v -> get_prop v k = Ok (prop_of v k).
Proof.
  intros [Hu Hn]. unfold prop_of.
  destruct v; try reflexivity; congruence.
Qed.

Lemma map_items_total (dayKey : string) (ps : list value) :
  Forall not_nullish ps ->
  map_items dayKey ps = Ok (map (item_of dayKey) ps).
Proof.
  induction 1 as [ | p ps Hp Hps IH ]; [ reflexivity | ].
  cbn [map_items map].
  rewrite !(get_prop_not_nullish p) by assumption.
  cbn [obind]. rewrite IH. reflexivity.
Qed.

(** ** Histories only grow *)


(** A response that [fetchWithRetry] returns is the answer to the last call
    of the history. *)
Lemma retry_loop_returns_last (url : string) (init : fetch_init) (opts : retry_options)
    (turns : nat) :
  forall attempt h res h',
    retry_loop world url init opts turns attempt h = (LoopReturn res, h') ->
    exists h_last,
      h' = h_last ++ [Fetched (request_of url init opts)]
      /\ world h_last (request_of url init opts) = Responded res
      /\ exists ext, h_last = h ++ ext.
Proof.
  induction turns as [ | turns IH ]; intros attempt h res h'; cbn [retry_loop].
  - discriminate.
  - unfold attempt_once.
    destruct (world h (request_of url init opts)) as [res0 | err] eqn:W.
    + destruct (negb (res_ok res0) && retryable res0 && (attempt <? retries opts)).
      * intros H. apply IH in H. destruct H as [h_last [E [W' [ext Hext]]]].
        exists h_last. repeat split; try assumption.
        eexists. rewrite Hext, <- !app_assoc. reflexivity.
      * intros H. inversion H; subst.
        exists h. repeat split; try assumption. exists []. now rewrite app_nil_r.
    + destruct (attempt >=? retries opts).
      * discriminate.
      * intros H. apply IH in H. destruct H as [h_last [E [W' [ext Hext]]]].
        exists h_last. repeat split; try assumption.
        eexists. rewrite Hext, <- !app_assoc. reflexivity.
Qed.



End JobSteps.

Section JobTheorems.
Context {rt : Runtime}.
Variable world : remote.
Variable cfg : config.

Lemma array_find_none (p : value -> outcome bool) (ms : list value) :
  Forall (fun m => p m = Ok false) ms -> array_find p ms = Ok VUndefined.
Proof.
  induction 1 as [ | m ms Hm Hms IH ]; [ reflexivity | ].
  cbn [array_find]. rewrite Hm. cbn [obind]. exact IH.
Qed.

(** An entry that [find] selects is an object, hence truthy. *)
Lemma standing_weekly_truthy (m : value) :
  is_standing_weekly m = Ok true -> truthy m = true.
Proof.
  destruct m; try discriminate; reflexivity.
Qed.

(** Whenever [find] selected an entry, the expression of line 197 throws:
    it reads [m], which is not bound in [getStanding]. *)
Lemma stored_document_of_entry (customer json mf : value) :
  truthy mf = true ->
  stored_document [("customerId", customer); ("json", json); ("mf", mf)] mf
  = Throw (ReferenceError "m is not defined").
Proof.
  intros Ht. unfold stored_document. rewrite Ht. reflexivity.
Qed.

(** [getStanding] never hands a document back: its result is [null]. *)
Lemma getStanding_returns_null (customer : value) (h : history) (data : value) (h' : history) :
  getStanding world cfg customer h = (Ok data, h') -> data = VNull.
Proof.
  unfold getStanding, bind, lift.
  destruct (shopify world cfg (metafields_path customer) no_init h) as [[json | e | ] h1];
    try discriminate.
  destruct (find_standing json) as [mf | e | ]; cbn [obind]; try discriminate.
  unfold stored_document.
  destruct (truthy mf); cbn; [ discriminate | ].
  intros H. now inversion H.
Qed.

(** C2, as the code has it.  For every customer id:
    - when the list of metadata entries holds no entry with namespace
      [standing] and key [weekly] (or the list is missing), [getStanding]
      returns [null];
    - when such an entry exists and its value does not parse as JSON,
      [getStanding] does not return [null]: it throws, and so does its
      caller's [await];
    - an error of the remote call is thrown on to the caller. *)
Theorem getStanding_null_or_error (customer : value) (h : history) :
  (forall json h' metafields,
      shopify world cfg (metafields_path customer) no_init h = (Ok json, h') ->
      get_prop json "metafields" = Ok metafields ->
      (truthy metafields = false
       \/ exists ms, metafields = VArr ms
                     /\ Forall (fun m => is_standing_weekly m = Ok false) ms) ->
      getStanding world cfg customer h = (Ok VNull, h'))
  /\ (forall json h' mf text msg,
        shopify world cfg (metafields_path customer) no_init h = (Ok json, h') ->
        find_standing json = Ok mf ->
        is_standing_weekly mf = Ok true ->
        get_prop mf "value" = Ok text ->
        JSON_parse (ToString text) = inr msg ->
        exists e, getStanding world cfg customer h = (Throw e, h'))
  /\ (forall e h',
        shopify world cfg (metafields_path customer) no_init h = (Throw e, h') ->
        getStanding world cfg customer h = (Throw e, h')).
Proof.
  repeat split.
  - intros json h' metafields Hcall Hget Hnone.
    unfold getStanding, bind, lift. rewrite Hcall.
    unfold find_standing, find_standing_of. rewrite Hget. cbn [obind].
    destruct Hnone as [Hfalsy | [ms [E Hall]]].
    + unfold or_else. rewrite Hfalsy. reflexivity.
    + subst metafields. unfold or_else. cbn [truthy find_in].
      rewrite (array_find_none _ ms Hall). reflexivity.
  - intros json h' mf text msg Hcall Hfind Hsel Hvalue Hparse.
    exists (ReferenceError "m is not defined").
    unfold getStanding, bind, lift. rewrite Hcall, Hfind. cbn [obind].
    rewrite stored_document_of_entry by (now apply standing_weekly_truthy).
    reflexivity.
  - intros e h' Hcall.
    unfold getStanding, bind. now rewrite Hcall.
Qed.

(** ** The order step (lines 219-230) *)

Lemma length_zero_iff_nil {A} (l : list A) : Nat.eqb (length l) 0 = true <-> l = [].
Proof. destruct l; cbn; split; congruence. Qed.

(** C1, as the code has it.  For a document [data] whose [products] is an
    array of product entries, the quantity of each entry is
    [Number(p[dayKey] || 0)]: the value at today's weekday key of the entry
    itself, 0 when the entry has no such key; only items with quantity > 0
    are kept.
    - When no item is kept, the step makes no call and records nothing.
    - When items are kept and the two remote calls succeed, the step posts
      exactly one draft order with those items, then its invoice, and records
      the draft.
    - For [{products:[{variantId:111, mon:2, tue:0}]}] the items are the
      single item (111, 2) on a Monday and none on a Tuesday.
    - For [{products:[{variantId:111, quantityPerWeekday:{mon:2,tue:0}}]}]
      no item is kept on any day: a key inside [quantityPerWeekday] is not
      read. *)
Theorem place_order_reads_weekday_key_of_entry
    (dayKey : string) (customer data : value) (ps : list value)
    (created : list job_record) (h : history) :
  truthy data = true ->
  get_prop data "products" = Ok (VArr ps) ->
  Forall not_nullish ps ->
  let items := keep_ordered (map (item_of dayKey) ps) in
  (items = [] -> place_order world cfg dayKey customer data created h = (Ok created, h))
  /\ (items <> [] ->
      forall res1 body1 draft draft_id res2 body2,
        world h (create_request cfg customer items dayKey) = Responded res1 ->
        res_ok res1 = true ->
        res_json res1 = Ok body1 ->
        get_prop body1 "draft_order" = Ok draft ->
        get_prop draft "id" = Ok draft_id ->
        world (h ++ [Fetched (create_request cfg customer items dayKey)])
              (invoice_request cfg draft_id) = Responded res2 ->
        res_ok res2 = true ->
        res_json res2 = Ok body2 ->
        place_order world cfg dayKey customer data created h
        = (Ok (created ++ [{| customerId := customer; draftId := draft_id |}]),
           h ++ [Fetched (create_request cfg customer items dayKey);
                 Fetched (invoice_request cfg draft_id)]))
  /\ keep_ordered (map (item_of "mon") flat_products)
     = [{| variantId := VNum 111%float; quantity := 2%float |}]
  /\ keep_ordered (map (item_of "tue") flat_products) = []
  /\ (forall today, keep_ordered (map (item_of (dayKey_of today)) nested_products) = []).
Proof.
  intros Hdata Hproducts Hps items.
  assert (Hstep :
             place_order world cfg dayKey customer data created h
             = (if Nat.eqb (length items) 0 then ret created
                else
                  draft <- createDraftOrder world cfg customer items (note_for dayKey) ;;
                  draft_id <- lift (get_prop draft "id") ;;
                  _ <- shopify world cfg (send_invoice_path draft_id) invoice_init ;;
                  ret (created ++ [{| customerId := customer; draftId := draft_id |}])) h).
  { unfold place_order. rewrite Hdata. cbn [negb].
    unfold bind at 1. unfold lift at 1. rewrite Hproducts. cbn [or_else truthy].
    unfold bind at 1. unfold lift at 1. rewrite (map_items_total dayKey ps Hps).
    reflexivity. }
  split; [ | split; [ | split; [ | split ] ] ].
  - intros Hnil. rewrite Hstep, Hnil. reflexivity.
  - intros Hsome res1 body1 draft draft_id res2 body2 W1 Hok1 Hj1 Hdraft Hid W2 Hok2 Hj2.
    unfold create_request, invoice_request in *.
    rewrite Hstep.
    destruct (Nat.eqb (length items) 0) eqn:E.
    + apply length_zero_iff_nil in E. contradiction.
    + unfold bind, createDraftOrder, bind.
      rewrite (shopify_ok world cfg _ _ h res1 body1 W1 Hok1 Hj1).
      unfold lift. rewrite Hdraft, Hid.
      rewrite (shopify_ok world cfg _ _ _ res2 body2 W2 Hok2 Hj2).
      unfold ret. rewrite <- app_assoc. reflexivity.
  - reflexivity.
  - reflexivity.
  - intros today. destruct today; reflexivity.
Qed.


(** ** The loop and the handler (lines 213-236) *)

Lemma run_loop_from_reached (dayKey : string) (fuel0 : nat) (h0 : history)
    (fuel : nat) (g : gen_state) (created : list job_record) (h : history) :
  run_reaches world cfg dayKey fuel0 h0 fuel g created h ->
  run_loop world cfg dayKey fuel0 GenStart [] h0 = run_loop world cfg dayKey fuel g created h.
Proof.
  induction 1 as [ | fuel g created h customer g' h1 created' h2 Hreach IH Hnext Hbody ].
  - reflexivity.
  - rewrite IH. cbn [run_loop]. unfold bind at 1. rewrite Hnext. cbn [fst snd].
    unfold bind at 1. rewrite Hbody. reflexivity.
Qed.

Lemma run_loop_turn_fails (dayKey : string) (fuel : nat) (g : gen_state)
    (created : list job_record) (h : history) (e : error) (h_fail : history) :
  turn_fails world cfg dayKey (S fuel) g created h e h_fail ->
  run_loop world cfg dayKey (S fuel) g created h = (Throw e, h_fail).
Proof.
  intros [Hgen | [customer [g' [h1 [Hnext Hbody]]]]]; cbn [run_loop]; unfold bind at 1.
  - now rewrite Hgen.
  - rewrite Hnext. cbn [fst snd]. unfold bind at 1. now rewrite Hbody.
Qed.

(** The body of a turn fails when its first remote call fails. *)
Lemma loop_body_call_fails (dayKey : string) (customer : value)
    (created : list job_record) (h : history) (e : error) (h' : history) :
  shopify world cfg (metafields_path customer) no_init h = (Throw e, h') ->
  loop_body world cfg dayKey customer created h = (Throw e, h').
Proof.
  intros Hcall. unfold loop_body, bind at 1. unfold getStanding, bind. now rewrite Hcall.
Qed.

(** C8.  Whatever the run has done so far (any number of completed turns,
    any [created]), when the next turn fails - the generator cannot list a
    page, or a remote call of the turn's body fails, or anything else in the
    body throws - the handler answers 500 with a body that holds only that
    error's message: [created] is not in it.  The history of the run ends
    where the failure occurred: no later customer is processed and no call
    undoes what earlier turns did. *)
Theorem run_aborts_on_first_failure
    (today : weekday) (fuel0 : nat) (h0 : history)
    (fuel : nat) (g : gen_state) (created : list job_record) (h : history)
    (e : error) (h_fail : history) :
  run_reaches world cfg (dayKey_of today) fuel0 h0 (S fuel) g created h ->
  turn_fails world cfg (dayKey_of today) (S fuel) g created h e h_fail ->
  run_standing_orders world cfg today fuel0 h0
  = (Some {| code := 500; payload := VObj [("error", VStr (err_message e))] |}, h_fail)
  /\ (forall customer h1 e1 h2,
        shopify world cfg (metafields_path customer) no_init h1 = (Throw e1, h2) ->
        loop_body world cfg (dayKey_of today) customer created h1 = (Throw e1, h2)).
Proof.
  intros Hreach Hfail. split.
  - unfold run_standing_orders.
    rewrite (run_loop_from_reached _ _ _ _ _ _ _ Hreach).
    rewrite (run_loop_turn_fails _ _ _ _ _ _ _ Hfail).
    reflexivity.
  - intros customer h1 e1 h2. apply loop_body_call_fails.
Qed.

End JobTheorems.

(* ================================================================== *)
(** * Concrete runs                                                    *)
(* ================================================================== *)


Section Runs.
Import Reference Examples.

Lemma float_neq_800_0 : 800%float <> 0%float.
Proof.
  intros H. assert (E : PrimFloat.eqb 800 0 = true) by (rewrite H; reflexivity).
  vm_compute in E. discriminate.
Qed.

Lemma fetchWithRetry_always_503_exhausts_witness :
  0 <= retries default_options
  /\ exists res h_last,
       fetchWithRetry (always unavailable) some_url no_init default_options []
       = (Ok res, h_last ++ [Fetched (request_of some_url no_init default_options)])
       /\ status res = 503
       /\ fetches (h_last ++ [Fetched (request_of some_url no_init default_options)])
          = repeat (request_of some_url no_init default_options) 3.
Proof.
  split; [ cbn; lia | ].
  destruct (fetchWithRetry_always_503_exhausts (always unavailable) some_url no_init
              default_options [])
    as [res [h_last [E [_ [St [F _]]]]]].
  - cbn; lia.
  - intros h0. eexists. split; reflexivity.
  - exists res, h_last. repeat split; assumption.
Defined.

Lemma fetchWithRetry_trailing_throw_unreachable_witness :
  0 <= retries default_options
  /\ fst (retry_loop (always unavailable) some_url no_init default_options
            (Z.to_nat (retries default_options + 1)) 0 [])
     <> LoopFellThrough.
Proof.
  split; [ cbn; lia | ].
  apply (fetchWithRetry_trailing_throw_unreachable (always unavailable) some_url no_init
           default_options []).
  cbn; lia.
Defined.

(** A 429 with [Retry-After: 2] on the first attempt: the delay is 2000 ms. *)
Lemma retry_delay_witness :
  0 < retries default_options
  /\ exists wait,
       attempt_once (always (rate_limited "2")) some_url no_init default_options 0 []
       = (IterContinue, [Fetched (request_of some_url no_init default_options); Slept wait])
       /\ wait = 2000%float.
Proof.
  split; [ cbn; lia | ].
  destruct (proj1 (retry_delay (always (rate_limited "2")) some_url no_init default_options
                     0 [] ltac:(cbn; lia))
              {| status := 429; res_headers := [("retry-after", "2")];
                 res_body := "Too Many Requests" |} eq_refl eq_refl eq_refl)
    as [wait [E [Hhonoured _]]].
  exists wait. split; [ exact E | ].
  rewrite Hhonoured; reflexivity.
Defined.

(** C6 fails as stated: a 429 that carries [Retry-After: 0] is followed by
    the exponential delay (800 ms at attempt 0), not by a delay of 0 seconds. *)
Lemma retry_after_zero_is_not_honoured :
  attempt_once (always (rate_limited "0")) some_url no_init default_options 0 []
  = (IterContinue, [Fetched (request_of some_url no_init default_options); Slept 800%float])
  /\ PrimFloat.mul (StringToNumber "0") 1000 = 0%float
  /\ 800%float <> 0%float.
Proof.
  split; [ vm_compute; reflexivity | split; [ vm_compute; reflexivity | ] ].
  exact float_neq_800_0.
Qed.

Lemma not_found_is_not_retried_witness :
  fetchWithRetry (always (refusal 404 [] "Not Found")) some_url no_init default_options []
  = (Ok {| status := 404; res_headers := []; res_body := "Not Found" |},
     [Fetched (request_of some_url no_init default_options)]).
Proof.
  apply (proj1 (not_found_is_not_retried (always (refusal 404 [] "Not Found")) cfg
                  some_url no_init default_options "/shop.json" []
                  {| status := 404; res_headers := []; res_body := "Not Found" |}
                  ltac:(cbn; lia) eq_refl)).
  reflexivity.
Defined.

(** ** verifyProxy *)

Lemma signature_of_signed (s : string) : signature_of (signed s) = Some s.
Proof. reflexivity. Qed.

Lemma params_of_signed (s : string) : params_of (signed s) = proxy_params.
Proof. reflexivity. Qed.

(** The computed signature is accepted; with its first character, [1],
    replaced by [2] it is rejected; with U+0131 in the place of that [1] it
    is accepted. *)
Lemma verifyProxy_accepts_the_digest_witness :
  APP_PROXY_SHARED_SECRET cfg = Some "hush"
  /\ signature_of (signed (sign "hush" proxy_params)) = Some (sign "hush" proxy_params)
  /\ verifyProxy cfg (signed (sign "hush" proxy_params)) = Ok true
  /\ verifyProxy cfg (signed (alter 0 "2" (sign "hush" proxy_params))) = Ok false
  /\ verifyProxy cfg (signed (with_dotless_i (sign "hush" proxy_params))) = Ok true.
Proof.
  split; [ reflexivity | split; [ apply signature_of_signed | split; [ | split ] ] ].
  - apply (proj1 (verifyProxy_accepts_the_digest cfg "hush"
                    (signed (sign "hush" proxy_params))
                    (sign "hush" proxy_params) eq_refl (signature_of_signed _))).
    now rewrite params_of_signed.
  - pose proof (verifyProxy_accepts_the_digest cfg "hush"
                  (signed (alter 0 "2" (sign "hush" proxy_params)))
                  (alter 0 "2" (sign "hush" proxy_params)) eq_refl (signature_of_signed _))
      as [_ [_ [Hnot [Hunit _]]]].
    rewrite params_of_signed in Hunit.
    apply Hnot. intros Htrue.
    apply (Hunit 0%nat 50 "1"%char) in Htrue.
    + vm_compute in Htrue. discriminate.
    + vm_compute. reflexivity.
    + vm_compute. reflexivity.
  - pose proof (verifyProxy_accepts_the_digest cfg "hush"
                  (signed (with_dotless_i (sign "hush" proxy_params)))
                  (with_dotless_i (sign "hush" proxy_params)) eq_refl
                  (signature_of_signed _))
      as [_ [_ [_ [Hunit _]]]].
    rewrite params_of_signed in Hunit.
    apply (Hunit 0%nat 305 "1"%char).
    + vm_compute. reflexivity.
    + vm_compute. reflexivity.
    + vm_compute. reflexivity.
Defined.

(** C3 fails as stated: the third character of the computed signature is the
    letter [b]; with [B] in its place the signature is another text and is
    still accepted.  So is the signature whose first character, [1], is
    replaced by U+0131, of which [Buffer.from] keeps the low byte 0x31. *)
Lemma altered_signature_still_accepted :
  sign "hush" (params_of (signed "")) = "13b5993d3c6997be9efc28def151b5288bf1177a494dc76dca7d600e3bd40816"
  /\ alter 2 "B" (sign "hush" proxy_params)
     = "13B5993d3c6997be9efc28def151b5288bf1177a494dc76dca7d600e3bd40816"
  /\ verifyProxy cfg (signed (alter 2 "B" (sign "hush" proxy_params))) = Ok true
  /\ Unicode.code_units (with_dotless_i (sign "hush" proxy_params))
     = Unicode.replace_nth 0 305 (Unicode.code_units (sign "hush" proxy_params))
  /\ verifyProxy cfg (signed (with_dotless_i (sign "hush" proxy_params))) = Ok true.
Proof. split; [ | split; [ | split; [ | split ] ] ]; vm_compute; reflexivity. Qed.

Lemma verifyProxy_failure_modes_witness :
  verifyProxy cfg (signed "zz") = Ok false
  /\ proxy_get (always unavailable) cfg_without_secret (signed "00") []
     = (Some (error_reply 500 invalid_key_message), []).
Proof.
  pose proof (verifyProxy_failure_modes (always unavailable) cfg (signed "zz") [])
    as [_ [Hset _]].
  pose proof (verifyProxy_failure_modes (always unavailable) cfg_without_secret
                (signed "00") [])
    as [_ [_ Hunset]].
  split.
  - destruct (Hset "hush" eq_refl) as [_ [Hlen _]].
    apply (Hlen "zz" (signature_of_signed _)). vm_compute. discriminate.
  - destruct (Hunset eq_refl "00" (signature_of_signed _) ltac:(discriminate))
      as [msg [Hthrow Hreply]].
    rewrite Hreply. vm_compute in Hthrow. inversion Hthrow. reflexivity.
Defined.

(** C4 fails as stated: with the secret unset and a signature present,
    [verifyProxy] throws; and a signature that is the computed one followed
    by [zz] - 66 characters, the last two not hexadecimal - is accepted. *)
Lemma verifyProxy_throws_or_accepts_malformed :
  (exists msg, verifyProxy cfg_without_secret (signed "00") = Throw (TypeError msg))
  /\ String.length (sign "hush" proxy_params +++ "zz") = 66%nat
  /\ verifyProxy cfg (signed (sign "hush" proxy_params +++ "zz")) = Ok true.
Proof.
  split; [ eexists; vm_compute; reflexivity | split; vm_compute; reflexivity ].
Qed.

(** ** iterateCustomers *)

Lemma three_pages_served :
  serves three_pages cfg None
    [(page_1, [VNum 1; VNum 2]); (page_2, [VNum 3]); (page_3, [VNum 4; VNum 5])]%float.
Proof.
  cbn [serves].
  repeat match goal with
         | |- _ /\ _ => split
         | |- forall h : history, _ => intros h; vm_compute; reflexivity
         | |- page_holds _ _ =>
             split; [ vm_compute; reflexivity | ];
             eexists _, _, _;
             split; [ vm_compute; reflexivity | ];
             split; [ vm_compute; reflexivity | ];
             split; [ vm_compute; reflexivity | ];
             repeat constructor
         | |- exists tok, _ => eexists; split; [ vm_compute; reflexivity | ]
         | |- match_next_link _ = None => vm_compute; reflexivity
         end.
Qed.

Lemma iterateCustomers_yields_every_page_witness :
  drain three_pages cfg 9 GenStart [] []
  = (Ok [VNum 1; VNum 2; VNum 3; VNum 4; VNum 5]%float,
     [Fetched (page_request cfg None); Yielded (VNum 1); Yielded (VNum 2);
      Fetched (page_request cfg (Some "p2")); Yielded (VNum 3);
      Fetched (page_request cfg (Some "p3")); Yielded (VNum 4); Yielded (VNum 5)]%float).
Proof.
  rewrite (iterateCustomers_yields_every_page three_pages cfg
             [(page_1, [VNum 1; VNum 2]); (page_2, [VNum 3]); (page_3, [VNum 4; VNum 5])]%float
             [] 9 three_pages_served ltac:(cbn; lia)).
  vm_compute. reflexivity.
Defined.

(** ** The daily job *)

Lemma getStanding_null_or_error_witness :
  getStanding (shop [] invoice_sent) cfg (VNum 7%float) []
  = (Ok VNull, [Fetched (admin_request cfg "/customers/7/metafields.json" no_init)]).
Proof.
  apply (proj1 (getStanding_null_or_error (shop [] invoice_sent) cfg (VNum 7%float) [])
           (VObj [("metafields", VArr [])]) _ (VArr [])).
  - vm_compute. reflexivity.
  - reflexivity.
  - right. exists []. split; [ reflexivity | constructor ].
Defined.

(** C2 fails as stated: with an entry stored under [standing]/[weekly],
    [getStanding] throws, whether the stored text is not JSON ([{oops]) or is
    the document of the scenario. *)
Lemma getStanding_throws_on_stored_entry :
  (exists msg, JSON_parse "{oops" = inr msg)
  /\ getStanding (shop [standing_entry "{oops"] invoice_sent) cfg (VNum 7%float) []
     = (Throw (ReferenceError "m is not defined"),
        [Fetched (admin_request cfg "/customers/7/metafields.json" no_init)])
  /\ JSON_parse (json_text nested_document) = inl nested_document
  /\ getStanding (shop [standing_entry (json_text nested_document)] invoice_sent) cfg
       (VNum 7%float) []
     = (Throw (ReferenceError "m is not defined"),
        [Fetched (admin_request cfg "/customers/7/metafields.json" no_init)]).
Proof.
  split; [ eexists; vm_compute; reflexivity | ].
  split; [ | split ]; vm_compute; reflexivity.
Qed.

Lemma place_order_reads_weekday_key_of_entry_witness :
  place_order (shop [] invoice_sent) cfg "mon" (VNum 7%float) flat_document [] []
  = (Ok [{| customerId := VNum 7%float; draftId := VNum 9001%float |}],
     [Fetched (create_request cfg (VNum 7%float)
                 [{| variantId := VNum 111%float; quantity := 2%float |}] "mon");
      Fetched (invoice_request cfg (VNum 9001%float))])
  /\ place_order (shop [] invoice_sent) cfg "tue" (VNum 7%float) flat_document [] []
     = (Ok [], []).
Proof.
  assert (Hps : Forall not_nullish flat_products)
    by (repeat constructor; discriminate).
  split.
  - apply (proj1 (proj2 (place_order_reads_weekday_key_of_entry (shop [] invoice_sent) cfg
                           "mon" (VNum 7%float) flat_document flat_products [] []
                           eq_refl eq_refl Hps))
             ltac:(discriminate)
             {| status := 201; res_headers := [];
                res_body := json_text (VObj [("draft_order", VObj [("id", VNum 9001%float)])]) |}
             (VObj [("draft_order", VObj [("id", VNum 9001%float)])])
             (VObj [("id", VNum 9001%float)])
             (VNum 9001%float)
             {| status := 200; res_headers := [];
                res_body := json_text (VObj [("draft_order_invoice", VObj [])]) |}
             (VObj [("draft_order_invoice", VObj [])]));
      vm_compute; reflexivity.
  - apply (proj1 (place_order_reads_weekday_key_of_entry (shop [] invoice_sent) cfg
                    "tue" (VNum 7%float) flat_document flat_products [] []
                    eq_refl eq_refl Hps)).
    reflexivity.
Defined.

(** C1 fails as stated: with the document of the scenario stored for
    customer 7, the run on a Monday answers 500 after the call that lists the
    customer's entries, and no draft order is posted; and the order step
    itself, handed that document, keeps no item on a Monday. *)
Lemma monday_run_creates_no_order :
  run_standing_orders (shop [standing_entry (json_text nested_document)] invoice_sent) cfg
    Monday 10 []
  = (Some (error_reply 500 "m is not defined"),
     [Fetched (page_request cfg None); Yielded (VNum 7%float);
      Fetched (admin_request cfg "/customers/7/metafields.json" no_init)])
  /\ JSON_parse (json_text nested_document) = inl nested_document
  /\ place_order (shop [] invoice_sent) cfg (dayKey_of Monday) (VNum 7%float)
       nested_document [] []
     = (Ok [], []).
Proof. split; [ | split ]; vm_compute; reflexivity. Qed.


Lemma run_aborts_on_first_failure_witness :
  let listed := [Fetched (page_request cfg None); Yielded (VNum 7%float)] in
  let skipped := listed ++ [Fetched (admin_request cfg "/customers/7/metafields.json" no_init)] in
  let h_fail :=
    skipped ++ [Yielded (VNum 8%float);
                Fetched (admin_request cfg "/customers/8/metafields.json" no_init)] in
  run_standing_orders two_customers cfg Monday 6 []
  = (Some {| code := 500;
             payload := VObj [("error",
                               VStr "Shopify 404 /customers/8/metafields.json: Not Found")] |},
     h_fail).
Proof.
  intros listed skipped h_fail.
  assert (Hreach : run_reaches two_customers cfg (dayKey_of Monday) 6 [] 5
                     (GenInPage [VObj [("id", VNum 8%float)]] "") [] skipped).
  { apply (reach_turn two_customers cfg (dayKey_of Monday) 6 [] 5 GenStart [] []
             (VNum 7%float) (GenInPage [VObj [("id", VNum 8%float)]] "") listed [] skipped).
    - apply reach_start.
    - vm_compute. reflexivity.
    - vm_compute. reflexivity. }
  assert (Hfail : turn_fails two_customers cfg (dayKey_of Monday) 5
                    (GenInPage [VObj [("id", VNum 8%float)]] "") [] skipped
                    (Error "Shopify 404 /customers/8/metafields.json: Not Found") h_fail).
  { right. exists (VNum 8%float), (GenInPage [] ""), (skipped ++ [Yielded (VNum 8%float)]).
    split; vm_compute; reflexivity. }
  exact (proj1 (run_aborts_on_first_failure two_customers cfg Monday 6 [] 4
                  (GenInPage [VObj [("id", VNum 8%float)]] "") [] skipped
                  (Error "Shopify 404 /customers/8/metafields.json: Not Found") h_fail
                  Hreach Hfail)).
Defined.

End Runs.

(* ================================================================== *)
(** * fetchWithRetry: bounds, persistent and transient failures        *)
(* ================================================================== *)

Section RetryBounds.
Context {rt : Runtime}.
Variable world : remote.
Variables (url : string) (init : fetch_init) (opts : retry_options).

Local Abbreviation rq := (request_of url init opts).

Lemma exponential_delays_S (attempt : Z) (count : nat) :
  exponential_delays opts attempt (S count)
  = PrimFloat.mul (backoffMs opts) (pow2 attempt) :: exponential_delays opts (attempt + 1) count.
Proof.
  unfold exponential_delays. cbn [seq map]. rewrite Z.add_0_r. f_equal.
  rewrite <- seq_shift, map_map. apply map_ext. intros k.
  do 2 f_equal. lia.
Qed.

(** Whatever the remote side does, the loop calls [fetch] with the same
    request each time, at most once per turn, and asks for one delay between
    two calls. *)
Lemma retry_loop_calls (turns : nat) :
  forall (attempt : Z) (h : history) (r : loop_exit) (h' : history),
    retry_loop world url init opts turns attempt h = (r, h') ->
    exists n,
      (n <= turns)%nat
      /\ fetches h' = fetches h ++ repeat rq n
      /\ (r <> LoopFellThrough ->
          (0 < n)%nat /\ length (sleeps h') = (length (sleeps h) + (n - 1))%nat)
      /\ (r = LoopFellThrough -> length (sleeps h') = (length (sleeps h) + n)%nat).
Proof.
  induction turns as [ | turns IH ]; intros attempt h r h'; cbn [retry_loop].
  - intros H. inversion H; subst. exists 0%nat. cbn. rewrite app_nil_r.
    repeat split; try lia. congruence.
  - assert (Hdone : forall x, x <> LoopFellThrough ->
              (x, h ++ [Fetched rq]) = (r, h') ->
              exists n, (n <= S turns)%nat
                /\ fetches h' = fetches h ++ repeat rq n
                /\ (r <> LoopFellThrough ->
                    (0 < n)%nat /\ length (sleeps h') = (length (sleeps h) + (n - 1))%nat)
                /\ (r = LoopFellThrough -> length (sleeps h') = (length (sleeps h) + n)%nat)).
    { intros x Hx H. inversion H; subst. exists 1%nat.
      rewrite fetches_app, sleeps_app. cbn. rewrite app_nil_r.
      repeat split; try lia. congruence. }
    assert (Hmore : forall w,
              retry_loop world url init opts turns (attempt + 1)
                ((h ++ [Fetched rq]) ++ [Slept w]) = (r, h') ->
              exists n, (n <= S turns)%nat
                /\ fetches h' = fetches h ++ repeat rq n
                /\ (r <> LoopFellThrough ->
                    (0 < n)%nat /\ length (sleeps h') = (length (sleeps h) + (n - 1))%nat)
                /\ (r = LoopFellThrough -> length (sleeps h') = (length (sleeps h) + n)%nat)).
    { intros w H. apply IH in H. destruct H as [n [Hn [F [S1 S2]]]].
      exists (S n). rewrite F, !fetches_app. cbn. rewrite app_nil_r, <- app_assoc.
      assert (Hs : length (sleeps ((h ++ [Fetched rq]) ++ [Slept w]))
                   = S (length (sleeps h)))
        by (rewrite !sleeps_app, !length_app; cbn; lia).
      rewrite Hs in S1, S2.
      split; [ lia | split; [ reflexivity | split ] ].
      - intros Hr. destruct (S1 Hr) as [Hpos E]. lia.
      - intros Hr. specialize (S2 Hr). lia. }
    unfold attempt_once.
    destruct (world h rq) as [res | err].
    + destruct (negb (res_ok res) && retryable res && (attempt <? retries opts)).
      * apply Hmore.
      * apply Hdone. discriminate.
    + destruct (attempt >=? retries opts).
      * apply Hdone. discriminate.
      * apply Hmore.
Qed.

Lemma fetches_attempts (delays : list float) :
  fetches (attempts rq delays) = repeat rq (S (length delays)).
Proof.
  induction delays as [ | w ws IH ]; [ reflexivity | ].
  cbn [attempts length]. change (fetches (Fetched rq :: Slept w :: attempts rq ws))
    with (rq :: fetches (attempts rq ws)).
  now rewrite IH.
Qed.

Lemma sleeps_attempts (delays : list float) : sleeps (attempts rq delays) = delays.
Proof.
  induction delays as [ | w ws IH ]; [ reflexivity | ].
  cbn [attempts]. change (sleeps (Fetched rq :: Slept w :: attempts rq ws))
    with (w :: sleeps (attempts rq ws)).
  now rewrite IH.
Qed.

(** The events of the loop, when it ends by a response or by an error: calls
    and delays alternate, starting and ending with a call. *)
Lemma retry_loop_shape (turns : nat) :
  forall (attempt : Z) (h : history) (r : loop_exit) (h' : history),
    retry_loop world url init opts turns attempt h = (r, h') ->
    r <> LoopFellThrough ->
    exists delays, (length delays < turns)%nat /\ h' = h ++ attempts rq delays.
Proof.
  induction turns as [ | turns IH ]; intros attempt h r h'; cbn [retry_loop].
  - intros H Hr. inversion H; subst. congruence.
  - assert (Hdone : forall x,
              (x, h ++ [Fetched rq]) = (r, h') ->
              r <> LoopFellThrough ->
              exists delays, (length delays < S turns)%nat /\ h' = h ++ attempts rq delays).
    { intros x H _. inversion H; subst. exists []. cbn. split; [ lia | reflexivity ]. }
    assert (Hmore : forall w,
              retry_loop world url init opts turns (attempt + 1)
                ((h ++ [Fetched rq]) ++ [Slept w]) = (r, h') ->
              r <> LoopFellThrough ->
              exists delays, (length delays < S turns)%nat /\ h' = h ++ attempts rq delays).
    { intros w H Hr. destruct (IH _ _ _ _ H Hr) as [delays [Hlen E]].
      exists (w :: delays). cbn [length attempts]. split; [ lia | ].
      rewrite E, <- !app_assoc. reflexivity. }
    unfold attempt_once.
    destruct (world h rq) as [res | err].
    + destruct (negb (res_ok res) && retryable res && (attempt <? retries opts)).
      * apply Hmore.
      * apply Hdone.
    + destruct (attempt >=? retries opts).
      * apply Hdone.
      * apply Hmore.
Qed.

(** X2.  For every remote side and every policy with [retries >= 0], the
    events of a call of [fetchWithRetry] that ends are: a call of [fetch], then
    a delay and another call for each retry, at most [retries] times.  So
    every call is the same request, there is exactly one delay between two
    consecutive calls, none before the first call and none after the last,
    and there are between 1 and [retries + 1] calls. *)
Theorem fetchWithRetry_call_bound (h : history) (o : outcome response) (h' : history) :
  0 <= retries opts ->
  fetchWithRetry world url init opts h = (o, h') ->
  exists delays,
    (length delays <= Z.to_nat (retries opts))%nat
    /\ h' = h ++ attempts rq delays
    /\ fetches h' = fetches h ++ repeat rq (S (length delays))
    /\ sleeps h' = sleeps h ++ delays.
Proof.
  intros Hretries. unfold fetchWithRetry.
  destruct (retry_loop world url init opts (Z.to_nat (retries opts + 1)) 0 h)
    as [x h1] eqn:E.
  pose proof (retry_loop_never_falls_through world url init opts
                (Z.to_nat (retries opts + 1)) 0 h ltac:(lia) ltac:(lia)) as Hnot.
  rewrite E in Hnot. cbn [fst] in Hnot.
  destruct (retry_loop_shape _ _ _ _ _ E Hnot) as [delays [Hlen Eh]].
  intros H. assert (Hh : h1 = h') by (destruct x; inversion H; reflexivity).
  rewrite Hh in Eh.
  exists delays. split; [ lia | split; [ exact Eh | ] ].
  rewrite Eh, fetches_app, sleeps_app, fetches_attempts, sleeps_attempts. auto.
Qed.

(** When every attempt fails and calls for the exponential delay, the loop
    uses all its turns; the delays double from one retry to the next. *)
Lemma retry_loop_all_fail (turns : nat) :
  (forall h0, plain_failure (world h0 rq)) ->
  forall (attempt : Z) (h : history),
    attempt + Z.of_nat (S turns) = retries opts + 1 ->
    exists r h_last,
      retry_loop world url init opts (S turns) attempt h = (r, h_last ++ [Fetched rq])
      /\ match r with
         | LoopReturn res => world h_last rq = Responded res
         | LoopThrow e => world h_last rq = Failed e
         | LoopFellThrough => False
         end
      /\ fetches (h_last ++ [Fetched rq]) = fetches h ++ repeat rq (S turns)
      /\ sleeps (h_last ++ [Fetched rq]) = sleeps h ++ exponential_delays opts attempt turns.
Proof.
  intros Hworld.
  induction turns as [ | turns IH ]; intros attempt h Hsum.
  - cbn [retry_loop]. unfold attempt_once.
    replace (attempt <? retries opts) with false by (symmetry; apply Z.ltb_ge; lia).
    replace (attempt >=? retries opts) with true by (symmetry; rewrite Z.geb_leb; apply Z.leb_le; lia).
    destruct (world h rq) as [res | err] eqn:W.
    + rewrite andb_false_r.
      exists (LoopReturn res), h. rewrite fetches_app, sleeps_app. cbn.
      rewrite !app_nil_r. repeat split; auto.
    + exists (LoopThrow err), h. rewrite fetches_app, sleeps_app. cbn.
      rewrite !app_nil_r. repeat split; auto.
  - cbn [retry_loop]. unfold attempt_once at 1.
    replace (attempt <? retries opts) with true by (symmetry; apply Z.ltb_lt; lia).
    replace (attempt >=? retries opts) with false
      by (symmetry; rewrite Z.geb_leb; apply Z.leb_gt; lia).
    assert (Hnext : forall w, w = PrimFloat.mul (backoffMs opts) (pow2 attempt) ->
              exists r h_last,
                retry_loop world url init opts (S turns) (attempt + 1)
                  ((h ++ [Fetched rq]) ++ [Slept w]) = (r, h_last ++ [Fetched rq])
                /\ match r with
                   | LoopReturn res => world h_last rq = Responded res
                   | LoopThrow e => world h_last rq = Failed e
                   | LoopFellThrough => False
                   end
                /\ fetches (h_last ++ [Fetched rq]) = fetches h ++ repeat rq (S (S turns))
                /\ sleeps (h_last ++ [Fetched rq])
                   = sleeps h ++ exponential_delays opts attempt (S turns)).
    { intros w Hw.
      destruct (IH (attempt + 1) ((h ++ [Fetched rq]) ++ [Slept w]) ltac:(lia))
        as [r [h_last [R [Hr [F S]]]]].
      exists r, h_last. repeat split; try assumption.
      - rewrite F, !fetches_app. cbn. rewrite app_nil_r, <- app_assoc. reflexivity.
      - rewrite S, !sleeps_app, exponential_delays_S. cbn.
        rewrite app_nil_r, <- app_assoc. subst w. reflexivity. }
    destruct (Hworld h) as [[e W] | [res [W [Hok [Hre Hhdr]]]]]; rewrite W.
    + apply Hnext. reflexivity.
    + rewrite Hok, Hre. cbn [negb andb]. apply Hnext.
      unfold retry_after_wait, header_get. rewrite Hhdr. reflexivity.
Qed.

(** X3.  When [fetch] throws at every attempt (and [retries >= 0]),
    [fetchWithRetry] calls it [retries + 1] times, waits
    [backoffMs * 2^k] before retry [k + 1] (k = 0, 1, ...), and throws the
    error of the last attempt. *)
Theorem fetchWithRetry_persistent_rejection (h : history) :
  0 <= retries opts ->
  (forall h0, exists e, world h0 rq = Failed e) ->
  exists e h_last,
    fetchWithRetry world url init opts h = (Throw e, h_last ++ [Fetched rq])
    /\ world h_last rq = Failed e
    /\ fetches (h_last ++ [Fetched rq]) = fetches h ++ repeat rq (Z.to_nat (retries opts + 1))
    /\ sleeps (h_last ++ [Fetched rq])
       = sleeps h ++ exponential_delays opts 0 (Z.to_nat (retries opts)).
Proof.
  intros Hretries Hworld.
  unfold fetchWithRetry.
  replace (Z.to_nat (retries opts + 1)) with (S (Z.to_nat (retries opts))) by lia.
  destruct (retry_loop_all_fail (Z.to_nat (retries opts))
              (fun h0 => or_introl (Hworld h0)) 0 h ltac:(lia))
    as [r [h_last [R [Hr [F S]]]]].
  rewrite R.
  destruct r as [res | e | ]; [ | | contradiction ].
  - destruct (Hworld h_last) as [e W]. congruence.
  - exists e, h_last. repeat split; assumption.
Qed.

(** The loop recovers from [k] transient failures when it has turns left. *)
Lemma retry_loop_recovers (k : nat) :
  forall (turns : nat) (attempt : Z) (h : history) (res : response),
    attempt + Z.of_nat turns = retries opts + 1 ->
    (k < turns)%nat ->
    (forall h0, (length (fetches h0) < length (fetches h) + k)%nat -> transient (world h0 rq)) ->
    (forall h0, length (fetches h0) = (length (fetches h) + k)%nat ->
                world h0 rq = Responded res) ->
    res_ok res = true ->
    exists h_last,
      retry_loop world url init opts turns attempt h = (LoopReturn res, h_last ++ [Fetched rq])
      /\ fetches (h_last ++ [Fetched rq]) = fetches h ++ repeat rq (S k)
      /\ length (sleeps (h_last ++ [Fetched rq])) = (length (sleeps h) + k)%nat.
Proof.
  induction k as [ | k IH ]; intros turns attempt h res Hsum Hk Hfail Hlast Hok.
  - destruct turns as [ | turns ]; [ lia | ].
    cbn [retry_loop]. unfold attempt_once.
    rewrite (Hlast h) by lia. rewrite Hok. cbn [negb andb].
    exists h. rewrite fetches_app, sleeps_app. cbn. rewrite !app_nil_r.
    repeat split; lia.
  - destruct turns as [ | turns ]; [ lia | ].
    cbn [retry_loop]. unfold attempt_once at 1.
    replace (attempt <? retries opts) with true by (symmetry; apply Z.ltb_lt; lia).
    replace (attempt >=? retries opts) with false
      by (symmetry; rewrite Z.geb_leb; apply Z.leb_gt; lia).
    assert (Hnext : forall w,
              exists h_last,
                retry_loop world url init opts turns (attempt + 1)
                  ((h ++ [Fetched rq]) ++ [Slept w]) = (LoopReturn res, h_last ++ [Fetched rq])
                /\ fetches (h_last ++ [Fetched rq]) = fetches h ++ repeat rq (S (S k))
                /\ length (sleeps (h_last ++ [Fetched rq])) = (length (sleeps h) + S k)%nat).
    { intros w.
      assert (Hlen : length (fetches ((h ++ [Fetched rq]) ++ [Slept w]))
                     = S (length (fetches h))).
      { rewrite !fetches_app, !length_app. cbn. lia. }
      destruct (IH turns (attempt + 1) ((h ++ [Fetched rq]) ++ [Slept w]) res) as [h_last [R [F S]]].
      - lia.
      - lia.
      - intros h0 Hh0. apply Hfail. rewrite Hlen in Hh0. lia.
      - intros h0 Hh0. apply Hlast. rewrite Hlen in Hh0. lia.
      - exact Hok.
      - exists h_last. repeat split; try assumption.
        + rewrite F, !fetches_app. cbn. rewrite app_nil_r, <- app_assoc. reflexivity.
        + rewrite S, !sleeps_app, !length_app. cbn. lia. }
    destruct (Hfail h ltac:(lia)) as [[e W] | [res0 [W [Hok0 Hre0]]]]; rewrite W.
    + apply Hnext.
    + rewrite Hok0, Hre0. cbn [negb andb]. apply Hnext.
Qed.

(** X4.  When the first [k] attempts of a call fail in a way that may be
    retried (a rejection, a 429 or a 5xx) and the next one is answered by an
    OK response, with [k <= retries], [fetchWithRetry] returns that response
    after exactly [k + 1] calls and [k] delays. *)
Theorem fetchWithRetry_recovers (k : nat) (h : history) (res : response) :
  Z.of_nat k <= retries opts ->
  (forall h0, (length (fetches h0) < length (fetches h) + k)%nat -> transient (world h0 rq)) ->
  (forall h0, length (fetches h0) = (length (fetches h) + k)%nat ->
              world h0 rq = Responded res) ->
  res_ok res = true ->
  exists h_last,
    fetchWithRetry world url init opts h = (Ok res, h_last ++ [Fetched rq])
    /\ fetches (h_last ++ [Fetched rq]) = fetches h ++ repeat rq (S k)
    /\ length (sleeps (h_last ++ [Fetched rq])) = (length (sleeps h) + k)%nat.
Proof.
  intros Hk Hfail Hlast Hok.
  unfold fetchWithRetry.
  destruct (retry_loop_recovers k (Z.to_nat (retries opts + 1)) 0 h res
              ltac:(lia) ltac:(lia) Hfail Hlast Hok) as [h_last [R [F S]]].
  exists h_last. rewrite R. repeat split; assumption.
Qed.

(** X5.  The [throw] after the loop (line 73) is reached exactly when
    [retries] is negative; [fetch] is then never called. *)
Theorem fetchWithRetry_exhausted_iff_negative (h : history) :
  (fst (retry_loop world url init opts (Z.to_nat (retries opts + 1)) 0 h) = LoopFellThrough
   <-> retries opts < 0)
  /\ (retries opts < 0 ->
      fetchWithRetry world url init opts h
      = (Throw (Error "fetchWithRetry exhausted attempts"), h)).
Proof.
  split; [ split | ].
  - intros Hfell.
    destruct (Z.lt_ge_cases (retries opts) 0) as [Hneg | Hpos]; [ exact Hneg | ].
    exfalso.
    apply (retry_loop_never_falls_through world url init opts
             (Z.to_nat (retries opts + 1)) 0 h); [ lia | lia | exact Hfell ].
  - intros Hneg.
    replace (Z.to_nat (retries opts + 1)) with 0%nat by lia. reflexivity.
  - intros Hneg. unfold fetchWithRetry.
    replace (Z.to_nat (retries opts + 1)) with 0%nat by lia. reflexivity.
Qed.

End RetryBounds.

(* ================================================================== *)
(** * shopify: how a call ends                                         *)
(* ================================================================== *)

Section AdminCalls.
Context {rt : Runtime}.
Variable world : remote.
Variable cfg : config.

(** An error that the loop throws is the rejection of the last call. *)
Lemma retry_loop_throws_last (url : string) (init : fetch_init) (opts : retry_options)
    (turns : nat) :
  forall attempt h e h',
    retry_loop world url init opts turns attempt h = (LoopThrow e, h') ->
    exists h_last,
      h' = h_last ++ [Fetched (request_of url init opts)]
      /\ world h_last (request_of url init opts) = Failed e.
Proof.
  induction turns as [ | turns IH ]; intros attempt h e h'; cbn [retry_loop].
  - discriminate.
  - unfold attempt_once.
    destruct (world h (request_of url init opts)) as [res0 | err] eqn:W.
    + destruct (negb (res_ok res0) && retryable res0 && (attempt <? retries opts)).
      * apply IH.
      * discriminate.
    + destruct (attempt >=? retries opts).
      * intros H. inversion H; subst. now exists h.
      * apply IH.
Qed.

(** The calls of one [shopify]: between one and four, all the same. *)
Lemma shopify_calls (path : string) (init : fetch_init) (h : history)
    (o : outcome value) (h' : history) :
  shopify world cfg path init h = (o, h') ->
  exists n,
    (1 <= n <= 4)%nat
    /\ fetches h' = fetches h ++ repeat (admin_request cfg path init) n.
Proof.
  unfold shopify, bind.
  destruct (fetchWithRetry world (admin_url cfg path) (admin_init cfg init) admin_options h)
    as [x h1] eqn:E.
  unfold fetchWithRetry in E.
  destruct (retry_loop world (admin_url cfg path) (admin_init cfg init) admin_options
              (Z.to_nat (retries admin_options + 1)) 0 h) as [r h2] eqn:R.
  pose proof (retry_loop_never_falls_through world (admin_url cfg path) (admin_init cfg init)
                admin_options (Z.to_nat (retries admin_options + 1)) 0 h
                ltac:(cbn; lia) ltac:(cbn; lia)) as Hnot.
  rewrite R in Hnot. cbn [fst] in Hnot.
  apply retry_loop_calls in R. destruct R as [n [Hn [F [S1 _]]]].
  destruct (S1 Hnot) as [Hpos _].
  assert (h2 = h1) by (destruct r; now inversion E). subst h2.
  intros H.
  assert (h1 = h').
  { destruct x as [res | e | ]; [ destruct (negb (res_ok res)) | | ];
      unfold throw, lift in H; now inversion H. }
  subst h1. exists n. split; [ cbn in Hn; lia | exact F ].
Qed.

(** A call of [shopify] ends: the model never leaves it without a result. *)
Lemma shopify_ends (path : string) (init : fetch_init) (h h' : history) :
  shopify world cfg path init h <> (Diverge, h').
Proof.
  unfold shopify, bind, fetchWithRetry.
  pose proof (retry_loop_never_falls_through world (admin_url cfg path) (admin_init cfg init)
                admin_options (Z.to_nat (retries admin_options + 1)) 0 h
                ltac:(cbn; lia) ltac:(cbn; lia)) as Hnot.
  destruct (retry_loop world (admin_url cfg path) (admin_init cfg init) admin_options
              (Z.to_nat (retries admin_options + 1)) 0 h) as [r h1].
  cbn [fst] in Hnot.
  destruct r as [res | e | ]; [ | discriminate | contradiction ].
  destruct (negb (res_ok res)); unfold throw, lift, res_json; [ discriminate | ].
  destruct (JSON_parse (res_body res)); discriminate.
Qed.

(** X6.  A call of [shopify] that ends has called [fetch] one to four times,
    each time with the same request, and its result is decided by the answer
    to the last of these calls: a rejection is thrown again as it is; a
    response that is not OK gives the error [Shopify <status> <path>:
    <body>]; an OK response gives its body parsed as JSON, or the
    [SyntaxError] of [JSON.parse].  A response is taken with its body. *)
Theorem shopify_outcomes (path : string) (init : fetch_init) (h : history)
    (o : outcome value) (h' : history) :
  shopify world cfg path init h = (o, h') ->
  (exists n, (1 <= n <= 4)%nat
             /\ fetches h' = fetches h ++ repeat (admin_request cfg path init) n)
  /\ exists h_last,
       h' = h_last ++ [Fetched (admin_request cfg path init)]
       /\ (forall e, world h_last (admin_request cfg path init) = Failed e -> o = Throw e)
       /\ (forall res,
             world h_last (admin_request cfg path init) = Responded res ->
             o = if negb (res_ok res)
                 then Throw (Error ("Shopify " +++ decimal (status res) +++ " " +++ path
                                      +++ ": " +++ res_body res))
                 else match JSON_parse (res_body res) with
                      | inl v => Ok v
                      | inr msg => Throw (SyntaxError msg)
                      end).
Proof.
  intros Hcall. split; [ exact (shopify_calls path init h o h' Hcall) | ].
  revert Hcall. unfold shopify, bind, fetchWithRetry.
  destruct (retry_loop world (admin_url cfg path) (admin_init cfg init) admin_options
              (Z.to_nat (retries admin_options + 1)) 0 h) as [x h1] eqn:E.
  destruct x as [res0 | err | ].
  - apply retry_loop_returns_last in E. destruct E as [h_last [E [W _]]].
    fold (admin_request cfg path init) in W, E.
    intros H. exists h_last.
    assert (Eh : h1 = h').
    { destruct (negb (res_ok res0)); unfold throw, lift in H; [ now inversion H | ].
      destruct (res_json res0); now inversion H. }
    split; [ congruence | split ].
    + intros e We. congruence.
    + intros res Wres. assert (res = res0) by congruence. subst res.
      destruct (negb (res_ok res0)); unfold throw, lift, res_json in H.
      * now inversion H.
      * destruct (JSON_parse (res_body res0)); now inversion H.
  - apply retry_loop_throws_last in E. destruct E as [h_last [E W]].
    fold (admin_request cfg path init) in W, E.
    intros H. inversion H; subst. exists h_last.
    split; [ reflexivity | split ].
    + intros e We. congruence.
    + intros res Wres. congruence.
  - exfalso.
    apply (retry_loop_never_falls_through world (admin_url cfg path) (admin_init cfg init)
             admin_options (Z.to_nat (retries admin_options + 1)) 0 h);
      [ cbn; lia | cbn; lia | now rewrite E ].
Qed.

(** X7.  Against a remote side that answers 503 without a [retry-after]
    header to every attempt, [shopify] calls [fetch] four times, waits 1000,
    2000 and 4000 ms between the calls, and throws
    [Shopify 503 <path>: <body>] with the body of the last response. *)
Theorem shopify_gives_up_on_503 (path : string) (init : fetch_init) (h : history) :
  (forall h0, exists res,
      world h0 (admin_request cfg path init) = Responded res
      /\ status res = 503
      /\ assoc "retry-after" (res_headers res) = None) ->
  exists res h_last,
    shopify world cfg path init h
    = (Throw (Error ("Shopify 503 " +++ path +++ ": " +++ res_body res)),
       h_last ++ [Fetched (admin_request cfg path init)])
    /\ world h_last (admin_request cfg path init) = Responded res
    /\ fetches (h_last ++ [Fetched (admin_request cfg path init)])
       = fetches h ++ repeat (admin_request cfg path init) 4
    /\ sleeps (h_last ++ [Fetched (admin_request cfg path init)])
       = sleeps h ++ [1000; 2000; 4000]%float.
Proof.
  intros Hworld.
  assert (Hplain : forall h0,
             plain_failure (world h0 (request_of (admin_url cfg path) (admin_init cfg init)
                                        admin_options))).
  { intros h0. destruct (Hworld h0) as [res [W [St Hhdr]]].
    right. exists res. unfold res_ok, retryable. rewrite St. auto. }
  destruct (retry_loop_all_fail world (admin_url cfg path) (admin_init cfg init)
              admin_options 3 Hplain 0 h ltac:(reflexivity))
    as [r [h_last [R [Hr [F S]]]]].
  destruct r as [res | e | ]; [ | | contradiction ].
  - exists res, h_last.
    destruct (Hworld h_last) as [res' [W [St _]]].
    unfold admin_request in W. rewrite Hr in W. inversion W; subst res'.
    unfold shopify, bind, fetchWithRetry.
    change (Z.to_nat (retries admin_options + 1)) with 4%nat.
    rewrite R. unfold res_ok. rewrite St. cbn [Z.leb Z.compare Pos.compare Pos.compare_cont andb negb].
    unfold throw. repeat split; try assumption.
  - destruct (Hworld h_last) as [res' [W _]]. unfold admin_request in W. congruence.
Qed.

End AdminCalls.

(* ================================================================== *)
(** * verifyProxy: order of the parameters, case of the signature      *)
(* ================================================================== *)

Section SortedKeys.

Lemma string_compare_trans (a : string) :
  forall b c, String.compare a b <> Gt -> String.compare b c <> Gt -> String.compare a c <> Gt.
Proof.
  induction a as [ | x a IH ]; intros [ | y b ] [ | z c ]; cbn; try congruence.
  unfold Ascii.compare.
  destruct (N.compare_spec (N_of_ascii x) (N_of_ascii y)) as [Exy | Lxy | Gxy];
    destruct (N.compare_spec (N_of_ascii y) (N_of_ascii z)) as [Eyz | Lyz | Gyz];
    destruct (N.compare_spec (N_of_ascii x) (N_of_ascii z)) as [Exz | Lxz | Gxz];
    try congruence; try lia.
  apply IH.
Qed.

Lemma string_leb_trans (a b c : string) :
  String.leb a b = true -> String.leb b c = true -> String.leb a c = true.
Proof.
  unfold String.leb. intros Hab Hbc.
  pose proof (string_compare_trans a b c) as H.
  destruct (String.compare a b); destruct (String.compare b c);
    destruct (String.compare a c); try reflexivity; try discriminate;
    exfalso; apply H; congruence.
Qed.

Lemma compare_units_eq (a : list Z) :
  forall b, Unicode.compare_units a b = Eq -> a = b.
Proof.
  induction a as [ | x a IH ]; intros [ | y b ]; cbn; try congruence.
  destruct (Z.compare_spec x y) as [E | L | G]; try discriminate.
  intros H. subst y. now rewrite (IH b H).
Qed.

Lemma compare_units_refl (a : list Z) : Unicode.compare_units a a = Eq.
Proof. induction a as [ | x a IH ]; cbn; [ reflexivity | now rewrite Z.compare_refl ]. Qed.

Lemma compare_units_opp (a : list Z) :
  forall b, Unicode.compare_units b a = CompOpp (Unicode.compare_units a b).
Proof.
  induction a as [ | x a IH ]; intros [ | y b ]; cbn; try reflexivity.
  rewrite (Z.compare_antisym x y).
  destruct (Z.compare x y); cbn; [ apply IH | reflexivity | reflexivity ].
Qed.

Lemma compare_units_lt_trans (a : list Z) :
  forall b c,
    Unicode.compare_units a b = Lt -> Unicode.compare_units b c = Lt ->
    Unicode.compare_units a c = Lt.
Proof.
  induction a as [ | x a IH ]; intros [ | y b ] [ | z c ]; cbn; try congruence.
  destruct (Z.compare_spec x y) as [Exy | Lxy | Gxy];
    destruct (Z.compare_spec y z) as [Eyz | Lyz | Gyz];
    destruct (Z.compare_spec x z) as [Exz | Lxz | Gxz];
    try congruence; try lia.
  apply IH.
Qed.

Lemma key_leb_total (a b : string) : key_leb a b = false -> key_leb b a = true.
Proof.
  unfold key_leb. rewrite (compare_units_opp (Unicode.code_units a) (Unicode.code_units b)).
  destruct (Unicode.compare_units (Unicode.code_units a) (Unicode.code_units b));
    cbn [CompOpp]; try congruence.
  intros H. destruct (String.leb_total a b) as [E | E]; congruence.
Qed.

Lemma key_leb_antisym (a b : string) : key_leb a b = true -> key_leb b a = true -> a = b.
Proof.
  unfold key_leb. rewrite (compare_units_opp (Unicode.code_units a) (Unicode.code_units b)).
  destruct (Unicode.compare_units (Unicode.code_units a) (Unicode.code_units b));
    cbn [CompOpp]; try congruence.
  apply String.leb_antisym.
Qed.

Lemma key_leb_trans (a b c : string) :
  key_leb a b = true -> key_leb b c = true -> key_leb a c = true.
Proof.
  unfold key_leb.
  destruct (Unicode.compare_units (Unicode.code_units a) (Unicode.code_units b)) eqn:Hab;
    destruct (Unicode.compare_units (Unicode.code_units b) (Unicode.code_units c)) eqn:Hbc;
    try discriminate.
  - apply compare_units_eq in Hab. apply compare_units_eq in Hbc.
    rewrite Hab, Hbc, compare_units_refl. apply string_leb_trans.
  - apply compare_units_eq in Hab. rewrite Hab, Hbc. reflexivity.
  - apply compare_units_eq in Hbc. rewrite <- Hbc, Hab. reflexivity.
  - now rewrite (compare_units_lt_trans _ _ _ Hab Hbc).
Qed.

(** Inserting two keys in either order gives the same sorted list. *)
Lemma insert_sorted_comm (a b : string) (l : list string) :
  insert_sorted a (insert_sorted b l) = insert_sorted b (insert_sorted a l).
Proof.
  induction l as [ | x l IH ]; cbn [insert_sorted].
  - destruct (key_leb a b) eqn:Hab; destruct (key_leb b a) eqn:Hba; try reflexivity.
    + now rewrite (key_leb_antisym a b Hab Hba).
    + apply key_leb_total in Hab. congruence.
  - destruct (key_leb b x) eqn:Hbx; destruct (key_leb a x) eqn:Hax;
      cbn [insert_sorted]; rewrite ?Hbx, ?Hax.
    + destruct (key_leb a b) eqn:Hab; destruct (key_leb b a) eqn:Hba; try reflexivity.
      * now rewrite (key_leb_antisym a b Hab Hba).
      * apply key_leb_total in Hab. congruence.
    + destruct (key_leb a b) eqn:Hab; [ | reflexivity ].
      rewrite (key_leb_trans a b x Hab Hbx) in Hax. discriminate.
    + destruct (key_leb b a) eqn:Hba; [ | reflexivity ].
      rewrite (key_leb_trans b a x Hba Hax) in Hbx. discriminate.
    + now rewrite IH.
Qed.

(** [sort()] gives the same list for the same keys in any order. *)
Lemma sort_keys_permutation (l l' : list string) :
  Permutation l l' -> sort_keys l = sort_keys l'.
Proof.
  unfold sort_keys.
  induction 1 as [ | x l l' Hperm IH | x y l | l l' l'' H1 IH1 H2 IH2 ]; cbn [fold_right].
  - reflexivity.
  - now rewrite IH.
  - apply insert_sorted_comm.
  - now rewrite IH1.
Qed.

Lemma assoc_not_in {A} (k : string) (l : list (string * A)) :
  ~ In k (map fst l) -> assoc k l = None.
Proof.
  induction l as [ | [k' v] l IH ]; cbn; [ reflexivity | ].
  intros Hnot. destruct (String.eqb_spec k k') as [E | N].
  - exfalso. apply Hnot. left. now symmetry.
  - apply IH. intros Hin. apply Hnot. now right.
Qed.

(** With distinct keys, a lookup does not depend on the order of the pairs. *)
Lemma assoc_permutation {A} (k : string) (l l' : list (string * A)) :
  NoDup (map fst l) -> Permutation l l' -> assoc k l = assoc k l'.
Proof.
  intros Hnd Hperm. revert Hnd.
  induction Hperm as [ | [k0 v0] l l' Hperm IH | [k1 v1] [k2 v2] l | l l' l'' H1 IH1 H2 IH2 ];
    intros Hnd.
  - reflexivity.
  - cbn. destruct (String.eqb k k0); [ reflexivity | ].
    apply IH. now inversion Hnd.
  - cbn. destruct (String.eqb_spec k k2) as [E2 | N2];
      destruct (String.eqb_spec k k1) as [E1 | N1]; try reflexivity.
    exfalso. subst. cbn in Hnd. inversion Hnd as [ | ? ? Hnot _ ]. apply Hnot. now left.
  - rewrite IH1 by assumption. apply IH2.
    apply (Permutation_NoDup (Permutation_map fst H1) Hnd).
Qed.

Lemma filter_permutation {A} (f : A -> bool) (l l' : list A) :
  Permutation l l' -> Permutation (filter f l) (filter f l').
Proof.
  induction 1 as [ | x l l' Hperm IH | x y l | l l' l'' H1 IH1 H2 IH2 ]; cbn.
  - constructor.
  - destruct (f x); [ now constructor | exact IH ].
  - destruct (f x); destruct (f y); try apply Permutation_refl. constructor.
  - now transitivity (filter f l').
Qed.

Lemma filter_keys_nodup {A} (f : string * A -> bool) (l : list (string * A)) :
  NoDup (map fst l) -> NoDup (map fst (filter f l)).
Proof.
  induction l as [ | [k v] l IH ]; cbn; [ auto | ].
  intros Hnd. inversion Hnd as [ | ? ? Hnot Hrest ]; subst.
  destruct (f (k, v)); [ | now apply IH ].
  cbn. constructor; [ | now apply IH ].
  intros Hin. apply Hnot.
  apply in_map_iff in Hin. destruct Hin as [[k' v'] [E Hin]].
  apply filter_In in Hin. destruct Hin as [Hin _].
  apply in_map_iff. now exists (k', v').
Qed.

Lemma canonical_permutation (params params' : query) :
  NoDup (map fst params) ->
  Permutation params params' ->
  canonical params = canonical params'.
Proof.
  intros Hnd Hperm. unfold canonical.
  rewrite (sort_keys_permutation (map fst params) (map fst params'))
    by (now apply Permutation_map).
  f_equal. apply map_ext. intros k. unfold key_value.
  now rewrite (assoc_permutation k params params' Hnd Hperm).
Qed.

(** X8.  The answer of [verifyProxy] does not depend on the order in which
    the query parameters are given (their names being distinct, as the keys
    of [req.query] are). *)
Theorem verifyProxy_ignores_parameter_order (cfg : config) (q q' : query) :
  NoDup (map fst q) ->
  Permutation q q' ->
  verifyProxy cfg q = verifyProxy cfg q'.
Proof.
  intros Hnd Hperm. unfold verifyProxy, signature_of.
  rewrite (assoc_permutation "signature" q q' Hnd Hperm).
  destruct (assoc "signature" q') as [sig | ]; [ | reflexivity ].
  destruct (String.eqb sig ""); [ reflexivity | ].
  unfold params_of.
  rewrite (canonical_permutation _ (filter (fun kv => negb (String.eqb (fst kv) "signature")) q'));
    [ reflexivity | now apply filter_keys_nodup | now apply filter_permutation ].
Qed.

Lemma hex_value_upper (c : ascii) : Crypto.hex_value (upper_char c) = Crypto.hex_value c.
Proof. destruct c as [[] [] [] [] [] [] [] []]; reflexivity. Qed.

Lemma upper_char_ascii (c : ascii) :
  (Unicode.byte_code (upper_char c) <? 128) = (Unicode.byte_code c <? 128).
Proof. destruct c as [[] [] [] [] [] [] [] []]; reflexivity. Qed.

Lemma toUpperCase_chars (s : string) :
  list_ascii_of_string (toUpperCase s) = map upper_char (list_ascii_of_string s).
Proof. induction s as [ | c s IH ]; cbn; [ reflexivity | now rewrite IH ]. Qed.

Lemma toUpperCase_ascii (s : string) :
  Unicode.is_ascii s = true -> Unicode.is_ascii (toUpperCase s) = true.
Proof.
  unfold Unicode.is_ascii. rewrite toUpperCase_chars.
  induction (list_ascii_of_string s) as [ | c cs IH ]; cbn [map forallb]; [ reflexivity | ].
  intros H. apply andb_prop in H. destruct H as [Hc Hcs].
  now rewrite upper_char_ascii, Hc, IH.
Qed.

Lemma hex_pairs_upper (cs : list ascii) :
  Crypto.hex_pairs (map upper_char cs) = Crypto.hex_pairs cs.
Proof.
  revert cs.
  fix IH 1. intros [ | hi [ | lo rest ] ]; try reflexivity.
  cbn [map Crypto.hex_pairs]. rewrite !hex_value_upper, IH. reflexivity.
Qed.

Lemma hex_decode_upper (s : string) :
  Unicode.is_ascii s = true -> Crypto.hex_decode (toUpperCase s) = Crypto.hex_decode s.
Proof.
  intros H.
  rewrite (hex_decode_ascii (toUpperCase s)) by now apply toUpperCase_ascii.
  rewrite (hex_decode_ascii s H), toUpperCase_chars. apply hex_pairs_upper.
Qed.

Lemma toUpperCase_empty (s : string) :
  String.eqb (toUpperCase s) "" = String.eqb s "".
Proof. destruct s; reflexivity. Qed.

(** X9.  For a signature written in ASCII characters, [verifyProxy] does not
    see the case of its letters: the query whose signature is put in upper
    case ([toUpperCase], exact on ASCII text) gets the answer of the query
    with the signature as given.  The statement is about ASCII text only:
    outside it the two readings part, [Buffer.from] keeping the low byte of
    a code unit where [toUpperCase] maps the character. *)
Theorem verifyProxy_ignores_signature_case (cfg : config) (params : query) (sig : string) :
  Unicode.is_ascii sig = true ->
  verifyProxy cfg (("signature", toUpperCase sig) :: params)
  = verifyProxy cfg (("signature", sig) :: params).
Proof.
  intros Hascii.
  unfold verifyProxy, signature_of, params_of. cbn [assoc filter fst].
  rewrite String.eqb_refl. cbn [negb].
  rewrite toUpperCase_empty.
  destruct (String.eqb sig ""); [ reflexivity | ].
  destruct (hmac_hex (APP_PROXY_SHARED_SECRET cfg)
              (canonical (filter (fun kv => negb (String.eqb (fst kv) "signature")) params)))
    as [digest | e | ]; cbn [obind]; try reflexivity.
  now rewrite hex_decode_upper.
Qed.

End SortedKeys.

(* ================================================================== *)
(** * The proxy routes                                                 *)
(* ================================================================== *)

Section ProxyRoutes.
Context {rt : Runtime}.
Variable world : remote.
Variable cfg : config.

Lemma verifyProxy_answers (q : query) :
  verifyProxy cfg q = Ok true \/ verifyProxy cfg q = Ok false
  \/ exists e, verifyProxy cfg q = Throw e.
Proof.
  unfold verifyProxy.
  destruct (signature_of q) as [sig | ]; [ | auto ].
  destruct (String.eqb sig ""); [ auto | ].
  destruct (hmac_hex (APP_PROXY_SHARED_SECRET cfg) (canonical (params_of q)))
    as [digest | e | ] eqn:E; cbn [obind].
  - destruct (timingSafeEqual (Crypto.hex_decode sig) (Crypto.hex_decode digest))
      as [[ | ] | e | ]; auto.
  - right. right. now exists e.
  - unfold hmac_hex in E. destruct (APP_PROXY_SHARED_SECRET cfg); discriminate.
Qed.

Lemma get_prop_ends (v : value) (k : string) : get_prop v k <> Diverge.
Proof. destruct v; discriminate. Qed.

Lemma array_find_standing_ends (xs : list value) :
  array_find is_standing_weekly xs <> Diverge.
Proof.
  induction xs as [ | x xs IHxs ]; cbn; [ discriminate | ].
  destruct (is_standing_weekly x) as [[ | ] | | ] eqn:Hx; cbn [obind];
    try discriminate; [ exact IHxs | ].
  unfold is_standing_weekly in Hx.
  destruct (get_prop x "namespace") as [ns | | ] eqn:Hns; cbn [obind] in Hx;
    [ | discriminate | now apply get_prop_ends in Hns ].
  destruct (is_string ns "standing"); [ | discriminate ].
  destruct (get_prop x "key") as [ky | | ] eqn:Hky; cbn [obind] in Hx;
    [ discriminate | discriminate | now apply get_prop_ends in Hky ].
Qed.

Lemma find_standing_of_ends (name : string) (json : value) :
  find_standing_of name json <> Diverge.
Proof.
  unfold find_standing_of.
  destruct (get_prop json "metafields") as [ms | e | ] eqn:Hms; cbn [obind];
    [ | discriminate | now apply get_prop_ends in Hms ].
  unfold find_in. destruct (or_else ms (VArr [])); try discriminate.
  apply array_find_standing_ends.
Qed.

(** The entry found does not depend on the name of the variable, which only
    shows in the text of an error. *)
Lemma find_standing_of_ok (name : string) (json mf : value) :
  find_standing_of name json = Ok mf <-> find_standing json = Ok mf.
Proof.
  unfold find_standing, find_standing_of.
  destruct (get_prop json "metafields") as [ms | e | ]; cbn [obind]; [ | tauto | tauto ].
  unfold find_in.
  destruct (or_else ms (VArr [])); try tauto; split; discriminate.
Qed.

(** X10.  A request that [verifyProxy] does not accept never reaches the
    remote side: both proxy routes answer 401 (or 500 when [verifyProxy]
    throws) without any call, whatever the query and the body. *)
Theorem unverified_request_makes_no_call (q : query) (body : value) (h : history) :
  verifyProxy cfg q <> Ok true ->
  exists c msg,
    (c = 401 \/ c = 500)
    /\ proxy_get world cfg q h = (Some (error_reply c msg), h)
    /\ proxy_post world cfg q body h = (Some (error_reply c msg), h).
Proof.
  intros Hnot. unfold proxy_get, proxy_post.
  destruct (verifyProxy_answers q) as [E | [E | [e E]]]; [ contradiction | | ]; rewrite E.
  - exists 401, "invalid signature". auto.
  - exists 500, (err_message e). auto.
Qed.

(** X11.  Save performs one write after the lookup, and of one kind: when
    the lookup finds an entry under [standing]/[weekly] it updates that
    entry (a PUT on its id) and creates nothing; when it finds none it
    creates one (a POST with namespace, key and owner) and updates nothing.
    Stated for calls answered at the first attempt. *)
Theorem save_updates_or_creates (q : query) (body : value) (h : history)
    (res0 : response) (json : value) :
  verifyProxy cfg q = Ok true ->
  truthy (body_customer_id body) = true ->
  world h (lookup_request cfg (body_customer_id body)) = Responded res0 ->
  res_ok res0 = true ->
  res_json res0 = Ok json ->
  (forall mf mf_id res1 v1,
      find_standing json = Ok mf ->
      truthy mf = true ->
      get_prop mf "id" = Ok mf_id ->
      world (h ++ [Fetched (lookup_request cfg (body_customer_id body))])
            (update_request cfg mf_id (body_data body)) = Responded res1 ->
      res_ok res1 = true ->
      res_json res1 = Ok v1 ->
      proxy_post world cfg q body h
      = (Some {| code := 200; payload := VObj [("ok", VBool true)] |},
         h ++ [Fetched (lookup_request cfg (body_customer_id body));
               Fetched (update_request cfg mf_id (body_data body))]))
  /\ (forall mf res1 v1,
        find_standing json = Ok mf ->
        truthy mf = false ->
        world (h ++ [Fetched (lookup_request cfg (body_customer_id body))])
              (creation_request cfg (body_customer_id body) (body_data body))
        = Responded res1 ->
        res_ok res1 = true ->
        res_json res1 = Ok v1 ->
        proxy_post world cfg q body h
        = (Some {| code := 200; payload := VObj [("ok", VBool true)] |},
           h ++ [Fetched (lookup_request cfg (body_customer_id body));
                 Fetched (creation_request cfg (body_customer_id body) (body_data body))])).
Proof.
  intros Hverify Hid W0 Hok0 Hj0.
  unfold lookup_request in *.
  split.
  - intros mf mf_id res1 v1 Hfind Hmf Hmfid W1 Hok1 Hj1.
    unfold update_request in *.
    unfold proxy_post. rewrite Hverify, Hid. cbn [negb].
    unfold save_standing, bind at 1.
    rewrite (shopify_ok world cfg _ _ h res0 json W0 Hok0 Hj0).
    apply (find_standing_of_ok "existing") in Hfind.
    unfold bind at 1. unfold lift at 1. rewrite Hfind, Hmf.
    unfold bind at 1. unfold lift at 1. rewrite Hmfid.
    rewrite (shopify_ok world cfg _ _ _ res1 v1 W1 Hok1 Hj1).
    rewrite <- app_assoc. reflexivity.
  - intros mf res1 v1 Hfind Hmf W1 Hok1 Hj1.
    unfold creation_request in *.
    unfold proxy_post. rewrite Hverify, Hid. cbn [negb].
    unfold save_standing, bind at 1.
    rewrite (shopify_ok world cfg _ _ h res0 json W0 Hok0 Hj0).
    apply (find_standing_of_ok "existing") in Hfind.
    unfold bind at 1. unfold lift at 1. rewrite Hfind, Hmf.
    rewrite (shopify_ok world cfg _ _ _ res1 v1 W1 Hok1 Hj1).
    rewrite <- app_assoc. reflexivity.
Qed.

(** X12.  In a request of the save route that ends, the calls are: the
    lookup of the customer's entries (at most four attempts), then, only
    when the lookup returned, the attempts (at most four) of one single
    write.  The write is the update of the entry the lookup found under
    [standing]/[weekly], on the id of that entry, or, when the lookup found
    none, the creation.  A failed lookup is followed by no write, and no
    other call is made. *)
Theorem save_calls (q : query) (body : value) (h : history)
    (r : option reply) (h' : history) :
  proxy_post world cfg q body h = (r, h') ->
  exists n m write,
    fetches h'
    = fetches h ++ repeat (lookup_request cfg (body_customer_id body)) n ++ repeat write m
    /\ (n <= 4)%nat /\ (m <= 4)%nat
    /\ ((0 < m)%nat ->
        exists json h1 mf,
          shopify world cfg (metafields_path (body_customer_id body)) no_init h = (Ok json, h1)
          /\ find_standing json = Ok mf
          /\ ((truthy mf = true
               /\ exists mf_id,
                    get_prop mf "id" = Ok mf_id
                    /\ write = update_request cfg mf_id (body_data body))
              \/ (truthy mf = false
                  /\ write = creation_request cfg (body_customer_id body) (body_data body)))).
Proof.
  unfold proxy_post.
  assert (Hcalls : forall n,
             (n <= 4)%nat ->
             fetches h' = fetches h ++ repeat (lookup_request cfg (body_customer_id body)) n ->
             exists n m write,
               fetches h'
               = fetches h ++ repeat (lookup_request cfg (body_customer_id body)) n
                   ++ repeat write m
               /\ (n <= 4)%nat /\ (m <= 4)%nat
               /\ ((0 < m)%nat ->
                   exists json h1 mf,
                     shopify world cfg (metafields_path (body_customer_id body)) no_init h
                     = (Ok json, h1)
                     /\ find_standing json = Ok mf
                     /\ ((truthy mf = true
                          /\ exists mf_id,
                               get_prop mf "id" = Ok mf_id
                               /\ write = update_request cfg mf_id (body_data body))
                         \/ (truthy mf = false
                             /\ write = creation_request cfg (body_customer_id body)
                                          (body_data body))))).
  { intros n Hn F. exists n, 0%nat, (lookup_request cfg (body_customer_id body)).
    rewrite F. cbn [repeat]. rewrite app_nil_r.
    split; [ reflexivity | split; [ exact Hn | split; [ lia | lia ] ] ]. }
  assert (Hnone : forall (x : option reply), (x, h) = (r, h') ->
             fetches h' = fetches h ++ repeat (lookup_request cfg (body_customer_id body)) 0).
  { intros x H. inversion H; subst. cbn. now rewrite app_nil_r. }
  destruct (verifyProxy_answers q) as [E | [E | [e E]]]; rewrite E;
    [ | intros H; apply (Hcalls 0%nat); [ lia | exact (Hnone _ H) ]
      | intros H; apply (Hcalls 0%nat); [ lia | exact (Hnone _ H) ] ].
  destruct (negb (truthy (body_customer_id body)));
    [ intros H; apply (Hcalls 0%nat); [ lia | exact (Hnone _ H) ] | ].
  clear Hnone.
  unfold save_standing, bind at 1.
  destruct (shopify world cfg (metafields_path (body_customer_id body)) no_init h)
    as [[json | e | ] h1] eqn:Hlookup.
  - pose proof (shopify_calls world cfg _ _ _ _ _ Hlookup) as [n [Hn F]].
    fold (lookup_request cfg (body_customer_id body)) in F.
    unfold bind at 1. unfold lift at 1.
    destruct (find_standing_of "existing" json) as [mf | e | ] eqn:Hfind.
    + apply find_standing_of_ok in Hfind.
      destruct (truthy mf) eqn:Hmf.
      * unfold bind at 1. unfold lift at 1.
        destruct (get_prop mf "id") as [mf_id | e | ] eqn:Hmfid.
        -- destruct (shopify world cfg (metafield_path mf_id)
                       (put (update_payload mf_id (body_data body))) h1)
             as [o h2] eqn:Hwrite.
           pose proof (shopify_calls world cfg _ _ _ _ _ Hwrite) as [m [Hm F2]].
           intros H. assert (h2 = h') by (destruct o; now inversion H). subst h2.
           exists n, m, (update_request cfg mf_id (body_data body)).
           rewrite F2, F, <- app_assoc.
           split; [ reflexivity | split; [ lia | split; [ lia | ] ] ].
           intros _. exists json, h1, mf.
           split; [ reflexivity | split; [ exact Hfind | left ] ].
           split; [ exact Hmf | ]. exists mf_id. split; [ exact Hmfid | reflexivity ].
        -- intros H. inversion H; subst. apply (Hcalls n); [ lia | exact F ].
        -- exfalso. now apply get_prop_ends in Hmfid.
      * destruct (shopify world cfg "/metafields.json"
                    (post (create_payload (body_customer_id body) (body_data body))) h1)
          as [o h2] eqn:Hwrite.
        pose proof (shopify_calls world cfg _ _ _ _ _ Hwrite) as [m [Hm F2]].
        intros H. assert (h2 = h') by (destruct o; now inversion H). subst h2.
        exists n, m, (creation_request cfg (body_customer_id body) (body_data body)).
        rewrite F2, F, <- app_assoc.
        split; [ reflexivity | split; [ lia | split; [ lia | ] ] ].
        intros _. exists json, h1, mf.
        split; [ reflexivity | split; [ exact Hfind | right ] ].
        split; [ exact Hmf | reflexivity ].
    + intros H. inversion H; subst. apply (Hcalls n); [ lia | exact F ].
    + exfalso. now apply find_standing_of_ends in Hfind.
  - pose proof (shopify_calls world cfg _ _ _ _ _ Hlookup) as [n [Hn F]].
    fold (lookup_request cfg (body_customer_id body)) in F.
    intros H. inversion H; subst. apply (Hcalls n); [ lia | exact F ].
  - exfalso. exact (shopify_ends world cfg _ _ _ _ Hlookup).
Qed.

End ProxyRoutes.

(* ================================================================== *)
(** * The link header                                                  *)
(* ================================================================== *)

Lemma append_assoc (a b c : string) : (a +++ b) +++ c = a +++ (b +++ c).
Proof. induction a as [ | x a IH ]; cbn; [ reflexivity | now rewrite IH ]. Qed.

Lemma lacks_append (c : ascii) (a b : string) :
  lacks c (a +++ b) = lacks c a && lacks c b.
Proof.
  induction a as [ | x a IH ]; cbn; [ reflexivity | ].
  rewrite IH. now rewrite andb_assoc.
Qed.

Lemma until_gt_append (s after : string) :
  lacks ">" s = true -> until_gt (s +++ String ">" after) = Some (s, after).
Proof.
  induction s as [ | c s IH ]; cbn [append lacks until_gt]; [ reflexivity | ].
  intros H. apply andb_prop in H. destruct H as [Hc Hs].
  apply negb_true_iff in Hc. rewrite Hc, (IH Hs). reflexivity.
Qed.

Lemma strip_prefix_inv (p s t : string) : strip_prefix p s = Some t -> s = p +++ t.
Proof.
  revert s. induction p as [ | a p IH ]; intros s; cbn [strip_prefix append].
  - congruence.
  - destruct s as [ | b s ]; [ discriminate | ].
    destruct (Ascii.eqb a b) eqn:E; [ | discriminate ].
    apply Ascii.eqb_eq in E. subst b. intros H. now rewrite (IH s H).
Qed.

(** A text without [=] holds no [page_info=]. *)
Lemma capture_page_info_lacks (s : string) :
  lacks "=" s = true -> capture_page_info s = None.
Proof.
  induction s as [ | c s IH ]; [ reflexivity | ].
  intros H. cbn [capture_page_info].
  assert (Hs : lacks "=" s = true) by (cbn in H; now apply andb_prop in H).
  rewrite (IH Hs).
  destruct (strip_prefix "page_info=" (String c s)) as [t | ] eqn:E; [ | reflexivity ].
  apply strip_prefix_inv in E. rewrite E in H.
  rewrite lacks_append in H. cbn in H. discriminate.
Qed.

Lemma capture_page_info_found (pre tok : string) :
  tok <> "" -> lacks "=" tok = true ->
  capture_page_info (pre +++ "page_info=" +++ tok) = Some tok.
Proof.
  intros Hne Heq.
  induction pre as [ | c pre IH ].
  - cbn [append capture_page_info]. rewrite (capture_page_info_lacks tok Heq).
    cbn. apply String.eqb_neq in Hne. now rewrite Hne.
  - cbn [append capture_page_info]. cbn [append] in IH. now rewrite IH.
Qed.

(** From a [<] whose entry is not a [rel="next"] one, up to its [>], nothing
    matches. *)
Lemma match_next_link_skips (s after : string) :
  lacks ">" s = true ->
  strip_prefix rel_next after = None ->
  match_next_link (s +++ String ">" after) = match_next_link (String ">" after).
Proof.
  intros Hs Hafter.
  induction s as [ | c s IH ]; [ reflexivity | ].
  cbn [lacks] in Hs. apply andb_prop in Hs. destruct Hs as [_ Hs].
  cbn [append]. change (match_next_link (String c (s +++ String ">" after)))
    with (match (if Ascii.eqb c "<" then match_from (s +++ String ">" after) else None) with
          | Some tok => Some tok
          | None => match_next_link (s +++ String ">" after)
          end).
  assert (Hfrom : match_from (s +++ String ">" after) = None).
  { unfold match_from. rewrite (until_gt_append s after Hs), Hafter.
    now destruct s. }
  rewrite Hfrom. destruct (Ascii.eqb c "<"); exact (IH Hs).
Qed.

Lemma link_entry_shape (url rel : string) :
  link_entry url rel
  = String "<" (url +++ String ">" ("; rel=" +++ String dquote (rel +++ String dquote ""))).
Proof. unfold link_entry. cbn [append]. rewrite ?append_assoc. reflexivity. Qed.

(** A [rel="next"] entry at the head of the text is matched, whatever
    follows it. *)
Lemma match_next_entry (base tok more : string) :
  base <> "" ->
  lacks ">" base = true ->
  tok <> "" ->
  lacks ">" tok = true ->
  lacks "=" tok = true ->
  match_next_link (link_entry (base +++ "page_info=" +++ tok) "next" +++ more) = Some tok.
Proof.
  intros Hbase Hgt_base Htok Hgt_tok Heq_tok.
  rewrite link_entry_shape. cbn [append]. rewrite append_assoc. cbn [append].
  cbn [match_next_link]. cbn [Ascii.eqb Bool.eqb].
  unfold match_from. rewrite until_gt_append.
  - destruct base as [ | b base ]; [ congruence | ].
    pose proof (capture_page_info_found base tok Htok Heq_tok) as Hc.
    cbn [append] in *. rewrite Hc.
    change (strip_prefix rel_next (rel_next +++ more)) with (Some more).
    reflexivity.
  - rewrite lacks_append, Hgt_base. cbn. exact Hgt_tok.
Qed.

(** X13.  From the [link] header of a page the generator takes the cursor of
    the [rel="next"] entry: when the header is that entry alone, and also
    when a [rel="previous"] entry comes before it (as on every page after
    the first).  The cursor is the text after the last [page_info=] of the
    entry's URL. *)
Theorem next_cursor_found (base tok other : string) :
  base <> "" ->
  lacks ">" base = true ->
  tok <> "" ->
  lacks ">" tok = true ->
  lacks "=" tok = true ->
  lacks ">" other = true ->
  match_next_link (link_entry (base +++ "page_info=" +++ tok) "next") = Some tok
  /\ match_next_link (link_entry other "previous" +++ ", "
                        +++ link_entry (base +++ "page_info=" +++ tok) "next") = Some tok.
Proof.
  intros Hbase Hgt_base Htok Hgt_tok Heq_tok Hother.
  pose proof (match_next_entry base tok "" Hbase Hgt_base Htok Hgt_tok Heq_tok) as Hnext.
  assert (Hnil : forall s, s +++ "" = s)
    by (induction s as [ | c s IH ]; cbn; [ reflexivity | now rewrite IH ]).
  rewrite Hnil in Hnext.
  split; [ exact Hnext | ].
  rewrite (link_entry_shape other "previous"). cbn [append]. rewrite append_assoc. cbn [append].
  set (next := link_entry (base +++ "page_info=" +++ tok) "next") in *.
  cbn [match_next_link]. cbn [Ascii.eqb Bool.eqb].
  assert (Hfrom : forall after,
             strip_prefix rel_next after = None ->
             match_from (other +++ String ">" after) = None).
  { intros after Hafter. unfold match_from.
    rewrite (until_gt_append _ _ Hother), Hafter. now destruct other. }
  rewrite Hfrom by reflexivity.
  rewrite match_next_link_skips by (try assumption; reflexivity).
  cbn [match_next_link]. cbn [Ascii.eqb Bool.eqb]. exact Hnext.
Qed.

(* ================================================================== *)
(** * The daily job as a whole                                         *)
(* ================================================================== *)

Section JobRunTheorems.
Context {rt : Runtime}.
Variable world : remote.
Variable cfg : config.

Lemma find_standing_ends (json : value) : find_standing json <> Diverge.
Proof. apply find_standing_of_ends. Qed.

(** What lines 196-197 (and 123-124) evaluate to: [null], or an error. *)
Lemma standing_document_null (scope_customer json : value) :
  match (let? mf := find_standing json in
         stored_document [("customerId", scope_customer); ("json", json); ("mf", mf)] mf)
  with
  | Ok data => data = VNull
  | Throw _ => True
  | Diverge => False
  end.
Proof.
  destruct (find_standing json) as [mf | e | ] eqn:Hfind; cbn [obind];
    [ | exact I | now apply find_standing_ends in Hfind ].
  destruct (truthy mf) eqn:Hmf.
  - now rewrite stored_document_of_entry.
  - unfold stored_document. now rewrite Hmf.
Qed.

Lemma fetches_repeat_forall (P : request -> Prop) (rq : request) (n : nat) :
  P rq -> Forall P (repeat rq n).
Proof. intros H. induction n; cbn; constructor; assumption. Qed.

(** [fetchWithRetry] repeats one call. *)
Lemma fetchWithRetry_repeats (url : string) (init : fetch_init) (opts : retry_options)
    (h : history) (o : outcome response) (h' : history) :
  fetchWithRetry world url init opts h = (o, h') ->
  exists n, fetches h' = fetches h ++ repeat (request_of url init opts) n.
Proof.
  unfold fetchWithRetry.
  destruct (retry_loop world url init opts (Z.to_nat (retries opts + 1)) 0 h) as [r h1] eqn:R.
  apply retry_loop_calls in R. destruct R as [n [_ [F _]]].
  intros H. assert (h1 = h') by (destruct r; now inversion H). subst h1.
  now exists n.
Qed.

Lemma load_page_calls (page_info : option string) (h : history)
    (o : outcome (list value * string)) (h' : history) :
  load_page world cfg page_info h = (o, h') ->
  exists n, fetches h' = fetches h ++ repeat (page_request cfg page_info) n.
Proof.
  unfold load_page, bind.
  destruct (fetchWithRetry world (customers_url cfg page_info) (customers_init cfg)
              admin_options h) as [x h1] eqn:E.
  apply fetchWithRetry_repeats in E. destruct E as [n F].
  intros H. assert (h1 = h').
  { destruct x as [resp | e | ]; [ | now inversion H | now inversion H ].
    destruct (negb (res_ok resp)); unfold throw, lift in H; [ now inversion H | ].
    destruct (res_json resp) as [body | | ]; [ | now inversion H | now inversion H ].
    destruct (get_prop body "customers") as [cs | | ]; [ | now inversion H | now inversion H ].
    destruct (iterate (or_else cs (VArr []))); now inversion H. }
  subst h1. now exists n.
Qed.

(** The generator only lists customers: every call it makes is a GET. *)
Lemma gen_next_calls (fuel : nat) :
  forall (st : gen_state) (h : history) (o : outcome (option value * gen_state)) (h' : history),
    gen_next world cfg fuel st h = (o, h') ->
    exists calls, fetches h' = fetches h ++ calls /\ Forall is_get calls.
Proof.
  induction fuel as [ | fuel IH ]; intros st h o h'; cbn [gen_next].
  - unfold diverge. intros H. inversion H; subst. exists []. now rewrite app_nil_r.
  - assert (Hpage : forall page_info,
               (p <- load_page world cfg page_info ;;
                gen_next world cfg fuel (GenInPage (fst p) (snd p))) h = (o, h') ->
               exists calls, fetches h' = fetches h ++ calls /\ Forall is_get calls).
    { intros page_info. unfold bind.
      destruct (load_page world cfg page_info h) as [x h1] eqn:L.
      apply load_page_calls in L. destruct L as [n F].
      assert (Hn : Forall is_get (repeat (page_request cfg page_info) n))
        by (apply fetches_repeat_forall; reflexivity).
      destruct x as [p | e | ].
      - intros H. apply IH in H. destruct H as [calls [F2 Hc]].
        exists (repeat (page_request cfg page_info) n ++ calls).
        rewrite F2, F, <- app_assoc. split; [ reflexivity | ].
        apply Forall_app. now split.
      - intros H. inversion H; subst. eauto.
      - intros H. inversion H; subst. eauto. }
    destruct st as [ | pending link | ].
    + apply Hpage.
    + destruct pending as [ | c rest ].
      * destruct (cursor_set (match_next_link link)); [ apply Hpage | ].
        unfold ret. intros H. inversion H; subst. exists []. now rewrite app_nil_r.
      * unfold bind, lift.
        destruct (get_prop c "id") as [id | e | ]; unfold record; intros H; inversion H; subst;
          exists []; rewrite ?fetches_app; cbn; now rewrite ?app_nil_r.
    + unfold ret. intros H. inversion H; subst. exists []. now rewrite app_nil_r.
Qed.

(** A turn of the loop looks the customer's entries up and does no more:
    [getStanding] answers [null] or throws, and [null] ends the turn. *)
Lemma loop_body_calls (dayKey : string) (customer : value) (created : list job_record)
    (h : history) (o : outcome (list job_record)) (h' : history) :
  loop_body world cfg dayKey customer created h = (o, h') ->
  (exists n, fetches h' = fetches h ++ repeat (lookup_request cfg customer) n)
  /\ match o with
     | Ok created' => created' = created
     | Throw _ => True
     | Diverge => False
     end.
Proof.
  unfold loop_body, bind at 1.
  destruct (getStanding world cfg customer h) as [x h1] eqn:G.
  assert (Hcalls : exists n, fetches h1 = fetches h ++ repeat (lookup_request cfg customer) n).
  { unfold getStanding, bind in G.
    destruct (shopify world cfg (metafields_path customer) no_init h) as [y h2] eqn:S.
    apply shopify_calls in S. destruct S as [n [_ F]].
    assert (h2 = h1).
    { destruct y as [json | e | ]; [ | now inversion G | now inversion G ].
      unfold lift in G.
      destruct (let? mf := find_standing json in
                stored_document [("customerId", customer); ("json", json); ("mf", mf)] mf);
        now inversion G. }
    subst h2. now exists n. }
  destruct x as [data | e | ].
  - apply getStanding_returns_null in G. subst data.
    unfold place_order. cbn [truthy negb]. unfold ret.
    intros H. inversion H; subst. now split.
  - intros H. inversion H; subst. now split.
  - exfalso. unfold getStanding, bind in G.
    destruct (shopify world cfg (metafields_path customer) no_init h) as [y h2] eqn:S.
    destruct y as [json | e | ]; [ | discriminate | exact (shopify_ends world cfg _ _ _ _ S) ].
    unfold lift in G.
    pose proof (standing_document_null customer json) as Hdoc.
    destruct (let? mf := find_standing json in
              stored_document [("customerId", customer); ("json", json); ("mf", mf)] mf);
      [ discriminate | discriminate | exact Hdoc ].
Qed.

Lemma run_loop_calls (dayKey : string) (fuel : nat) :
  forall (g : gen_state) (created : list job_record) (h : history)
         (o : outcome (list job_record)) (h' : history),
    run_loop world cfg dayKey fuel g created h = (o, h') ->
    (exists calls, fetches h' = fetches h ++ calls /\ Forall is_get calls)
    /\ (forall created', o = Ok created' -> created' = created).
Proof.
  induction fuel as [ | fuel IH ]; intros g created h o h'; cbn [run_loop].
  - unfold diverge. intros H. inversion H; subst. split; [ | discriminate ].
    exists []. now rewrite app_nil_r.
  - unfold bind at 1.
    destruct (gen_next world cfg (S fuel) g h) as [x h1] eqn:G.
    apply gen_next_calls in G. destruct G as [calls1 [F1 C1]].
    destruct x as [[[customer | ] g'] | e | ]; cbn [fst snd].
    + unfold bind at 1.
      destruct (loop_body world cfg dayKey customer created h1) as [y h2] eqn:B.
      apply loop_body_calls in B. destruct B as [[n F2] Hy].
      assert (C2 : Forall is_get (repeat (lookup_request cfg customer) n))
        by (apply fetches_repeat_forall; reflexivity).
      destruct y as [created1 | e | ]; [ | | contradiction ].
      * subst created1. intros H. apply IH in H. destruct H as [[calls3 [F3 C3]] Hcr].
        split; [ | exact Hcr ].
        exists (calls1 ++ repeat (lookup_request cfg customer) n ++ calls3).
        rewrite F3, F2, F1, <- !app_assoc. split; [ reflexivity | ].
        apply Forall_app. split; [ assumption | ]. apply Forall_app. now split.
      * intros H. inversion H; subst. split; [ | discriminate ].
        exists (calls1 ++ repeat (lookup_request cfg customer) n).
        rewrite F2, F1, <- app_assoc. split; [ reflexivity | ].
        apply Forall_app. now split.
    + unfold ret. intros H. inversion H; subst. split; [ eauto | congruence ].
    + intros H. inversion H; subst. split; [ eauto | discriminate ].
    + intros H. inversion H; subst. split; [ eauto | discriminate ].
Qed.

(** X14.  Whatever the remote side answers, a run of the daily job creates
    no draft order and sends no invoice: every call it makes is a GET (the
    customer listing and the lookups of metadata entries), and when it
    answers 200 the [created] list of its reply is empty. *)
Theorem run_creates_nothing (today : weekday) (fuel : nat) (h : history)
    (r : option reply) (h' : history) :
  run_standing_orders world cfg today fuel h = (r, h') ->
  (exists calls, fetches h' = fetches h ++ calls /\ Forall is_get calls)
  /\ (forall answer, r = Some answer -> code answer = 200 -> answer = ok_reply []).
Proof.
  unfold run_standing_orders.
  destruct (run_loop world cfg (dayKey_of today) fuel GenStart [] h) as [o h1] eqn:R.
  apply run_loop_calls in R. destruct R as [Hcalls Hcreated].
  intros H. assert (h1 = h') by (destruct o; now inversion H). subst h1.
  split; [ exact Hcalls | ].
  intros answer Hr Hcode. subst r.
  destruct o as [created | e | ]; inversion H; subst.
  - now rewrite (Hcreated created eq_refl).
  - discriminate Hcode.
Qed.

(** X15.  When the first page of customers is refused with a status that is
    not retried (neither 429 nor 5xx), the run stops after that single call
    and answers 500 with [List customers failed: <status>]. *)
Theorem listing_refused_fails_the_run (today : weekday) (fuel : nat) (h : history)
    (res : response) :
  world h (page_request cfg None) = Responded res ->
  res_ok res = false ->
  retryable res = false ->
  run_standing_orders world cfg today (S fuel) h
  = (Some (error_reply 500 ("List customers failed: " +++ decimal (status res))),
     h ++ [Fetched (page_request cfg None)]).
Proof.
  intros W Hok Hre.
  unfold run_standing_orders. cbn [run_loop gen_next]. unfold bind, load_page, bind.
  rewrite (fetchWithRetry_first_answer world _ _ admin_options h res) by (cbn; auto; lia).
  rewrite Hok. reflexivity.
Qed.

Lemma loop_body_without_entry (dayKey : string) (customer : value)
    (created : list job_record) (h : history) :
  without_entry world cfg customer ->
  loop_body world cfg dayKey customer created h
  = (Ok created, h ++ [Fetched (lookup_request cfg customer)]).
Proof.
  intros [res [json [mf [W [Hok [Hjson [Hfind Hmf]]]]]]].
  unfold loop_body, bind, getStanding, bind.
  unfold lookup_request in *.
  rewrite (shopify_ok world cfg _ _ h res json (W h) Hok Hjson).
  unfold lift. rewrite Hfind. cbn [obind]. unfold stored_document. rewrite Hmf.
  reflexivity.
Qed.

Lemma run_unfold (dayKey : string) (m : nat) (g : gen_state) (created : list job_record)
    (h : history) :
  run_loop world cfg dayKey (S m) g created h = run_from world cfg dayKey (S m) m g created h.
Proof. reflexivity. Qed.

Lemma run_in_page (dayKey : string) (created : list job_record)
    (rest : list (response * list value)) :
  forall (elements ids : list value) (link : string) (h : history) (n m : nat),
    Forall2 (fun c id => get_prop c "id" = Ok id) elements ids ->
    Forall (without_entry world cfg) ids ->
    Forall (without_entry world cfg) (all_ids rest) ->
    match rest with
    | [] => match_next_link link = None
    | _ :: _ => exists tok, match_next_link link = Some tok /\ serves world cfg (Some tok) rest
    end ->
    (length rest < n)%nat ->
    (length rest + length ids + length (all_ids rest) <= m)%nat ->
    run_from world cfg dayKey n m (GenInPage elements link) created h
    = (Ok created, h ++ visits cfg ids ++ job_events cfg (match_next_link link) rest).
Proof.
  induction rest as [ | [res ids2] rest IH ];
    intros elements ids link h n m Hids; revert h n m;
    induction Hids as [ | c id elements ids Hc Hrest IHin ];
    intros h n m Hnone Hnone_rest Hlink Hn Hm.
  - destruct n as [ | n ]; [ lia | ].
    unfold run_from, bind. cbn [gen_next]. rewrite Hlink. cbn.
    now rewrite !app_nil_r.
  - destruct n as [ | n ]; [ lia | ].
    cbn [length] in Hm.
    destruct m as [ | m ]; [ lia | ].
    inversion Hnone as [ | ? ? Hid Hothers ]; subst.
    unfold run_from, bind at 1. cbn [gen_next]. unfold lift, bind at 1. rewrite Hc.
    unfold record. cbn [fst snd]. unfold bind at 1.
    rewrite (loop_body_without_entry dayKey id created _ Hid).
    rewrite run_unfold.
    rewrite (IHin _ (S m) m Hothers Hnone_rest Hlink) by (cbn in *; lia).
    cbn [visits flat_map app]. rewrite <- !app_assoc. reflexivity.
  - destruct Hlink as [tok [Hmatch [Hworld [[Hok [body [customers [elements2 [Hb [Hcu [Hit Hids2]]]]]]] Hnext]]]].
    destruct n as [ | n ]; [ cbn in Hn; lia | ].
    unfold run_from, bind at 1. cbn [gen_next].
    rewrite (cursor_set_match link tok Hmatch).
    unfold bind at 1.
    rewrite Hmatch at 1.
    rewrite (load_page_ok world cfg (Some tok) h res body customers elements2
               (Hworld h) Hok Hb Hcu Hit).
    cbn [fst snd].
    unfold all_ids in Hnone_rest. cbn [map concat snd] in Hnone_rest.
    apply Forall_app in Hnone_rest. destruct Hnone_rest as [Hnone2 Hnone_rest].
    pose proof (IH elements2 ids2 (link_of res)
                  (h ++ [Fetched (page_request cfg (Some tok))]) n m Hids2
                  Hnone2 Hnone_rest Hnext) as Hrec.
    unfold run_from, bind at 1 in Hrec.
    rewrite Hrec.
    + rewrite Hmatch. cbn [job_events visits flat_map app].
      rewrite <- !app_assoc. reflexivity.
    + cbn in Hn. lia.
    + cbn [length all_ids map concat snd] in Hm. rewrite length_app in Hm.
      unfold all_ids. lia.
  - destruct n as [ | n ]; [ lia | ].
    cbn [length] in Hm.
    destruct m as [ | m ]; [ lia | ].
    inversion Hnone as [ | ? ? Hid Hothers ]; subst.
    unfold run_from, bind at 1. cbn [gen_next]. unfold lift, bind at 1. rewrite Hc.
    unfold record. cbn [fst snd]. unfold bind at 1.
    rewrite (loop_body_without_entry dayKey id created _ Hid).
    rewrite run_unfold.
    rewrite (IHin _ (S m) m Hothers Hnone_rest Hlink) by (cbn in *; lia).
    cbn [visits flat_map app]. rewrite <- !app_assoc. reflexivity.
Qed.

(** X16.  When the remote side serves the customers in pages and none of
    them has an entry under [standing]/[weekly], the run answers 200 with an
    empty [created] list; it requests each page once and looks up each
    customer once, in the order of the pages, the lookups of a page before
    the request of the next page. *)
Theorem run_over_customers_without_entries
    (today : weekday) (pages : list (response * list value)) (h : history) (fuel : nat) :
  serves world cfg None pages ->
  Forall (without_entry world cfg) (all_ids pages) ->
  (length pages + length (all_ids pages) < fuel)%nat ->
  run_standing_orders world cfg today fuel h
  = (Some (ok_reply []), h ++ job_events cfg None pages).
Proof.
  intros Hserves Hnone Hfuel.
  destruct pages as [ | [res ids] rest ]; [ contradiction | ].
  destruct Hserves as [Hworld [[Hok [body [customers [elements [Hb [Hcu [Hit Hids]]]]]]] Hnext]].
  destruct fuel as [ | m ]; [ lia | ].
  unfold run_standing_orders.
  rewrite run_unfold. unfold run_from, bind at 1. cbn [gen_next]. unfold bind at 1.
  rewrite (load_page_ok world cfg None h res body customers elements (Hworld h) Hok Hb Hcu Hit).
  cbn [fst snd].
  cbn [length all_ids map concat snd] in Hfuel. rewrite length_app in Hfuel.
  unfold all_ids in Hnone. cbn [map concat snd] in Hnone.
  apply Forall_app in Hnone. destruct Hnone as [Hnone1 Hnone_rest].
  destruct m as [ | m' ]; [ lia | ].
  pose proof (run_in_page (dayKey_of today) [] rest elements ids (link_of res)
                (h ++ [Fetched (page_request cfg None)]) (S m') (S m') Hids
                Hnone1 Hnone_rest Hnext) as Hrec.
  unfold run_from, bind at 1 in Hrec.
  rewrite Hrec.
  - cbn [job_events app]. rewrite <- !app_assoc. reflexivity.
  - lia.
  - unfold all_ids. lia.
Qed.

Lemma map_items_ends (dayKey : string) (ps : list value) : map_items dayKey ps <> Diverge.
Proof.
  induction ps as [ | p ps IH ]; cbn [map_items]; [ discriminate | ].
  destruct (get_prop p "variantId") as [vid | | ] eqn:Hv; cbn [obind];
    [ | discriminate | now apply get_prop_ends in Hv ].
  destruct (get_prop p dayKey) as [q | | ] eqn:Hq; cbn [obind];
    [ | discriminate | now apply get_prop_ends in Hq ].
  destruct (map_items dayKey ps); cbn [obind]; [ discriminate | discriminate | exact IH ].
Qed.



(** What the read route finds when lines 123-124 do not throw. *)
Lemma standing_document_ok (scope_customer json data : value) :
  (let? mf := find_standing json in
   stored_document [("customerId", scope_customer); ("json", json); ("mf", mf)] mf) = Ok data ->
  data = VNull /\ exists mf, find_standing json = Ok mf /\ truthy mf = false.
Proof.
  destruct (find_standing json) as [mf | e | ] eqn:Hfind; cbn [obind]; try discriminate.
  destruct (truthy mf) eqn:Hmf.
  - now rewrite stored_document_of_entry.
  - unfold stored_document. rewrite Hmf. intros H. inversion H.
    split; [ reflexivity | ]. now exists mf.
Qed.

(** X18.  A request of the read route that is answered gets 200, 400, 401
    or 500, and the only calls made for it are the lookup of the customer
    named in the query, at most four attempts.  It is answered 200 only when
    the lookup returned and holds no entry under [standing]/[weekly], and the
    body is then [{ data: null }]: a stored entry never reaches the caller
    (with an entry, line 124 reads [m] and the answer is 500). *)
Theorem proxy_get_never_returns_data (q : query) (h : history)
    (r : option reply) (h' : history) :
  proxy_get world cfg q h = (r, h') ->
  (forall answer,
      r = Some answer ->
      (code answer = 200 \/ code answer = 400 \/ code answer = 401 \/ code answer = 500)
      /\ (code answer = 200 ->
          payload answer = VObj [("data", VNull)]
          /\ exists customer json mf,
               assoc "customer_id" q = Some customer
               /\ shopify world cfg (metafields_path (VStr customer)) no_init h = (Ok json, h')
               /\ find_standing json = Ok mf
               /\ truthy mf = false))
  /\ exists n,
       (n <= 4)%nat
       /\ forall customer,
            assoc "customer_id" q = Some customer \/ n = 0%nat ->
            fetches h' = fetches h ++ repeat (lookup_request cfg (VStr customer)) n.
Proof.
  unfold proxy_get.
  assert (Hrefused : forall c msg n,
             (c = 400 \/ c = 401 \/ c = 500) ->
             (n <= 4)%nat ->
             (forall customer,
                 assoc "customer_id" q = Some customer \/ n = 0%nat ->
                 fetches h' = fetches h ++ repeat (lookup_request cfg (VStr customer)) n) ->
             r = Some (error_reply c msg) ->
             (forall answer,
                 r = Some answer ->
                 (code answer = 200 \/ code answer = 400 \/ code answer = 401
                  \/ code answer = 500)
                 /\ (code answer = 200 ->
                     payload answer = VObj [("data", VNull)]
                     /\ exists customer json mf,
                          assoc "customer_id" q = Some customer
                          /\ shopify world cfg (metafields_path (VStr customer)) no_init h
                             = (Ok json, h')
                          /\ find_standing json = Ok mf
                          /\ truthy mf = false))
             /\ exists n,
                  (n <= 4)%nat
                  /\ forall customer,
                       assoc "customer_id" q = Some customer \/ n = 0%nat ->
                       fetches h' = fetches h ++ repeat (lookup_request cfg (VStr customer)) n).
  { intros c msg n Hc Hn Hfetches Hr. split.
    - intros answer Ha. rewrite Hr in Ha. inversion Ha; subst answer.
      cbn [code error_reply]. split; [ tauto | intros; lia ].
    - exists n. split; assumption. }
  assert (Hnone : forall c msg,
             (c = 400 \/ c = 401 \/ c = 500) ->
             (Some (error_reply c msg), h) = (r, h') ->
             (forall answer,
                 r = Some answer ->
                 (code answer = 200 \/ code answer = 400 \/ code answer = 401
                  \/ code answer = 500)
                 /\ (code answer = 200 ->
                     payload answer = VObj [("data", VNull)]
                     /\ exists customer json mf,
                          assoc "customer_id" q = Some customer
                          /\ shopify world cfg (metafields_path (VStr customer)) no_init h
                             = (Ok json, h')
                          /\ find_standing json = Ok mf
                          /\ truthy mf = false))
             /\ exists n,
                  (n <= 4)%nat
                  /\ forall customer,
                       assoc "customer_id" q = Some customer \/ n = 0%nat ->
                       fetches h' = fetches h ++ repeat (lookup_request cfg (VStr customer)) n).
  { intros c msg Hc H. inversion H; subst.
    apply (Hrefused c msg 0%nat Hc); [ lia | | reflexivity ].
    intros. cbn. now rewrite app_nil_r. }
  destruct (verifyProxy_answers cfg q) as [E | [E | [e E]]]; rewrite E;
    [ | apply Hnone; tauto | apply Hnone; tauto ].
  destruct (assoc "customer_id" q) as [customer | ] eqn:Hcustomer; [ | apply Hnone; tauto ].
  destruct (String.eqb customer ""); [ apply Hnone; tauto | ].
  clear Hnone.
  destruct (shopify world cfg (metafields_path (VStr customer)) no_init h)
    as [[json | e | ] h1] eqn:S.
  - pose proof (shopify_calls world cfg _ _ _ _ _ S) as [n [Hn F]].
    fold (lookup_request cfg (VStr customer)) in F.
    pose proof (standing_document_ok (VStr customer) json) as Hok.
    pose proof (standing_document_null (VStr customer) json) as Hdoc.
    destruct (let? mf := find_standing json in
              stored_document [("customerId", VStr customer); ("json", json); ("mf", mf)] mf)
      as [data | e | ]; [ | | contradiction ].
    + destruct (Hok data eq_refl) as [Hdata [mf [Hfind Hmf]]]. subst data.
      intros H. inversion H; subst. split.
      * intros answer Ha. inversion Ha; subst answer. cbn [code payload].
        split; [ tauto | ]. intros _. split; [ reflexivity | ].
        exists customer, json, mf. auto.
      * exists n. split; [ lia | ].
        intros c [Hc | Hc]; [ injection Hc as <-; exact F | lia ].
    + intros H. inversion H; subst.
      apply (Hrefused 500 (err_message e) n); [ tauto | lia | | reflexivity ].
      intros c [Hc | Hc]; [ injection Hc as <-; exact F | lia ].
  - pose proof (shopify_calls world cfg _ _ _ _ _ S) as [n [Hn F]].
    fold (lookup_request cfg (VStr customer)) in F.
    intros H. inversion H; subst.
    apply (Hrefused 500 (err_message e) n); [ tauto | lia | | reflexivity ].
    intros c [Hc | Hc]; [ injection Hc as <-; exact F | lia ].
  - exfalso. exact (shopify_ends world cfg _ _ _ _ S).
Qed.

End JobRunTheorems.

(* ================================================================== *)
(** * Further runs on concrete remote sides                            *)
(* ================================================================== *)

Section MoreRuns.
Import Reference Examples Scenarios.

Local Abbreviation some_request := (request_of some_url no_init default_options).

Local Abbreviation ok_response :=
  {| status := 200; res_headers := []; res_body := json_text (VObj [("ok", VBool true)]) |}.

(** Two 503 answers, then a 200: three calls, with the delays of 800 and
    1600 ms between them. *)
Lemma fetchWithRetry_call_bound_witness :
  exists delays,
    (length delays <= 2)%nat
    /\ [Fetched some_request; Slept 800; Fetched some_request; Slept 1600;
        Fetched some_request]%float
       = attempts some_request delays
    /\ [some_request; some_request; some_request] = repeat some_request (S (length delays))
    /\ [800; 1600]%float = delays.
Proof.
  exact (fetchWithRetry_call_bound (rt := runtime) (flaky 2) some_url no_init default_options []
           (Ok ok_response)
           [Fetched some_request; Slept 800; Fetched some_request; Slept 1600;
            Fetched some_request]%float
           ltac:(cbn; lia) ltac:(vm_compute; reflexivity)).
Defined.

(** A remote side that cannot be reached: three calls, delays of 800 and
    1600 ms, and the error of [fetch] is thrown. *)
Lemma fetchWithRetry_persistent_rejection_witness :
  exists e h_last,
    fetchWithRetry unreachable some_url no_init default_options []
    = (Throw e, h_last ++ [Fetched some_request])
    /\ unreachable h_last some_request = Failed e
    /\ fetches (h_last ++ [Fetched some_request]) = repeat some_request 3
    /\ sleeps (h_last ++ [Fetched some_request])
       = exponential_delays default_options 0 2.
Proof.
  exact (fetchWithRetry_persistent_rejection unreachable some_url no_init default_options []
           ltac:(cbn; lia)
           (fun h0 => ex_intro _ (Error_ "FetchError" "connect ECONNREFUSED") eq_refl)).
Defined.

Lemma flaky_fails_first (k : nat) (h0 : history) (rq : request) :
  (length (fetches h0) < k)%nat -> transient (flaky k h0 rq).
Proof.
  intros Hlt. unfold flaky. apply Nat.ltb_lt in Hlt. rewrite Hlt.
  right. eexists. split; [ reflexivity | split; reflexivity ].
Qed.

Lemma flaky_answers_then (k : nat) (h0 : history) (rq : request) :
  length (fetches h0) = k -> flaky k h0 rq = Responded ok_response.
Proof.
  intros Hlen. unfold flaky. rewrite Hlen, Nat.ltb_irrefl. reflexivity.
Qed.

(** Two 503 answers are within the budget of two retries. *)
Lemma fetchWithRetry_recovers_witness :
  exists h_last,
    fetchWithRetry (flaky 2) some_url no_init default_options []
    = (Ok ok_response, h_last ++ [Fetched some_request])
    /\ fetches (h_last ++ [Fetched some_request]) = repeat some_request 3
    /\ length (sleeps (h_last ++ [Fetched some_request])) = 2%nat.
Proof.
  exact (fetchWithRetry_recovers (flaky 2) some_url no_init default_options 2 [] ok_response
           ltac:(cbn; lia)
           (fun h0 Hlt => flaky_fails_first 2 h0 some_request Hlt)
           (fun h0 Hlen => flaky_answers_then 2 h0 some_request Hlen)
           eq_refl).
Defined.

(** A 404 of the remote side becomes the error [Shopify 404 ...] after one
    call. *)
Lemma shopify_outcomes_witness :
  (exists n, (1 <= n <= 4)%nat
             /\ [admin_request cfg "/shop.json" no_init]
                = repeat (admin_request cfg "/shop.json" no_init) n)
  /\ exists h_last,
       [Fetched (admin_request cfg "/shop.json" no_init)]
       = h_last ++ [Fetched (admin_request cfg "/shop.json" no_init)]
       /\ (forall e,
              always (refusal 404 [] "Not Found") h_last (admin_request cfg "/shop.json" no_init)
              = Failed e ->
              (Throw (Error "Shopify 404 /shop.json: Not Found") : outcome value) = Throw e)
       /\ (forall res,
              always (refusal 404 [] "Not Found") h_last (admin_request cfg "/shop.json" no_init)
              = Responded res ->
              (Throw (Error "Shopify 404 /shop.json: Not Found") : outcome value)
              = if negb (res_ok res)
                then Throw (Error ("Shopify " +++ decimal (status res) +++ " " +++ "/shop.json"
                                     +++ ": " +++ res_body res))
                else match JSON_parse (res_body res) with
                     | inl v => Ok v
                     | inr msg => Throw (SyntaxError msg)
                     end).
Proof.
  refine (shopify_outcomes (rt := runtime) (always (refusal 404 [] "Not Found")) cfg "/shop.json" no_init []
           (Throw (Error "Shopify 404 /shop.json: Not Found"))
           [Fetched (admin_request cfg "/shop.json" no_init)]
           _); vm_compute; reflexivity.
Defined.

(** A remote side that is unavailable throughout. *)
Lemma shopify_gives_up_on_503_witness :
  exists res h_last,
    shopify (always unavailable) cfg "/shop.json" no_init []
    = (Throw (Error ("Shopify 503 /shop.json: " +++ res_body res)),
       h_last ++ [Fetched (admin_request cfg "/shop.json" no_init)])
    /\ always unavailable h_last (admin_request cfg "/shop.json" no_init) = Responded res
    /\ fetches (h_last ++ [Fetched (admin_request cfg "/shop.json" no_init)])
       = repeat (admin_request cfg "/shop.json" no_init) 4
    /\ sleeps (h_last ++ [Fetched (admin_request cfg "/shop.json" no_init)])
       = [1000; 2000; 4000]%float.
Proof.
  exact (shopify_gives_up_on_503 (always unavailable) cfg "/shop.json" no_init []
           (fun h0 => ex_intro _ {| status := 503; res_headers := [];
                                    res_body := "Service Unavailable" |}
                        (conj eq_refl (conj eq_refl eq_refl)))).
Defined.

(** The signature in the middle of the query instead of at its head. *)
Lemma verifyProxy_ignores_parameter_order_witness :
  verifyProxy cfg [("signature", sign "hush" proxy_params); ("shop", "shop.example");
                   ("customer_id", "7")]
  = verifyProxy cfg [("shop", "shop.example"); ("signature", sign "hush" proxy_params);
                     ("customer_id", "7")].
Proof.
  apply (verifyProxy_ignores_parameter_order cfg).
  - cbn [map fst].
    repeat (constructor; [ cbn [In]; intuition discriminate | ]). constructor.
  - apply perm_swap.
Defined.

(** The computed signature, written in upper case. *)
Lemma verifyProxy_ignores_signature_case_witness :
  verifyProxy cfg (("signature", toUpperCase (sign "hush" proxy_params)) :: proxy_params)
  = verifyProxy cfg (("signature", sign "hush" proxy_params) :: proxy_params).
Proof.
  apply (verifyProxy_ignores_signature_case cfg proxy_params (sign "hush" proxy_params)).
  vm_compute. reflexivity.
Defined.

(** A wrong signature: no call, 401 on both routes. *)
Lemma unverified_request_makes_no_call_witness :
  exists c msg,
    (c = 401 \/ c = 500)
    /\ proxy_get (metafield_store []) cfg (signed "00") [] = (Some (error_reply c msg), [])
    /\ proxy_post (metafield_store []) cfg (signed "00") save_body []
       = (Some (error_reply c msg), []).
Proof.
  apply (unverified_request_makes_no_call (metafield_store []) cfg (signed "00") save_body []).
  vm_compute. discriminate.
Defined.

Lemma save_query_verified : verifyProxy cfg save_query = Ok true.
Proof. vm_compute. reflexivity. Qed.

(** With an entry stored, the entry 1 is updated; without, one is created. *)
Lemma save_updates_or_creates_witness :
  proxy_post (metafield_store [standing_entry "{}"]) cfg save_query save_body []
  = (Some {| code := 200; payload := VObj [("ok", VBool true)] |},
     [Fetched (lookup_request cfg (body_customer_id save_body));
      Fetched (update_request cfg (VNum 1%float) (body_data save_body))])
  /\ proxy_post (metafield_store []) cfg save_query save_body []
     = (Some {| code := 200; payload := VObj [("ok", VBool true)] |},
        [Fetched (lookup_request cfg (body_customer_id save_body));
         Fetched (creation_request cfg (body_customer_id save_body) (body_data save_body))]).
Proof.
  split.
  - apply (proj1 (save_updates_or_creates (metafield_store [standing_entry "{}"]) cfg
                    save_query save_body []
                    {| status := 200; res_headers := [];
                       res_body := json_text (VObj [("metafields",
                                                     VArr [standing_entry "{}"])]) |}
                    (VObj [("metafields", VArr [standing_entry "{}"])])
                    save_query_verified eq_refl
                    ltac:(vm_compute; reflexivity) eq_refl ltac:(vm_compute; reflexivity))
             (standing_entry "{}") (VNum 1%float)
             {| status := 200; res_headers := [];
                res_body := json_text (VObj [("metafield", VObj [("id", VNum 1%float)])]) |}
             (VObj [("metafield", VObj [("id", VNum 1%float)])]));
      vm_compute; reflexivity.
  - apply (proj2 (save_updates_or_creates (metafield_store []) cfg
                    save_query save_body []
                    {| status := 200; res_headers := [];
                       res_body := json_text (VObj [("metafields", VArr [])]) |}
                    (VObj [("metafields", VArr [])])
                    save_query_verified eq_refl
                    ltac:(vm_compute; reflexivity) eq_refl ltac:(vm_compute; reflexivity))
             VUndefined
             {| status := 201; res_headers := [];
                res_body := json_text (VObj [("metafield", VObj [("id", VNum 2%float)])]) |}
             (VObj [("metafield", VObj [("id", VNum 2%float)])]));
      vm_compute; reflexivity.
Defined.

(** The save of a customer with a stored entry: one lookup, one update. *)
Lemma save_calls_witness :
  exists n m write,
    [lookup_request cfg (body_customer_id save_body);
     update_request cfg (VNum 1%float) (body_data save_body)]
    = repeat (lookup_request cfg (body_customer_id save_body)) n ++ repeat write m
    /\ (n <= 4)%nat /\ (m <= 4)%nat
    /\ ((0 < m)%nat ->
        exists json h1 mf,
          shopify (metafield_store [standing_entry "{}"]) cfg
            (metafields_path (body_customer_id save_body)) no_init [] = (Ok json, h1)
          /\ find_standing json = Ok mf
          /\ ((truthy mf = true
               /\ exists mf_id,
                    get_prop mf "id" = Ok mf_id
                    /\ write = update_request cfg mf_id (body_data save_body))
              \/ (truthy mf = false
                  /\ write = creation_request cfg (body_customer_id save_body)
                               (body_data save_body)))).
Proof.
  refine (save_calls (rt := runtime) (metafield_store [standing_entry "{}"]) cfg save_query save_body []
           (Some {| code := 200; payload := VObj [("ok", VBool true)] |})
           [Fetched (lookup_request cfg (body_customer_id save_body));
            Fetched (update_request cfg (VNum 1%float) (body_data save_body))]
           _); vm_compute; reflexivity.
Defined.

(** The read of a customer without a stored entry: 200 and [{ data: null }]. *)
Lemma proxy_get_never_returns_data_witness :
  (forall answer,
      Some {| code := 200; payload := VObj [("data", VNull)] |} = Some answer ->
      (code answer = 200 \/ code answer = 400 \/ code answer = 401 \/ code answer = 500)
      /\ (code answer = 200 ->
          payload answer = VObj [("data", VNull)]
          /\ exists customer json mf,
               assoc "customer_id" save_query = Some customer
               /\ shopify (metafield_store []) cfg (metafields_path (VStr customer)) no_init []
                  = (Ok json, [Fetched (admin_request cfg "/customers/7/metafields.json" no_init)])
               /\ find_standing json = Ok mf
               /\ truthy mf = false))
  /\ exists n,
       (n <= 4)%nat
       /\ forall customer,
            assoc "customer_id" save_query = Some customer \/ n = 0%nat ->
            [admin_request cfg "/customers/7/metafields.json" no_init]
            = repeat (lookup_request cfg (VStr customer)) n.
Proof.
  refine (proxy_get_never_returns_data (rt := runtime) (metafield_store []) cfg save_query []
           (Some {| code := 200; payload := VObj [("data", VNull)] |})
           [Fetched (admin_request cfg "/customers/7/metafields.json" no_init)]
           _); vm_compute; reflexivity.
Defined.

(** A Monday run over a shop whose customer has a stored document with a
    quantity for Monday: the run fails, and posts nothing. *)
Lemma run_creates_nothing_witness :
  (exists calls,
      [page_request cfg None; lookup_request cfg (VNum 7%float)] = calls
      /\ Forall is_get calls)
  /\ (forall answer,
         Some (error_reply 500 "m is not defined") = Some answer ->
         code answer = 200 -> answer = ok_reply []).
Proof.
  refine (run_creates_nothing (rt := runtime)
           (shop [standing_entry (json_text flat_document)] invoice_sent) cfg Monday 5 []
           (Some (error_reply 500 "m is not defined"))
           [Fetched (page_request cfg None); Yielded (VNum 7%float);
            Fetched (lookup_request cfg (VNum 7%float))]
           _); vm_compute; reflexivity.
Defined.

(** A listing refused with 401. *)
Lemma listing_refused_fails_the_run_witness :
  run_standing_orders (always (refusal 401 [] "Unauthorized")) cfg Monday 5 []
  = (Some (error_reply 500 "List customers failed: 401"), [Fetched (page_request cfg None)]).
Proof.
  exact (listing_refused_fails_the_run (always (refusal 401 [] "Unauthorized")) cfg Monday 4 []
           {| status := 401; res_headers := []; res_body := "Unauthorized" |}
           eq_refl eq_refl eq_refl).
Defined.

Lemma three_pages_no_entries_served :
  serves three_pages_no_entries cfg None
    [(page_1, [VNum 1; VNum 2]); (page_2, [VNum 3]); (page_3, [VNum 4; VNum 5])]%float.
Proof.
  cbn [serves].
  repeat match goal with
         | |- _ /\ _ => split
         | |- forall h : history, _ => intros h; vm_compute; reflexivity
         | |- page_holds _ _ =>
             split; [ vm_compute; reflexivity | ];
             eexists _, _, _;
             split; [ vm_compute; reflexivity | ];
             split; [ vm_compute; reflexivity | ];
             split; [ vm_compute; reflexivity | ];
             repeat constructor
         | |- exists tok, _ => eexists; split; [ vm_compute; reflexivity | ]
         | |- match_next_link _ = None => vm_compute; reflexivity
         end.
Qed.

Lemma three_pages_without_entries :
  Forall (without_entry three_pages_no_entries cfg)
    [VNum 1; VNum 2; VNum 3; VNum 4; VNum 5]%float.
Proof.
  repeat constructor;
    (exists {| status := 200; res_headers := [];
               res_body := json_text (VObj [("metafields", VArr [])]) |},
            (VObj [("metafields", VArr [])]), VUndefined;
     split; [ intros h; vm_compute; reflexivity | ];
     repeat split; vm_compute; reflexivity).
Qed.

(** Three pages, five customers, no entry: three listings, five lookups. *)
Lemma run_over_customers_without_entries_witness :
  run_standing_orders three_pages_no_entries cfg Monday 9 []
  = (Some (ok_reply []),
     [Fetched (page_request cfg None);
      Yielded (VNum 1); Fetched (lookup_request cfg (VNum 1));
      Yielded (VNum 2); Fetched (lookup_request cfg (VNum 2));
      Fetched (page_request cfg (Some "p2"));
      Yielded (VNum 3); Fetched (lookup_request cfg (VNum 3));
      Fetched (page_request cfg (Some "p3"));
      Yielded (VNum 4); Fetched (lookup_request cfg (VNum 4));
      Yielded (VNum 5); Fetched (lookup_request cfg (VNum 5))]%float).
Proof.
  rewrite (run_over_customers_without_entries three_pages_no_entries cfg Monday
             [(page_1, [VNum 1; VNum 2]); (page_2, [VNum 3]); (page_3, [VNum 4; VNum 5])]%float
             [] 9 three_pages_no_entries_served three_pages_without_entries
             ltac:(cbn; lia)).
  vm_compute. reflexivity.
Defined.


(** The header of the second of three pages. *)
Lemma next_cursor_found_witness :
  match_next_link (link_entry (customers_base +++ "page_info=" +++ "p3") "next") = Some "p3"
  /\ match_next_link (link_entry (customers_base +++ "page_info=p1") "previous" +++ ", "
                        +++ link_entry (customers_base +++ "page_info=" +++ "p3") "next")
     = Some "p3".
Proof.
  apply (next_cursor_found customers_base "p3" (customers_base +++ "page_info=p1"));
    (discriminate || reflexivity).
Defined.

End MoreRuns.
